(** * crong: cron expressions, schedules and scheduled jobs

    A shallow embedding of [schedule.go] (field parser, [Schedule],
    [Next]/[Prev]/[Matches]) and of the [ScheduledJob] state machine of
    [scheduledjob.go], followed by the properties of the specification
    that were checked against them.

    Conventions.
    - Go's [int] and [int64] are [Z]; the values handled here (cron field
      values, instants of time, counters of a fresh job) stay far from
      2^63, except in [strconv.Atoi], whose range check is written out, and
      in the atomic counters, whose wrap-around is written out.
    - A Go [string] is a [string] of bytes.  Cron expressions are ASCII
      text: [strings.ToUpper] and [strings.TrimSpace] are modelled on
      ASCII bytes.
    - A Go slice of ints is [option (list Z)]: [None] is the [nil] slice,
      which [parseRange] tells apart from an empty one.
    - A Go [error] is a value of the inductive type [error]; [None] is the
      [nil] error.  Messages built with [fmt.Sprintf] are kept as data.
    - Loops that need not terminate ([Next], [Prev]) take a fuel argument
      and return [None] when it runs out.  The recursion of [parse] takes
      fuel too; [parse] itself supplies enough of it. *)

From Stdlib Require Import ZArith List Bool Ascii String Lia Arith.
Import ListNotations.

#[local] Open Scope string_scope.
#[local] Open Scope list_scope.
#[local] Open Scope Z_scope.

(* ===================================================================== *)
(** * Part I: definitions                                                 *)
(* ===================================================================== *)

(* --------------------------------------------------------------------- *)
(** ** The Go library functions the code calls                           *)
(* --------------------------------------------------------------------- *)

Module strings.

(** [strings.ContainsRune(s, r)] for an ASCII rune [r]. *)
Fixpoint ContainsRune (s : string) (r : ascii) : bool :=
  match s with
  | EmptyString => false
  | String c s' => if Ascii.eqb c r then true else ContainsRune s' r
  end.

(** [strings.Cut(s, sep)] for a one-byte separator: the text before and
    after the first [sep], or [(s, "", false)] when there is none. *)
Fixpoint Cut (s : string) (sep : ascii) : string * string * bool :=
  match s with
  | EmptyString => (EmptyString, EmptyString, false)
  | String c s' =>
      if Ascii.eqb c sep then (EmptyString, s', true)
      else
        match Cut s' sep with
        | (before, after, true) => (String c before, after, true)
        | (_, _, false) => (s, EmptyString, false)
        end
  end.

(** [strings.Split(s, sep)] for a one-byte separator: one more item than
    there are separators; [Split("", sep)] is [[""]]. *)
Fixpoint Split (s : string) (sep : ascii) : list string :=
  match s with
  | EmptyString => [EmptyString]
  | String c s' =>
      if Ascii.eqb c sep then EmptyString :: Split s' sep
      else
        match Split s' sep with
        | [] => [String c EmptyString]
        | item :: items => String c item :: items
        end
  end.

(** [strings.Join(elems, sep)]. *)
Fixpoint Join (elems : list string) (sep : string) : string :=
  match elems with
  | [] => EmptyString
  | [e] => e
  | e :: rest => (e ++ sep ++ Join rest sep)%string
  end.

Definition upper (c : ascii) : ascii :=
  let n := nat_of_ascii c in
  if (97 <=? n)%nat && (n <=? 122)%nat then ascii_of_nat (n - 32) else c.

(** [strings.ToUpper] on ASCII text. *)
Fixpoint ToUpper (s : string) : string :=
  match s with
  | EmptyString => EmptyString
  | String c s' => String (upper c) (ToUpper s')
  end.

(** The ASCII white space: tab, line feed, vertical tab, form feed,
    carriage return and space. *)
Definition isSpace (c : ascii) : bool :=
  let n := nat_of_ascii c in
  ((9 <=? n)%nat && (n <=? 13)%nat) || (n =? 32)%nat.

Fixpoint TrimLeft (s : string) : string :=
  match s with
  | EmptyString => EmptyString
  | String c s' => if isSpace c then TrimLeft s' else s
  end.

Fixpoint TrimRight (s : string) : string :=
  match s with
  | EmptyString => EmptyString
  | String c s' =>
      match TrimRight s' with
      | EmptyString => if isSpace c then EmptyString else String c EmptyString
      | r => String c r
      end
  end.

(** [strings.TrimSpace] on ASCII text. *)
Definition TrimSpace (s : string) : string := TrimRight (TrimLeft s).

End strings.

Module strconv.

Inductive NumErr := ErrSyntax | ErrRange.

Definition digit (c : ascii) : option Z :=
  let n := Z.of_nat (nat_of_ascii c) in
  if (48 <=? n) && (n <=? 57) then Some (n - 48) else None.

Fixpoint digits (s : string) (acc : Z) : option Z :=
  match s with
  | EmptyString => Some acc
  | String c s' =>
      match digit c with
      | Some d => digits s' (acc * 10 + d)
      | None => None
      end
  end.

Definition minInt : Z := - 2 ^ 63.
Definition maxInt : Z := 2 ^ 63 - 1.

(** [strconv.Atoi]: an optional sign, then one or more decimal digits; a
    value that does not fit a 64-bit int is a range error. *)
Definition Atoi (s : string) : Z + NumErr :=
  match s with
  | EmptyString => inr ErrSyntax
  | String c rest =>
      let neg := Ascii.eqb c "-" in
      let body := if neg || Ascii.eqb c "+" then rest else s in
      match body with
      | EmptyString => inr ErrSyntax
      | _ =>
          match digits body 0 with
          | None => inr ErrSyntax
          | Some n =>
              let v := if neg then - n else n in
              if (minInt <=? v) && (v <=? maxInt) then inl v else inr ErrRange
          end
      end
  end.

End strconv.

Module slices.

Fixpoint insert (x : Z) (l : list Z) : list Z :=
  match l with
  | [] => [x]
  | y :: l' => if x <=? y then x :: l else y :: insert x l'
  end.

(** [slices.Sort] on ints: the elements in ascending order. *)
Fixpoint Sort (l : list Z) : list Z :=
  match l with
  | [] => []
  | x :: l' => insert x (Sort l')
  end.

(** The slice [slices.Compact] returns: each run of equal neighbours
    replaced by one copy. *)
Fixpoint Compact (l : list Z) : list Z :=
  match l with
  | [] => []
  | x :: l' =>
      match l' with
      | [] => [x]
      | y :: _ => if x =? y then Compact l' else x :: Compact l'
      end
  end.

(** What [slices.Compact] leaves in the slice it was given, seen at its
    old length: it moves the kept elements to the front of the backing
    array and clears the obsolete tail ("Compact zeroes the elements
    between the new length and the original length"). *)
Definition CompactInPlace (l : list Z) : list Z :=
  Compact l ++ repeat 0 (List.length l - List.length (Compact l))%nat.

End slices.

(* --------------------------------------------------------------------- *)
(** ** schedule.go: constants, errors and the five fields                *)
(* --------------------------------------------------------------------- *)

(** Cron special characters. *)
Definition Any : ascii := "*".
Definition ListSeparator : ascii := ",".
Definition Range : ascii := "-".
Definition Step : ascii := "/".
Definition Blank : ascii := "?".
Definition Last : ascii := "L".

(** [string(r)] for an ASCII rune. *)
Definition str (r : ascii) : string := String r EmptyString.

(** Cron macros. *)
Definition Yearly := "@yearly".
Definition Annually := "@annually".
Definition Monthly := "@monthly".
Definition Weekly := "@weekly".
Definition Daily := "@daily".
Definition Midnight := "@midnight".
Definition Hourly := "@hourly".

(** Cron expression positions. *)
Definition minuteInd : Z := 0.
Definition hourInd : Z := 1.
Definition dayInd : Z := 2.
Definition monthInd : Z := 3.
Definition weekdayInd : Z := 4.

Definition decemberInd : Z := 12.
Definition januaryInd : Z := 1.

(** The text of a message built by [field.error]. *)
Inductive message : Type :=
| Text (s : string)
| LessThan (s : string) (min : Z)
| GreaterThan (s : string) (max : Z)
| StartNotLess (startNum endNum : Z).

(** Go errors, by the call that builds them. *)
#[warnings="-register-all"]
Inductive error : Type :=
| NumError (fn num : string) (e : strconv.NumErr)
| Errorf (msg : string)
| errorsNew (text : string)
| InvalidStepEntry (stepRange step : string)
| FieldError (name : string) (msg : message)
| WrapErr (name : string) (e : error)
| FieldCount (cron : string) (n : nat)
| JoinError (errs : list error).

(** [errors.Join]: [nil] when every argument is [nil], else the non-nil
    arguments in order. *)
Fixpoint nonNil (errs : list (option error)) : list error :=
  match errs with
  | [] => []
  | Some e :: rest => e :: nonNil rest
  | None :: rest => nonNil rest
  end.

Definition errorsJoin (errs : list (option error)) : option error :=
  match nonNil errs with
  | [] => None
  | es => Some (JoinError es)
  end.

(** A slice of ints; [None] is [nil]. *)
Definition slice := option (list Z).

Definition elems (v : slice) : list Z :=
  match v with
  | None => []
  | Some l => l
  end.

Definition len (v : slice) : Z := Z.of_nat (List.length (elems v)).

(** [append] to a slice that starts out [nil]: it stays [nil] when
    nothing is appended. *)
Definition appended (l : list Z) : slice :=
  match l with
  | [] => None
  | _ => Some l
  end.

(** The integers [lo], [lo+1], ..., [hi] of a loop
    [for i := lo; i <= hi; i++]. *)
Definition upto (lo hi : Z) : list Z :=
  map (fun k => lo + Z.of_nat k) (seq 0 (Z.to_nat (hi - lo + 1))).

Fixpoint lookupConv (m : list (string * Z)) (k : string) : option Z :=
  match m with
  | [] => None
  | (k', v) :: rest => if String.eqb k k' then Some v else lookupConv rest k
  end.

Record field := {
  Name : string;
  Index : Z;
  Allowed : list Z;
  Conversions : option (list (string * Z))
}.

(** [f.Allowed[0]] and [f.Allowed[len(f.Allowed)-1]].  Indexing an empty
    [Allowed] panics in Go; none of the five fields is empty. *)
Definition Min (f : field) : Z := hd 0 (Allowed f).
Definition Max (f : field) : Z := last (Allowed f) 0.

Definition minuteOpts : field := {|
  Name := "minute";
  Index := minuteInd;
  Allowed := [0; 1; 2; 3; 4; 5; 6; 7; 8; 9; 10; 11; 12; 13; 14; 15; 16; 17;
              18; 19; 20; 21; 22; 23; 24; 25; 26; 27; 28; 29; 30; 31; 32;
              33; 34; 35; 36; 37; 38; 39; 40; 41; 42; 43; 44; 45; 46; 47;
              48; 49; 50; 51; 52; 53; 54; 55; 56; 57; 58; 59];
  Conversions := None
|}.

Definition hourOpts : field := {|
  Name := "hour";
  Index := hourInd;
  Allowed := [0; 1; 2; 3; 4; 5; 6; 7; 8; 9; 10; 11; 12; 13; 14; 15; 16; 17;
              18; 19; 20; 21; 22; 23];
  Conversions := None
|}.

Definition dayOpts : field := {|
  Name := "day";
  Index := dayInd;
  Allowed := [1; 2; 3; 4; 5; 6; 7; 8; 9; 10; 11; 12; 13; 14; 15; 16; 17; 18;
              19; 20; 21; 22; 23; 24; 25; 26; 27; 28; 29; 30; 31];
  Conversions := None
|}.

Definition monthOpts : field := {|
  Name := "month";
  Index := monthInd;
  Allowed := [1; 2; 3; 4; 5; 6; 7; 8; 9; 10; 11; 12];
  Conversions := Some [("JAN", 1); ("FEB", 2); ("MAR", 3); ("APR", 4);
                       ("MAY", 5); ("JUN", 6); ("JUL", 7); ("AUG", 8);
                       ("SEP", 9); ("OCT", 10); ("NOV", 11); ("DEC", 12)]
|}.

Definition weekdayOpts : field := {|
  Name := "weekday";
  Index := weekdayInd;
  Allowed := [0; 1; 2; 3; 4; 5; 6];
  Conversions := Some [("SUN", 0); ("MON", 1); ("TUE", 2); ("WED", 3);
                       ("THU", 4); ("FRI", 5); ("SAT", 6)]
|}.

(** [cronShortcut]: the cron macros and their expressions. *)
Definition cronShortcut (macro : string) : option string :=
  if String.eqb macro Yearly then Some "0 0 1 1 *"
  else if String.eqb macro Annually then Some "0 0 1 1 *"
  else if String.eqb macro Monthly then Some "0 0 1 * *"
  else if String.eqb macro Weekly then Some "0 0 * * 0"
  else if String.eqb macro Daily then Some "0 0 * * *"
  else if String.eqb macro Midnight then Some "0 0 * * *"
  else if String.eqb macro Hourly then Some "0 * * * *"
  else None.

(* --------------------------------------------------------------------- *)
(** ** schedule.go: the field parser                                     *)
(* --------------------------------------------------------------------- *)

(** What a call of a parsing method does: it returns its pair of results,
    panics (an index out of range), or - in the model only - runs out of
    the fuel that bounds the recursion. *)
Inductive outcome : Type :=
| Ret (values : slice) (err : option error)
| Panic
| NoFuel.

(** [field.error] and [field.wrapErr]. *)
Definition fieldError (f : field) (msg : message) : error :=
  FieldError (Name f) msg.

Definition wrapErr (f : field) (err : error) : error :=
  WrapErr (Name f) err.

Fixpoint stepValuesFrom (values : list Z) (step stepInd : Z) : list Z :=
  match values with
  | [] => []
  | stepVal :: rest =>
      if Z.rem stepInd step =? 0
      then stepVal :: stepValuesFrom rest step (stepInd + 1)
      else stepValuesFrom rest step (stepInd + 1)
  end.

(** [stepValues]: every [step]-th value, starting with the first. *)
Definition stepValues (values : list Z) (step : Z) : list Z :=
  stepValuesFrom values step 0.

Section Parser.

(** The field, and [f.parse] as the three helpers call it. *)
Variable f : field.
Variable parse : string -> outcome.

Fixpoint parseListItems (items : list string) (values : list Z) : outcome :=
  match items with
  | [] => Ret (Some values) None
  | ms :: rest =>
      match parse ms with
      | Ret sv None => parseListItems rest (values ++ elems sv)
      | Ret _ (Some err) => Ret None (Some (wrapErr f err))
      | Panic => Panic
      | NoFuel => NoFuel
      end
  end.

Definition parseList (s : string) : outcome :=
  parseListItems (strings.Split s ListSeparator) [].

Definition parseStep (stepRange step : string) : outcome :=
  if String.eqb stepRange "" || String.eqb step "" then
    Ret None (Some (fieldError f (Text "empty step entry")))
  else
    match strconv.Atoi step with
    | inr _ => Ret None (Some (wrapErr f (InvalidStepEntry stepRange step)))
    | inl stepVal =>
        if stepVal <? 1 then
          Ret None (Some (fieldError f (Text "step must be greater than 0")))
        else
          match parse stepRange with
          | Ret stepRangeValues None =>
              let stepRangeValues :=
                match elems stepRangeValues with
                | [minVal] =>
                    minVal :: filter (fun av => av >? minVal) (Allowed f)
                | l => l
                end in
              let values := stepValues stepRangeValues stepVal in
              match values with
              | [_] => Ret None (Some (wrapErr f (Errorf "step only occurs once")))
              | _ => Ret (Some values) None
              end
          | Ret _ (Some err) => Ret None (Some (wrapErr f err))
          | Panic => Panic
          | NoFuel => NoFuel
          end
    end.

(** One end of a range: [f.parse] must give a slice that is not [nil]
    and has at most one value. *)
Definition rangeEnd (text : string) (emptyMsg multipleMsg : string)
    (k : list Z -> outcome) : outcome :=
  match parse text with
  | Ret _ (Some err) => Ret None (Some (wrapErr f err))
  | Ret None None => Ret None (Some (fieldError f (Text emptyMsg)))
  | Ret (Some l) None =>
      if (1 <? List.length l)%nat then
        Ret None (Some (fieldError f (Text multipleMsg)))
      else k l
  | Panic => Panic
  | NoFuel => NoFuel
  end.

(** [startMin[0]] and [endMin[0]] are read after both ends have been
    parsed; on an empty slice the index panics. *)
Definition parseRange (beforeRange afterRange : string) : outcome :=
  if String.eqb afterRange "" then
    Ret None (Some (fieldError f (Text "empty end range")))
  else
    rangeEnd beforeRange "empty Start range" "multiple Start range values"
      (fun startMin =>
    rangeEnd afterRange "empty end range" "multiple end range values"
      (fun endMin =>
    match startMin, endMin with
    | startNum :: _, endNum :: _ =>
        if (startNum >? endNum) || (startNum =? endNum) then
          Ret None (Some (fieldError f (StartNotLess startNum endNum)))
        else Ret (Some (upto startNum endNum)) None
    | _, _ => Panic
    end)).

(** The deferred function of [parse].  The results of [parse] are not
    named, so the [return] has already copied the slice (pointer and
    length) when the deferred function runs: sorting in place shows in the
    returned slice, and so does what [slices.Compact] writes into the
    backing array, but not the shorter length it returns, which is
    assigned to the local variable only. *)
Definition deferred (r : outcome) : outcome :=
  match r with
  | Ret (Some values) err =>
      Ret (Some (slices.CompactInPlace (slices.Sort values))) err
  | _ => r
  end.

Definition parseBody (s : string) : outcome :=
  if String.eqb s "" then Ret None (Some (fieldError f (Text "empty")))
  else if String.eqb s (str Blank)
          && negb (Index f =? dayInd) && negb (Index f =? monthInd)
          && negb (Index f =? weekdayInd) then
    Ret None (Some (fieldError f
      (Text "wildcard ? only supported for day, month, and weekday fields")))
  else if String.eqb s (str Any) || String.eqb s (str Blank) then
    Ret (appended (upto (Min f) (Max f))) None
  else
    let s := strings.ToUpper s in
    match
      match Conversions f with
      | Some conv => lookupConv conv s
      | None => None
      end
    with
    | Some v => Ret (Some [v]) None
    | None =>
        match strconv.Atoi s with
        | inl m =>
            if m <? Min f then
              Ret None (Some (fieldError f (LessThan s (Min f))))
            else if m >? Max f then
              Ret None (Some (fieldError f (GreaterThan s (Max f))))
            else Ret (Some [m]) None
        | inr e =>
            if strings.ContainsRune s ListSeparator
               || strings.ContainsRune s Range
               || strings.ContainsRune s Step
               || strings.ContainsRune s Last
            then
              if strings.ContainsRune s ListSeparator then parseList s
              else
                let '(beforeStep, afterStep, stepFound) :=
                  strings.Cut s Step in
                if stepFound then parseStep beforeStep afterStep
                else
                  let '(before, after, rangeFound) := strings.Cut s Range in
                  if rangeFound then parseRange before after
                  else Ret None None
            else Ret None (Some (wrapErr f (NumError "Atoi" s e)))
        end
    end.

End Parser.

(** [f.parse] with its recursion bounded by [fuel]. *)
Fixpoint parseFuel (fuel : nat) (f : field) (s : string) : outcome :=
  match fuel with
  | O => NoFuel
  | S fuel' => deferred (parseBody f (parseFuel fuel' f) s)
  end.

(** Every recursive call is on a strictly shorter text, so this much fuel
    is enough ([parse_enough_fuel] below). *)
Definition parseRun (f : field) (s : string) : outcome :=
  parseFuel (S (String.length s)) f s.

(** [field.parse]: the pair it returns.  It neither panics nor runs out
    of fuel ([parse_returns] below). *)
Definition parse (f : field) (s : string) : slice * option error :=
  match parseRun f s with
  | Ret values err => (values, err)
  | _ => (None, None)
  end.

(* --------------------------------------------------------------------- *)
(** ** Package time                                                      *)
(* --------------------------------------------------------------------- *)

Module time.

(** A [Duration] is a number of nanoseconds. *)
Definition Duration := Z.
Definition Second : Duration := 1000000000.
Definition Minute : Duration := 60 * Second.
Definition Hour : Duration := 60 * Minute.

(** A [Location] is the history of a zone's offset from UTC, in seconds:
    the offset in force before the first transition, and the transitions
    (unix second, new offset) in ascending order.  [UTC] and the zones of
    [FixedZone] have no transition. *)
Record Location := {
  zone : Z;
  tx : list (Z * Z)
}.

Definition UTC : Location := {| zone := 0; tx := [] |}.
Definition FixedZone (offset : Z) : Location := {| zone := offset; tx := [] |}.

Definition alpha : Z := - 2 ^ 63.
Definition omega : Z := 2 ^ 63 - 1.

Fixpoint lookupTx (txs : list (Z * Z)) (offset start sec : Z) : Z * Z * Z :=
  match txs with
  | [] => (offset, start, omega)
  | (when, offset') :: rest =>
      if sec <? when then (offset, start, when)
      else lookupTx rest offset' when sec
  end.

(** [l.lookup(sec)]: the offset in force at unix second [sec], and the
    interval [start, end) of seconds over which it is. *)
Definition lookup (l : Location) (sec : Z) : Z * Z * Z :=
  lookupTx (tx l) (zone l) alpha sec.

(** An instant, in nanoseconds since 1970-01-01T00:00:00Z, and the
    location its calendar fields are read in. *)
Record Time := {
  unixNano : Z;
  loc : Location
}.

(** The proleptic Gregorian calendar. *)
Definition isLeap (year : Z) : bool :=
  (year mod 4 =? 0) && (negb (year mod 100 =? 0) || (year mod 400 =? 0)).

(** [daysBefore[m]]: the days of a non-leap year before month [m+1]. *)
Definition daysBefore (m : Z) : Z :=
  nth (Z.to_nat m) [0; 31; 59; 90; 120; 151; 181; 212; 243; 273; 304; 334; 365] 0.

Definition daysIn (m year : Z) : Z :=
  if (m =? 2) && isLeap year then 29 else daysBefore m - daysBefore (m - 1).

(** Days from 1970-01-01 to January 1 of [year]. *)
Definition daysSinceEpoch (year : Z) : Z :=
  let y := year - 1 in
  365 * y + y / 4 - y / 100 + y / 400 - 719162.

(** Days from 1970-01-01 to the given date, [month] in 1..12. *)
Definition dateToDays (year month day : Z) : Z :=
  daysSinceEpoch year + daysBefore (month - 1)
  + (if isLeap year && (3 <=? month) then 1 else 0)
  + (day - 1).

(** The date (year, month, day) that is [z] days after 1970-01-01. *)
Definition civil (z : Z) : Z * Z * Z :=
  let z := z + 719468 in
  let era := z / 146097 in
  let doe := z mod 146097 in
  let yoe := (doe - doe / 1460 + doe / 36524 - doe / 146096) / 365 in
  let doy := doe - (365 * yoe + yoe / 4 - yoe / 100) in
  let mp := (5 * doy + 2) / 153 in
  let d := doy - (153 * mp + 2) / 5 + 1 in
  let m := if mp <? 10 then mp + 3 else mp - 9 in
  let y := yoe + era * 400 in
  (if m <=? 2 then y + 1 else y, m, d).

(** [norm(hi, lo, base)]: [lo] brought into [0, base), the excess carried
    into [hi]. *)
Definition norm (hi lo base : Z) : Z * Z := (hi + lo / base, lo mod base).

(** [time.Date]: the fields are normalised, the date is taken as if in
    UTC, and the zone offset found for that second is subtracted; when the
    result falls outside the interval the offset is in force for, the
    offset is looked up again at the result. *)
Definition Date (year month day hour min sec nsec : Z) (l : Location) : Time :=
  let '(year, m) := norm year (month - 1) 12 in
  let month := m + 1 in
  let '(sec, nsec) := norm sec nsec 1000000000 in
  let '(min, sec) := norm min sec 60 in
  let '(hour, min) := norm hour min 60 in
  let '(day, hour) := norm day hour 24 in
  let unix := dateToDays year month day * 86400
              + hour * 3600 + min * 60 + sec in
  let '(offset, start, end_) := lookup l unix in
  let unix :=
    if offset =? 0 then unix
    else
      let utc := unix - offset in
      let offset :=
        if (utc <? start) || (utc >=? end_)
        then fst (fst (lookup l utc)) else offset in
      unix - offset in
  {| unixNano := unix * 1000000000 + nsec; loc := l |}.

End time.

(** The methods of [time.Time]. *)
Module Time.

Definition Unix (t : time.Time) : Z := time.unixNano t / 1000000000.

(** The seconds since 1970-01-01T00:00:00 of the wall clock at the
    location of [t]. *)
Definition wall (t : time.Time) : Z :=
  Unix t + fst (fst (time.lookup (time.loc t) (Unix t))).

Definition date (t : time.Time) : Z * Z * Z := time.civil (wall t / 86400).

Definition Year (t : time.Time) : Z := fst (fst (date t)).
Definition Month (t : time.Time) : Z := snd (fst (date t)).
Definition Day (t : time.Time) : Z := snd (date t).
Definition Hour (t : time.Time) : Z := (wall t mod 86400) / 3600.
Definition Minute (t : time.Time) : Z := (wall t mod 3600) / 60.

(** Sunday is 0; 1970-01-01 was a Thursday. *)
Definition Weekday (t : time.Time) : Z := (wall t / 86400 + 4) mod 7.

Definition Location (t : time.Time) : time.Location := time.loc t.

Definition In (t : time.Time) (l : time.Location) : time.Time :=
  {| time.unixNano := time.unixNano t; time.loc := l |}.

Definition Add (t : time.Time) (d : time.Duration) : time.Time :=
  {| time.unixNano := time.unixNano t + d; time.loc := time.loc t |}.

(** [t.Truncate(d)] rounds down to a multiple of [d] since the zero time,
    January 1 of year 1, which is 62135596800 seconds before 1970. *)
Definition Truncate (t : time.Time) (d : time.Duration) : time.Time :=
  if d <=? 0 then t
  else Add t (- ((time.unixNano t + 62135596800 * time.Second) mod d)).

Definition Before (t u : time.Time) : Prop := time.unixNano t < time.unixNano u.
Definition After (t u : time.Time) : Prop := time.unixNano u < time.unixNano t.
Definition Equal (t u : time.Time) : Prop := time.unixNano t = time.unixNano u.

End Time.

(* --------------------------------------------------------------------- *)
(** ** schedule.go: Schedule                                             *)
(* --------------------------------------------------------------------- *)

(** [values] is the array [[5]string]; the zero value of the other fields
    is [nil] and [false].  [created] (the clock at construction) and
    [minutesDesc] are written by [New] and [validate] and read nowhere;
    they are left out. *)
Record Schedule := {
  values : list string;
  loc : time.Location;
  minutes : slice;
  allowAnyMinute : bool;
  hours : slice;
  allowAnyHour : bool;
  days : slice;
  allowAnyDay : bool;
  months : slice;
  allowAnyMonth : bool;
  weekdays : slice;
  allowAnyWeekday : bool
}.

(** [s.values[i]]. *)
Definition value (s : Schedule) (i : Z) : string :=
  nth (Z.to_nat i) (values s) "".

Definition Minute (s : Schedule) : string := value s minuteInd.
Definition Hour (s : Schedule) : string := value s hourInd.
Definition Day (s : Schedule) : string := value s dayInd.
Definition Month (s : Schedule) : string := value s monthInd.
Definition Weekday (s : Schedule) : string := value s weekdayInd.

(** [Schedule.String]. *)
Definition Schedule_String (s : Schedule) : string :=
  strings.Join (values s) " ".

(** [for _, v := range l { if x == v { return true } }; return false]. *)
Fixpoint included (x : Z) (l : list Z) : bool :=
  match l with
  | [] => false
  | v :: rest => if x =? v then true else included x rest
  end.

Definition isMinute (s : Schedule) (t : time.Time) : bool :=
  if allowAnyMinute s then true
  else included (Time.Minute t) (elems (minutes s)).

Definition isHour (s : Schedule) (t : time.Time) : bool :=
  if allowAnyHour s then true
  else included (Time.Hour t) (elems (hours s)).

Definition isDay (s : Schedule) (t : time.Time) : bool :=
  if allowAnyDay s then true
  else if included (Time.Day t) (elems (days s)) then true
  else if String.eqb (Day s) (str Last) then
    let targetMonth := Time.Month t + 1 in
    let nextMonth :=
      time.Date (Time.Year t) targetMonth 1 0 0 0 0 (Time.Location t) in
    let lastOfThisMonth := Time.Add nextMonth (-24 * time.Hour) in
    Time.Day lastOfThisMonth =? Time.Day t
  else false.

Definition isMonth (s : Schedule) (t : time.Time) : bool :=
  if allowAnyMonth s then true
  else included (Time.Month t) (elems (months s)).

Definition isWeekday (s : Schedule) (t : time.Time) : bool :=
  if allowAnyWeekday s then true
  else included (Time.Weekday t) (elems (weekdays s)).

Definition Matches (s : Schedule) (t : time.Time) : bool :=
  isWeekday s t && isMonth s t && isDay s t && isHour s t && isMinute s t.

(** Assignments to the fields of a schedule. *)
Definition setMinutes (s : Schedule) (v : slice) : Schedule :=
  {| values := values s; loc := loc s; minutes := v;
     allowAnyMinute := allowAnyMinute s; hours := hours s;
     allowAnyHour := allowAnyHour s; days := days s;
     allowAnyDay := allowAnyDay s; months := months s;
     allowAnyMonth := allowAnyMonth s; weekdays := weekdays s;
     allowAnyWeekday := allowAnyWeekday s |}.

Definition setAllowAnyMinute (s : Schedule) (v : bool) : Schedule :=
  {| values := values s; loc := loc s; minutes := minutes s;
     allowAnyMinute := v; hours := hours s; allowAnyHour := allowAnyHour s;
     days := days s; allowAnyDay := allowAnyDay s; months := months s;
     allowAnyMonth := allowAnyMonth s; weekdays := weekdays s;
     allowAnyWeekday := allowAnyWeekday s |}.

Definition setHours (s : Schedule) (v : slice) : Schedule :=
  {| values := values s; loc := loc s; minutes := minutes s;
     allowAnyMinute := allowAnyMinute s; hours := v;
     allowAnyHour := allowAnyHour s; days := days s;
     allowAnyDay := allowAnyDay s; months := months s;
     allowAnyMonth := allowAnyMonth s; weekdays := weekdays s;
     allowAnyWeekday := allowAnyWeekday s |}.

Definition setAllowAnyHour (s : Schedule) (v : bool) : Schedule :=
  {| values := values s; loc := loc s; minutes := minutes s;
     allowAnyMinute := allowAnyMinute s; hours := hours s;
     allowAnyHour := v; days := days s; allowAnyDay := allowAnyDay s;
     months := months s; allowAnyMonth := allowAnyMonth s;
     weekdays := weekdays s; allowAnyWeekday := allowAnyWeekday s |}.

Definition setDays (s : Schedule) (v : slice) : Schedule :=
  {| values := values s; loc := loc s; minutes := minutes s;
     allowAnyMinute := allowAnyMinute s; hours := hours s;
     allowAnyHour := allowAnyHour s; days := v;
     allowAnyDay := allowAnyDay s; months := months s;
     allowAnyMonth := allowAnyMonth s; weekdays := weekdays s;
     allowAnyWeekday := allowAnyWeekday s |}.

Definition setAllowAnyDay (s : Schedule) (v : bool) : Schedule :=
  {| values := values s; loc := loc s; minutes := minutes s;
     allowAnyMinute := allowAnyMinute s; hours := hours s;
     allowAnyHour := allowAnyHour s; days := days s; allowAnyDay := v;
     months := months s; allowAnyMonth := allowAnyMonth s;
     weekdays := weekdays s; allowAnyWeekday := allowAnyWeekday s |}.

Definition setMonths (s : Schedule) (v : slice) : Schedule :=
  {| values := values s; loc := loc s; minutes := minutes s;
     allowAnyMinute := allowAnyMinute s; hours := hours s;
     allowAnyHour := allowAnyHour s; days := days s;
     allowAnyDay := allowAnyDay s; months := v;
     allowAnyMonth := allowAnyMonth s; weekdays := weekdays s;
     allowAnyWeekday := allowAnyWeekday s |}.

Definition setAllowAnyMonth (s : Schedule) (v : bool) : Schedule :=
  {| values := values s; loc := loc s; minutes := minutes s;
     allowAnyMinute := allowAnyMinute s; hours := hours s;
     allowAnyHour := allowAnyHour s; days := days s;
     allowAnyDay := allowAnyDay s; months := months s; allowAnyMonth := v;
     weekdays := weekdays s; allowAnyWeekday := allowAnyWeekday s |}.

Definition setWeekdays (s : Schedule) (v : slice) : Schedule :=
  {| values := values s; loc := loc s; minutes := minutes s;
     allowAnyMinute := allowAnyMinute s; hours := hours s;
     allowAnyHour := allowAnyHour s; days := days s;
     allowAnyDay := allowAnyDay s; months := months s;
     allowAnyMonth := allowAnyMonth s; weekdays := v;
     allowAnyWeekday := allowAnyWeekday s |}.

Definition setAllowAnyWeekday (s : Schedule) (v : bool) : Schedule :=
  {| values := values s; loc := loc s; minutes := minutes s;
     allowAnyMinute := allowAnyMinute s; hours := hours s;
     allowAnyHour := allowAnyHour s; days := days s;
     allowAnyDay := allowAnyDay s; months := months s;
     allowAnyMonth := allowAnyMonth s; weekdays := weekdays s;
     allowAnyWeekday := v |}.

(** [validate] assigns the parsed fields and returns the joined errors. *)
Definition validate (s : Schedule) : Schedule * option error :=
  let errs : list (option error) := [] in
  let anyStr := str Any in
  let blankStr := str Blank in
  let '(s, errs) :=
    let ms := Minute s in
    if String.eqb ms anyStr then (setAllowAnyMinute s true, errs)
    else
      let '(minutes, err) := parse minuteOpts ms in
      (setMinutes s minutes, errs ++ [err]) in
  let '(s, errs) :=
    let hs := Hour s in
    if String.eqb hs anyStr then (setAllowAnyHour s true, errs)
    else
      let '(hours, err) := parse hourOpts hs in
      (setHours s hours, errs ++ [err]) in
  let '(s, errs) :=
    let ds := Day s in
    if String.eqb ds anyStr || String.eqb ds blankStr then
      (setAllowAnyDay s true, errs)
    else
      let '(days, err) := parse dayOpts ds in
      (setDays s days, errs ++ [err]) in
  let '(s, errs) :=
    let ms := Month s in
    if String.eqb ms anyStr || String.eqb ms blankStr then
      (setAllowAnyMonth s true, errs)
    else
      let '(months, err) := parse monthOpts ms in
      (setMonths s months, errs ++ [err]) in
  let '(s, errs) :=
    let ws := Weekday s in
    if String.eqb ws (str Any) || String.eqb ws (str Blank) then
      (setAllowAnyWeekday s true, errs)
    else
      let '(weekdays, err) := parse weekdayOpts ws in
      (setWeekdays s weekdays, errs ++ [err]) in
  (s, errorsJoin errs).

(** [New]: the schedule pointer ([None] is [nil]) and the error.  A [nil]
    location stands for [time.UTC]. *)
Definition New (cron : string) (l : option time.Location)
  : option Schedule * option error :=
  let l := match l with
           | None => time.UTC
           | Some l => l
           end in
  let cron := strings.TrimSpace cron in
  let cron := match cronShortcut cron with
              | Some cs => cs
              | None => cron
              end in
  let values := strings.Split cron " " in
  if negb (List.length values =? 5)%nat then
    (None, Some (FieldCount cron (List.length values)))
  else
    let s := {| values := values; loc := l;
                minutes := None; allowAnyMinute := false;
                hours := None; allowAnyHour := false;
                days := None; allowAnyDay := false;
                months := None; allowAnyMonth := false;
                weekdays := None; allowAnyWeekday := false |} in
    let '(s, err) := validate s in
    (Some s, err).

(** The loop of [nextNoTruncate]: add a minute until the schedule
    matches. *)
Fixpoint nextLoop (fuel : nat) (s : Schedule) (t : time.Time)
  : option time.Time :=
  match fuel with
  | O => None
  | S fuel' =>
      let t := Time.Add t time.Minute in
      if Matches s t then Some t else nextLoop fuel' s t
  end.

Definition nextNoTruncate (fuel : nat) (s : Schedule) (t : time.Time)
  : option time.Time :=
  let cronExpr := Schedule_String s in
  if String.eqb cronExpr "0 0 1 1 *" then
    Some (time.Date (Time.Year t + 1) januaryInd 1 0 0 0 0 (Time.Location t))
  else if String.eqb cronExpr Monthly then
    if Time.Month t =? decemberInd then
      Some (time.Date (Time.Year t + 1) januaryInd 1 0 0 0 0 (Time.Location t))
    else
      Some (time.Date (Time.Year t) (Time.Month t + 1) 1 0 0 0 0
              (Time.Location t))
  else nextLoop fuel s t.

(** [Next]; [None] when [fuel] minutes were tried without a match. *)
Definition Next (fuel : nat) (s : Schedule) (t : time.Time)
  : option time.Time :=
  nextNoTruncate fuel s (Time.Truncate (Time.In t (loc s)) time.Minute).

Fixpoint prevLoop (fuel : nat) (s : Schedule) (t : time.Time)
  : option time.Time :=
  match fuel with
  | O => None
  | S fuel' =>
      let t := Time.Add t (- time.Minute) in
      if Matches s t then Some t else prevLoop fuel' s t
  end.

(** [Prev]; [None] when [fuel] minutes were tried without a match. *)
Definition Prev (fuel : nat) (s : Schedule) (t : time.Time)
  : option time.Time :=
  prevLoop fuel s (Time.Truncate (Time.In t (loc s)) time.Minute).

(* --------------------------------------------------------------------- *)
(** ** scheduledjob.go: ScheduledJob                                     *)
(* --------------------------------------------------------------------- *)

Definition ScheduleStarted : Z := 1.
Definition ScheduleSuspended : Z := 2.
Definition ScheduleStopped : Z := 3.

Record ScheduledJobOptions := {
  MaxConcurrent : Z;
  TickerReceiveTimeout : time.Duration;
  MaxFailures : Z;
  MaxConsecutiveFailures : Z
}.

Record JobRuntime := {
  rtStart : time.Time;
  rtEnd : time.Time;
  rtError : option error
}.

(** The fields of the struct that the state machine and [execute] use.
    [stopCh] is the number of signals waiting in the channel, whose
    capacity is 1.  [state], an [atomic.Int64], is 0 until the job is
    started.  [watching] is not a field of the struct: it tells whether the
    goroutine of [start] that waits for the stop signal is running. *)
Record ScheduledJob := {
  schedule : Schedule;
  f : time.Time -> option error;
  runtimes : list JobRuntime;
  stopCh : nat;
  Failures : Z;
  ConsecutiveFailures : Z;
  Runs : Z;
  Running : Z;
  state : Z;
  previouslyStarted : bool;
  options : ScheduledJobOptions;
  watching : bool
}.

(** [atomic.Int64.Add]: 64-bit addition, wrapping around. *)
Definition add64 (x delta : Z) : Z :=
  (x + delta + 2 ^ 63) mod 2 ^ 64 - 2 ^ 63.

Definition NewScheduledJob (schedule : Schedule) (opts : ScheduledJobOptions)
    (f : time.Time -> option error) : ScheduledJob :=
  {| schedule := schedule; f := f; runtimes := []; stopCh := 0%nat;
     Failures := 0; ConsecutiveFailures := 0; Runs := 0; Running := 0;
     state := 0; previouslyStarted := false; options := opts;
     watching := false |}.

Definition setState (j : ScheduledJob) (st : Z) : ScheduledJob :=
  {| schedule := schedule j; f := f j; runtimes := runtimes j;
     stopCh := stopCh j; Failures := Failures j;
     ConsecutiveFailures := ConsecutiveFailures j; Runs := Runs j;
     Running := Running j; state := st;
     previouslyStarted := previouslyStarted j; options := options j;
     watching := watching j |}.

Definition setStopCh (j : ScheduledJob) (n : nat) : ScheduledJob :=
  {| schedule := schedule j; f := f j; runtimes := runtimes j;
     stopCh := n; Failures := Failures j;
     ConsecutiveFailures := ConsecutiveFailures j; Runs := Runs j;
     Running := Running j; state := state j;
     previouslyStarted := previouslyStarted j; options := options j;
     watching := watching j |}.

(** The part of [start] that runs before its goroutines: the state is
    stored, the one-shot flag is set, and the goroutine that waits for the
    stop signal is launched. *)
Definition start (j : ScheduledJob) : ScheduledJob :=
  {| schedule := schedule j; f := f j; runtimes := runtimes j;
     stopCh := stopCh j; Failures := Failures j;
     ConsecutiveFailures := ConsecutiveFailures j; Runs := Runs j;
     Running := Running j; state := ScheduleStarted;
     previouslyStarted := true; options := options j;
     watching := true |}.

(** [ScheduleFunc]: the job, with [start] under way. *)
Definition ScheduleFunc (schedule : Schedule) (opts : ScheduledJobOptions)
    (f : time.Time -> option error) : ScheduledJob :=
  start (NewScheduledJob schedule opts f).

(** [Start]: the error it returns at once, or the job with [start] under
    way ([start] itself returns [nil] when the job has ended). *)
Definition Start (j : ScheduledJob) : error + ScheduledJob :=
  if state j =? ScheduleStopped then
    inl (errorsNew "cannot start a job that has been stopped")
  else if previouslyStarted j then
    inl (errorsNew "job has already been started")
  else inr (start j).

(** [atomic.Int64.CompareAndSwap]. *)
Definition CompareAndSwap (j : ScheduledJob) (old new : Z)
  : bool * ScheduledJob :=
  if state j =? old then (true, setState j new) else (false, j).

Definition Suspend (j : ScheduledJob) : bool * ScheduledJob :=
  CompareAndSwap j ScheduleStarted ScheduleSuspended.

Definition Resume (j : ScheduledJob) : bool * ScheduledJob :=
  CompareAndSwap j ScheduleSuspended ScheduleStarted.

Definition State (j : ScheduledJob) : Z := state j.

(** [Stop].  Its [select] has two cases and no default: the context is
    done ([ctxDone]), or the signal can be put in the channel.  When both
    are ready either may be taken ([preferSend]); when neither is, the
    call blocks ([None]). *)
Definition Stop (ctxDone preferSend : bool) (j : ScheduledJob)
  : option (bool * ScheduledJob) :=
  let canSend := (stopCh j <? 1)%nat in
  let afterSelect :=
    if canSend && (preferSend || negb ctxDone)
    then Some (setStopCh j (S (stopCh j)))
    else if ctxDone then Some j
    else None in
  match afterSelect with
  | None => None
  | Some j =>
      let old := state j in
      let j := setState j ScheduleStopped in
      if old =? ScheduleStopped then Some (false, j) else Some (true, j)
  end.

(** [select { case s.stopCh <- struct{}{}: default: }]. *)
Definition trySend (n : nat) : nat := if (n <? 1)%nat then S n else n.

(** [execute], with [now] the clock read at the end of the run. *)
Definition execute (rt now : time.Time) (j : ScheduledJob) : ScheduledJob :=
  let runs := add64 (Runs j) 1 in
  let running := add64 (Running j) 1 in
  let err := f j rt in
  let '(failures, consecutive, stopCh) :=
    match err with
    | None => (Failures j, 0, stopCh j)
    | Some _ =>
        let failures := add64 (Failures j) 1 in
        let consecutiveFailures := add64 (ConsecutiveFailures j) 1 in
        if (MaxFailures (options j) >? 0)
           && (failures >=? MaxFailures (options j)) then
          (failures, consecutiveFailures, trySend (stopCh j))
        else if (MaxConsecutiveFailures (options j) >? 0)
                && (consecutiveFailures >=? MaxConsecutiveFailures (options j))
        then (failures, consecutiveFailures, trySend (stopCh j))
        else (failures, consecutiveFailures, stopCh j)
    end in
  {| schedule := schedule j; f := f j;
     runtimes := runtimes j ++ [{| rtStart := rt; rtEnd := now; rtError := err |}];
     stopCh := stopCh; Failures := failures;
     ConsecutiveFailures := consecutive; Runs := runs;
     Running := add64 running (-1); state := state j;
     previouslyStarted := previouslyStarted j; options := options j;
     watching := watching j |}.

(** The goroutine of [start] that waits for the stop signal: when one is
    in the channel it takes it, cancels the context and, returning, stores
    [ScheduleStopped]. *)
Definition watchStop (j : ScheduledJob) : option ScheduledJob :=
  if watching j && (0 <? stopCh j)%nat then
    Some {| schedule := schedule j; f := f j; runtimes := runtimes j;
            stopCh := pred (stopCh j); Failures := Failures j;
            ConsecutiveFailures := ConsecutiveFailures j; Runs := Runs j;
            Running := Running j; state := ScheduleStopped;
            previouslyStarted := previouslyStarted j; options := options j;
            watching := false |}
  else None.

(** One tick of the dispatch loop of [start]: a tick that arrives while
    the job is suspended is skipped, any other is handed to [execute]. *)
Definition dispatch (rt now : time.Time) (j : ScheduledJob) : ScheduledJob :=
  if state j =? ScheduleSuspended then j else execute rt now j.

(** The ticks dispatched one after the other; each comes with the clock
    at the end of its run. *)
Fixpoint dispatchAll (ticks : list (time.Time * time.Time))
    (j : ScheduledJob) : ScheduledJob :=
  match ticks with
  | [] => j
  | (rt, now) :: rest => dispatchAll rest (dispatch rt now j)
  end.

(* --------------------------------------------------------------------- *)
(** ** schedule.go: UntilNext; ticker.go: timesEqualToMinute             *)
(* --------------------------------------------------------------------- *)

(** [t.Sub(u)]: the difference in nanoseconds, or the largest or smallest
    [Duration] when it does not fit one. *)
Definition Time_Sub (t u : time.Time) : time.Duration :=
  let d := time.unixNano t - time.unixNano u in
  if d <? strconv.minInt then strconv.minInt
  else if d >? strconv.maxInt then strconv.maxInt
  else d.

(** [UntilNext]: [s.Next(t).Sub(t)]. *)
Definition UntilNext (fuel : nat) (s : Schedule) (t : time.Time)
  : option time.Duration :=
  match Next fuel s t with
  | Some r => Some (Time_Sub r t)
  | None => None
  end.

(** [t.Equal(u)] as the boolean it returns. *)
Definition Time_Equal (t u : time.Time) : bool :=
  time.unixNano t =? time.unixNano u.

Definition timesEqualToMinute (t1 t2 : time.Time) : bool :=
  Time_Equal (Time.Truncate t1 time.Minute) (Time.Truncate t2 time.Minute).

(* --------------------------------------------------------------------- *)
(** ** schedule.go: the random expressions                               *)
(* --------------------------------------------------------------------- *)

(** The decimal digits of [n], written in front of [acc]: the loop of
    [strconv.Itoa], which a 64-bit value leaves after at most 20 digits. *)
Fixpoint utoa (fuel : nat) (n : Z) (acc : string) : string :=
  match fuel with
  | O => acc
  | S fuel' =>
      let acc := String (ascii_of_nat (48 + Z.to_nat (n mod 10))) acc in
      if n <? 10 then acc else utoa fuel' (n / 10) acc
  end.

(** [strconv.Itoa], which is also what the verb [%d] of [fmt.Sprintf]
    prints. *)
Definition Itoa (n : Z) : string :=
  if n <? 0 then String "-" (utoa 20 (- n) "") else utoa 20 n "".

(** [macros]. *)
Definition macros : list string :=
  [Yearly; Annually; Monthly; Weekly; Daily; Midnight; Hourly].

(** A source of random numbers is the list of the numbers it is going to
    give.  The generators use two sources, the argument [r] and the global
    one of [math/rand]; the list holds the numbers of both in the order of
    the calls. *)
Definition Rand := list Z.

(** What a generator does: it returns a value and leaves the rest of the
    numbers, or panics ([Intn] of a number that is not positive, an index
    out of range), or - in the model only - asks for more numbers than the
    list holds. *)
Inductive drawn (A : Type) : Type :=
| Drawn (a : A) (r : Rand)
| RandPanic
| NoDraws.

Arguments Drawn {A} a r.
Arguments RandPanic {A}.
Arguments NoDraws {A}.

Definition gen (A : Type) : Type := Rand -> drawn A.

Definition ret {A : Type} (a : A) : gen A := fun r => Drawn a r.

Definition bind {A B : Type} (m : gen A) (k : A -> gen B) : gen B :=
  fun r =>
    match m r with
    | Drawn a r' => k a r'
    | RandPanic => RandPanic
    | NoDraws => NoDraws
    end.

Notation "x <- m ;; k" := (bind m (fun x => k))
  (at level 61, m at next level, right associativity).

(** [r.Intn(n)]: a number in [[0, n)]; it panics when [n <= 0]. *)
Definition Intn (n : Z) : gen Z :=
  fun r =>
    if n <=? 0 then RandPanic
    else
      match r with
      | [] => NoDraws
      | x :: r' => Drawn (x mod n) r'
      end.

(** [l[i]]. *)
Definition index {A : Type} (l : list A) (i : Z) : gen A :=
  fun r =>
    if i <? 0 then RandPanic
    else
      match nth_error l (Z.to_nat i) with
      | Some a => Drawn a r
      | None => RandPanic
      end.

Definition randomStep (f : field) : gen string :=
  e <- Intn (Max f - 2) ;;
  let endVal := e + 2 in
  s <- Intn (endVal - 1) ;;
  let startVal := s + Min f in
  p <- Intn (endVal - startVal) ;;
  let step := p + 1 in
  ret (Itoa startVal ++ "-" ++ Itoa endVal ++ "/" ++ Itoa step)%string.

Definition randomAllowed (f : field) : gen Z :=
  i <- Intn (Z.of_nat (List.length (Allowed f))) ;;
  index (Allowed f) i.

(** The range that [random] and [randomNoList] build: a start among the
    allowed values but the last, an end among those that follow it. *)
Definition randomRange (f : field) : gen string :=
  startInd <- Intn (Z.of_nat (List.length (Allowed f)) - 1) ;;
  start <- index (Allowed f) startInd ;;
  let tail := skipn (Z.to_nat (startInd + 1)) (Allowed f) in
  e <- Intn (Z.of_nat (List.length tail)) ;;
  end_ <- index tail e ;;
  ret (Itoa start ++ str Range ++ Itoa end_)%string.

(** [randomNoList]: of the ten entries of [special], six stand for a
    single value, three for a range and the last for a step. *)
Definition randomNoList (f : field) : gen string :=
  i <- Intn 10 ;;
  if (6 <=? i) && (i <=? 8) then randomRange f
  else if i =? 9 then randomStep f
  else
    v <- randomAllowed f ;;
    ret (Itoa v).

(** The loop of [random] that collects [subct] list entries, no two the
    same; [entriesSeen] is the set of the entries taken. *)
Fixpoint randomEntries (fuel : nat) (f : field) (subct : Z)
    (vals entriesSeen : list string) : gen (list string) :=
  match fuel with
  | O => fun _ => NoDraws
  | S fuel' =>
      if Z.of_nat (List.length vals) <? subct then
        v <- randomNoList f ;;
        if existsb (String.eqb v) entriesSeen
        then randomEntries fuel' f subct vals entriesSeen
        else randomEntries fuel' f subct (vals ++ [v]) (v :: entriesSeen)
      else ret vals
  end.

(** [field.random]; the error it returns is always [nil].  The entries of
    [special] are a line feed, which stands for a single value, [Any],
    [ListSeparator], [Range] and [Step]. *)
Definition random (f : field) : gen (string * option error) :=
  isAny <- Intn 10 ;;
  if ((Index f =? minuteInd) && (isAny =? 9))
     || ((Index f =? hourInd) && (isAny >? 6))
     || ((Index f =? dayInd) && (isAny >? 6))
     || ((Index f =? monthInd) && (isAny >? 4))
     || ((Index f =? weekdayInd) && (isAny >? 1))
  then ret (str Any, None)
  else
    i <- Intn 5 ;;
    if i =? 1 then ret (str Any, None)
    else if i =? 3 then
      v <- randomRange f ;; ret (v, None)
    else if i =? 4 then
      v <- randomStep f ;; ret (v, None)
    else if i =? 2 then
      n <- Intn 5 ;;
      let subct := if n + 1 <? 2 then 2 else n + 1 in
      fun r =>
        (vals <- randomEntries (S (List.length r)) f subct [] [] ;;
         ret (strings.Join vals (str ListSeparator), None)) r
    else
      v <- randomAllowed f ;; ret (Itoa v, None).

(** [NewRandom], for a source that is not [nil] (for [nil] it makes a
    source of its own). *)
Definition NewRandom : gen (string * option error) :=
  m <- Intn 100 ;;
  if m =? 1 then
    i <- Intn (Z.of_nat (List.length macros)) ;;
    macro <- index macros i ;;
    ret (macro, None)
  else
    minute <- random minuteOpts ;;
    hour <- random hourOpts ;;
    day <- random dayOpts ;;
    month <- random monthOpts ;;
    weekday <- random weekdayOpts ;;
    let cronFields := [fst minute; fst hour; fst day; fst month; fst weekday] in
    let errs := [snd minute; snd hour; snd day; snd month; snd weekday] in
    ret (strings.Join cronFields " ", errorsJoin errs).

(* --------------------------------------------------------------------- *)
(** ** Notions used to state the properties                              *)
(* --------------------------------------------------------------------- *)

(** Strictly ascending: every element is below all that follow it. *)
Fixpoint ascending (l : list Z) : Prop :=
  match l with
  | [] => True
  | x :: rest => Forall (fun y => x < y) rest /\ ascending rest
  end.

(** Within the bounds of the field. *)
Definition within (f : field) (v : Z) : Prop := Min f <= v <= Max f.

(** The five fields, in the order of the cron expression. *)
Definition fields : list field :=
  [minuteOpts; hourOpts; dayOpts; monthOpts; weekdayOpts].

(** A field text that [validate] takes as "any value" without parsing it:
    [*] everywhere, [?] for day, month and weekday. *)
Definition isWildcard (f : field) (text : string) : bool :=
  String.eqb text (str Any)
  || (String.eqb text (str Blank)
      && negb (Index f =? minuteInd) && negb (Index f =? hourInd)).

(** The error of one field of a cron expression. *)
Definition fieldCheck (f : field) (text : string) : option error :=
  if isWildcard f text then None else snd (parse f text).

(** The expression [New] splits: trimmed, a macro replaced. *)
Definition resolved (cron : string) : string :=
  let cron := strings.TrimSpace cron in
  match cronShortcut cron with
  | Some cs => cs
  | None => cron
  end.

(** The schedule [New] returns for [cron] in UTC. *)
Definition mustNew (cron : string) (l : option time.Location) : Schedule :=
  match fst (New cron l) with
  | Some s => s
  | None => {| values := []; loc := time.UTC;
               minutes := None; allowAnyMinute := false;
               hours := None; allowAnyHour := false;
               days := None; allowAnyDay := false;
               months := None; allowAnyMonth := false;
               weekdays := None; allowAnyWeekday := false |}
  end.

(** Central European time around the start of summer time in 2024: one
    hour east of UTC until 2024-03-31T01:00:00Z, two hours from then on. *)
Definition berlin : time.Location :=
  {| time.zone := 3600; time.tx := [(1711846800, 7200)] |}.

(** A callback that always fails, and options that stop a job at the third
    failure in a row. *)
Definition failing (t : time.Time) : option error :=
  Some (errorsNew "job failed").

Definition threeStrikes : ScheduledJobOptions :=
  {| MaxConcurrent := 3; TickerReceiveTimeout := 5 * time.Second;
     MaxFailures := 0; MaxConsecutiveFailures := 3 |}.

(* --------------------------------------------------------------------- *)
(** ** Notions used in the proofs                                        *)
(* --------------------------------------------------------------------- *)

(** The number of characters of the items of a [Split]. *)
Fixpoint totalLength (items : list string) : nat :=
  match items with
  | [] => O
  | item :: rest => (String.length item + totalLength rest)%nat
  end.

(** The schedule [New] validates. *)
Definition blankSchedule (vs : list string) (l : time.Location) : Schedule :=
  {| values := vs; loc := l;
     minutes := None; allowAnyMinute := false;
     hours := None; allowAnyHour := false;
     days := None; allowAnyDay := false;
     months := None; allowAnyMonth := false;
     weekdays := None; allowAnyWeekday := false |}.

(** The location [New] gives the schedule: UTC for [nil]. *)
Definition locOr (l : option time.Location) : time.Location :=
  match l with
  | None => time.UTC
  | Some l => l
  end.

(** [p] holds of the [n] integers from [z] on. *)
Fixpoint allFrom (n : nat) (z : Z) (p : Z -> bool) : bool :=
  match n with
  | O => true
  | S n' => if p z then allFrom n' (z + 1) p else false
  end.

(** The date of day [z] is a date of the calendar, in the year that ends
    after [z]. *)
Definition civilOk (z : Z) : bool :=
  let '(y, m, d) := time.civil z in
  (1 <=? m) && (m <=? 12) && (1 <=? d) && (d <=? time.daysIn m y)
  && (z <? time.dateToDays (y + 1) 1 1).

(** The first of month [m] of year [y] is given its date, and the day
    before the first of the next month is day [daysIn m y]. *)
Definition monthOk (y m : Z) : bool :=
  let '(y1, m1, d1) := time.civil (time.dateToDays y m 1) in
  let '(y', m') := time.norm y m 12 in
  let '(y2, m2, d2) := time.civil (time.dateToDays y' (m' + 1) 1 - 1) in
  (y1 =? y) && (m1 =? m) && (d1 =? 1) && (d2 =? time.daysIn m y).

(** The same of the twelve months of year [y]. *)
Definition yearOk (y : Z) : bool := allFrom 12 1 (monthOk y).

(** [t] moved [k] minutes forward. *)
Definition minutesAfter (t : time.Time) (k : nat) : time.Time :=
  Time.Add t (Z.of_nat k * time.Minute).

(** [t] moved [k] minutes backward. *)
Definition minutesBefore (t : time.Time) (k : nat) : time.Time :=
  Time.Add t (- (Z.of_nat k * time.Minute)).

(** No match in the [n] minutes after [t]; the field that is cheapest to
    compute is looked at first. *)
Fixpoint quietAfter (n : nat) (s : Schedule) (t : time.Time) : bool :=
  match n with
  | O => true
  | S n' =>
      let t := Time.Add t time.Minute in
      if isMinute s t
      then if isHour s t
           then if Matches s t then false else quietAfter n' s t
           else quietAfter n' s t
      else quietAfter n' s t
  end.

(** Sorted, with repetitions allowed. *)
Fixpoint nondecreasing (l : list Z) : Prop :=
  match l with
  | [] => True
  | x :: rest => Forall (fun y => x <= y) rest /\ nondecreasing rest
  end.

(** The text, in upper case, has the letter [L]. *)
Definition hasLast (s : string) : Prop :=
  strings.ContainsRune (strings.ToUpper s) Last = true.

(** What holds of each of the five fields: the allowed values are the
    integers from the minimum to the maximum, and the names stand for
    allowed values. *)
Record wellFormed (f : field) : Prop := {
  wf_allowed : Allowed f = upto (Min f) (Max f);
  wf_bounds : Min f <= Max f;
  wf_conv : forall conv k v,
    Conversions f = Some conv -> lookupConv conv k = Some v -> within f v
}.

(** What [parse] may return for the text [s]: an error and no values; or
    no error and either [nil], for a text with [L], or a slice that holds
    strictly ascending values of the field, followed by as many zeros as
    the items of a list repeated values - none when the text is no list -
    and that is empty only for a text with [L]. *)
Definition parsed (f : field) (s : string) (r : outcome) : Prop :=
  match r with
  | Ret None None => hasLast s
  | Ret (Some l) None =>
      exists u k,
        l = u ++ repeat 0 k /\ ascending u /\ Forall (within f) u
        /\ (u = [] -> hasLast s)
        /\ (strings.ContainsRune s ListSeparator = false -> k = 0%nat)
        /\ (strings.ContainsRune s ListSeparator = false ->
            strings.ContainsRune s Step = false -> u <> [])
  | Ret None (Some _) => True
  | Ret (Some _) (Some _) => False
  | Panic => False
  | NoFuel => False
  end.

(** The same of a text that is no list: the values themselves. *)
Definition parsedItem (f : field) (s : string) (r : outcome) : Prop :=
  match r with
  | Ret None None => hasLast s
  | Ret (Some l) None =>
      ascending l /\ Forall (within f) l /\ (l = [] -> hasLast s)
      /\ (strings.ContainsRune s Step = false -> l <> [])
  | Ret None (Some _) => True
  | Ret (Some _) (Some _) => False
  | Panic => False
  | NoFuel => False
  end.

(** Every character is a decimal digit. *)
Fixpoint numeric (s : string) : bool :=
  match s with
  | EmptyString => true
  | String c s' =>
      match strconv.digit c with
      | Some _ => numeric s'
      | None => false
      end
  end.

(** An upper-case letter. *)
Definition isUpper (c : ascii) : bool :=
  let n := nat_of_ascii c in (65 <=? n)%nat && (n <=? 90)%nat.

(** A lower-case letter. *)
Definition isLower (c : ascii) : bool :=
  let n := nat_of_ascii c in (97 <=? n)%nat && (n <=? 122)%nat.

(** No character is a letter. *)
Fixpoint noLetter (s : string) : bool :=
  match s with
  | EmptyString => true
  | String c s' => negb (isUpper c) && negb (isLower c) && noLetter s'
  end.

(** The names of a table of conversions start with an upper-case
    letter. *)
Definition namesUpper (conv : list (string * Z)) : bool :=
  forallb (fun kv => match fst kv with
                     | EmptyString => false
                     | String c _ => isUpper c
                     end) conv.

(** On a minute boundary, counted from the zero time as [Truncate] counts. *)
Definition aligned (t : time.Time) : Prop :=
  (time.unixNano t + 62135596800 * time.Second) mod time.Minute = 0.

(** The run of a tick fails. *)
Definition failedRun (cb : time.Time -> option error)
    (tick : time.Time * time.Time) : bool :=
  match cb (fst tick) with
  | Some _ => true
  | None => false
  end.

(** The record [execute] keeps of the run of a tick. *)
Definition runtimeOf (cb : time.Time -> option error)
    (tick : time.Time * time.Time) : JobRuntime :=
  {| rtStart := fst tick; rtEnd := snd tick; rtError := cb (fst tick) |}.

(** The number of runs that fail. *)
Definition failedRuns (cb : time.Time -> option error)
    (ticks : list (time.Time * time.Time)) : Z :=
  Z.of_nat (List.length (filter (failedRun cb) ticks)).

(** The characters of the expressions that the random generators write:
    digits and the four special characters. *)
Definition cronChar (c : ascii) : bool :=
  match strconv.digit c with
  | Some _ => true
  | None =>
      Ascii.eqb c Any || Ascii.eqb c ListSeparator || Ascii.eqb c Range
      || Ascii.eqb c Step
  end.

Fixpoint cronText (s : string) : bool :=
  match s with
  | EmptyString => true
  | String c s' => cronChar c && cronText s'
  end.

(** An entry of a list that [parse] takes without error. *)
Definition goodItem (f : field) (text : string) : Prop :=
  cronText text = true /\ text <> ""
  /\ strings.ContainsRune text ListSeparator = false
  /\ exists l, parseRun f text = Ret (Some l) None.

(** The text of a field that [validate] takes without error. *)
Definition goodField (f : field) (text : string) : Prop :=
  cronText text = true /\ text <> "" /\ fieldCheck f text = None.

(** A generator never panics, and what it returns satisfies [P]. *)
Definition yields {A : Type} (m : gen A) (P : A -> Prop) : Prop :=
  forall r,
    match m r with
    | Drawn a _ => P a
    | RandPanic => False
    | NoDraws => True
    end.

(** The last character is no white space. *)
Fixpoint endsClean (s : string) : bool :=
  match s with
  | EmptyString => false
  | String c EmptyString => negb (strings.isSpace c)
  | String _ s' => endsClean s'
  end.

(** The date of day [z], turned back into a number of days, is [z]. *)
Definition civilBack (z : Z) : bool :=
  let '(y, m, d) := time.civil z in time.dateToDays y m d =? z.

(* ===================================================================== *)
(** * Part II: properties                                                 *)
(* ===================================================================== *)

(* --------------------------------------------------------------------- *)
(** ** Strings                                                           *)
(* --------------------------------------------------------------------- *)

Lemma ContainsRune_app a b r :
  strings.ContainsRune (a ++ b)%string r
  = strings.ContainsRune a r || strings.ContainsRune b r.
Proof.
  induction a as [| c a IH]; simpl; [reflexivity |].
  destruct (Ascii.eqb c r); [reflexivity | exact IH].
Qed.

Lemma Join_two_contains_sep e1 e2 rest :
  strings.ContainsRune (strings.Join (e1 :: e2 :: rest) " ") " " = true.
Proof.
  change (strings.Join (e1 :: e2 :: rest) " ")
    with (e1 ++ " " ++ strings.Join (e2 :: rest) " ")%string.
  rewrite !ContainsRune_app. simpl. apply orb_true_r.
Qed.

Lemma length_app_string a b :
  String.length (a ++ b)%string = (String.length a + String.length b)%nat.
Proof. induction a; simpl; congruence. Qed.

Lemma ToUpper_length s : String.length (strings.ToUpper s) = String.length s.
Proof. induction s; simpl; congruence. Qed.

(** [Cut] finds the separator exactly when the text contains it, and then
    splits the text around its first occurrence. *)
Lemma Cut_found s sep :
  snd (strings.Cut s sep) = strings.ContainsRune s sep.
Proof.
  induction s as [| c s IH]; simpl; [reflexivity |].
  destruct (Ascii.eqb c sep); [reflexivity |].
  destruct (strings.Cut s sep) as [[b a] [|]]; simpl in *; auto.
Qed.

Lemma Cut_true s sep b a :
  strings.Cut s sep = (b, a, true) ->
  s = (b ++ String sep a)%string /\ strings.ContainsRune b sep = false.
Proof.
  revert b a. induction s as [| c s IH]; simpl; intros b a H; [discriminate |].
  destruct (Ascii.eqb c sep) eqn:E.
  - apply Ascii.eqb_eq in E. inversion H; subst. split; reflexivity.
  - destruct (strings.Cut s sep) as [[b' a'] [|]]; inversion H; subst.
    destruct (IH b' a eq_refl) as [-> Hb].
    split; [reflexivity |]. simpl. rewrite E. exact Hb.
Qed.

Lemma Cut_shorter s sep b a :
  strings.Cut s sep = (b, a, true) ->
  (String.length b < String.length s)%nat /\ (String.length a < String.length s)%nat.
Proof.
  intros H. apply Cut_true in H. destruct H as [-> _].
  rewrite length_app_string. simpl. lia.
Qed.

Lemma Split_nonempty s sep : strings.Split s sep <> [].
Proof.
  destruct s as [| c s]; simpl; [discriminate |].
  destruct (Ascii.eqb c sep); [discriminate |].
  destruct (strings.Split s sep); discriminate.
Qed.

(** The characters of the items of [Split], and one for each separator,
    make up the text. *)
Lemma Split_total s sep :
  (totalLength (strings.Split s sep) + List.length (strings.Split s sep)
   = String.length s + 1)%nat.
Proof.
  induction s as [| c s IH]; simpl; [reflexivity |].
  destruct (Ascii.eqb c sep); simpl; [lia |].
  destruct (strings.Split s sep) as [| item items] eqn:E.
  - exfalso. exact (Split_nonempty s sep E).
  - simpl in *. lia.
Qed.

Lemma Split_two s sep :
  strings.ContainsRune s sep = true ->
  (2 <= List.length (strings.Split s sep))%nat.
Proof.
  induction s as [| c s IH]; simpl; [discriminate |].
  destruct (Ascii.eqb c sep); intros H.
  - simpl. pose proof (Split_nonempty s sep).
    destruct (strings.Split s sep); [contradiction | simpl; lia].
  - specialize (IH H).
    destruct (strings.Split s sep); simpl in *; lia.
Qed.

Lemma totalLength_In item items :
  In item items -> (String.length item <= totalLength items)%nat.
Proof.
  induction items as [| x items IH]; simpl; [contradiction |].
  intros [-> | H]; [lia | specialize (IH H); lia].
Qed.

Lemma Split_shorter s sep item :
  strings.ContainsRune s sep = true ->
  In item (strings.Split s sep) ->
  (String.length item < String.length s)%nat.
Proof.
  intros Hc Hin.
  pose proof (Split_total s sep). pose proof (Split_two s sep Hc).
  pose proof (totalLength_In _ _ Hin). lia.
Qed.

Lemma Split_items_clean s sep item :
  In item (strings.Split s sep) -> strings.ContainsRune item sep = false.
Proof.
  revert item. induction s as [| c s IH]; simpl; intros item Hin.
  - destruct Hin as [<- | []]. reflexivity.
  - destruct (Ascii.eqb c sep) eqn:E.
    + destruct Hin as [<- | Hin]; [reflexivity | auto].
    + destruct (strings.Split s sep) as [| x items] eqn:Es.
      * exfalso. exact (Split_nonempty s sep Es).
      * destruct Hin as [<- | Hin].
        -- simpl. rewrite E. apply IH. left. reflexivity.
        -- apply IH. right. exact Hin.
Qed.

(** A rune of an item of [Split] is a rune of the text. *)
Lemma Split_items_sub s sep item r :
  In item (strings.Split s sep) ->
  strings.ContainsRune item r = true -> strings.ContainsRune s r = true.
Proof.
  revert item. induction s as [| c s IH]; simpl; intros item Hin Hr.
  - destruct Hin as [<- | []]. discriminate.
  - destruct (Ascii.eqb c r) eqn:Er; [reflexivity |].
    destruct (Ascii.eqb c sep) eqn:E.
    + destruct Hin as [<- | Hin]; [discriminate | eauto].
    + destruct (strings.Split s sep) as [| x items] eqn:Es.
      * exfalso. exact (Split_nonempty s sep Es).
      * destruct Hin as [<- | Hin].
        -- simpl in Hr. rewrite Er in Hr. apply (IH x); [left; reflexivity | exact Hr].
        -- apply (IH item); [right; exact Hin | exact Hr].
Qed.

(* --------------------------------------------------------------------- *)
(** ** Lists of values: ranges, steps, sorting and compacting            *)
(* --------------------------------------------------------------------- *)

Lemma ascending_nondecreasing l : ascending l -> nondecreasing l.
Proof.
  induction l as [| x l IH]; simpl; [trivial |].
  intros [H1 H2]. split; [| auto].
  eapply Forall_impl; [| exact H1]. simpl. intros. lia.
Qed.

Lemma uptoFrom_spec lo n :
  ascending (map (fun k => lo + Z.of_nat k) (seq 0 n))
  /\ Forall (fun v => lo <= v < lo + Z.of_nat n)
       (map (fun k => lo + Z.of_nat k) (seq 0 n)).
Proof.
  assert (G : forall a,
    ascending (map (fun k => lo + Z.of_nat k) (seq a n))
    /\ Forall (fun v => lo + Z.of_nat a <= v < lo + Z.of_nat a + Z.of_nat n)
         (map (fun k => lo + Z.of_nat k) (seq a n))).
  { induction n as [| n IH]; intros a; simpl; [split; constructor |].
    destruct (IH (S a)) as [IH1 IH2]. split; [split |].
    - eapply Forall_impl; [| exact IH2]. simpl. intros. lia.
    - exact IH1.
    - constructor; [lia |].
      eapply Forall_impl; [| exact IH2]. simpl. intros. lia. }
  destruct (G 0%nat) as [G1 G2]. split; [exact G1 |].
  eapply Forall_impl; [| exact G2]. simpl. intros. lia.
Qed.

Lemma upto_ascending lo hi : ascending (upto lo hi).
Proof. apply uptoFrom_spec. Qed.

Lemma upto_bounds lo hi : Forall (fun v => lo <= v <= hi) (upto lo hi).
Proof.
  unfold upto. eapply Forall_impl; [| apply uptoFrom_spec].
  simpl. intros v H. lia.
Qed.

Lemma upto_nonempty lo hi : lo <= hi -> upto lo hi <> [].
Proof.
  intros H. unfold upto.
  destruct (Z.to_nat (hi - lo + 1)) eqn:E; [lia | discriminate].
Qed.

Lemma ascending_filter p l : ascending l -> ascending (filter p l).
Proof.
  induction l as [| x l IH]; simpl; [trivial |].
  intros [H1 H2]. destruct (p x); simpl; [split |]; auto.
  apply Forall_forall. intros y Hy. apply filter_In in Hy.
  rewrite Forall_forall in H1. apply H1. tauto.
Qed.

Lemma Forall_filter {A} (P : A -> Prop) p l : Forall P l -> Forall P (filter p l).
Proof.
  intros H. apply Forall_forall. intros y Hy. apply filter_In in Hy.
  rewrite Forall_forall in H. apply H. tauto.
Qed.

Lemma stepValuesFrom_In values step i v :
  In v (stepValuesFrom values step i) -> In v values.
Proof.
  revert i. induction values as [| x values IH]; simpl; intros i H; [exact H |].
  destruct (Z.rem i step =? 0); [destruct H as [-> | H] |]; eauto.
Qed.

Lemma stepValuesFrom_ascending values step i :
  ascending values -> ascending (stepValuesFrom values step i).
Proof.
  revert i. induction values as [| x values IH]; simpl; intros i; [trivial |].
  intros [H1 H2]. destruct (Z.rem i step =? 0); simpl; [split |]; auto.
  apply Forall_forall. intros y Hy. apply stepValuesFrom_In in Hy.
  rewrite Forall_forall in H1. auto.
Qed.

Lemma stepValues_Forall (P : Z -> Prop) values step :
  Forall P values -> Forall P (stepValues values step).
Proof.
  intros H. apply Forall_forall. intros y Hy. apply stepValuesFrom_In in Hy.
  rewrite Forall_forall in H. auto.
Qed.

Lemma stepValues_head x values step :
  exists rest, stepValues (x :: values) step = x :: rest.
Proof.
  unfold stepValues. cbn [stepValuesFrom].
  change (Z.rem 0 step =? 0) with true. cbv iota. eauto.
Qed.

Lemma insert_In x l y : In y (slices.insert x l) <-> y = x \/ In y l.
Proof.
  induction l as [| z l IH]; simpl; [intuition |].
  destruct (x <=? z); simpl; [intuition |]. rewrite IH. intuition.
Qed.

Lemma Sort_In l y : In y (slices.Sort l) <-> In y l.
Proof.
  induction l as [| x l IH]; simpl; [tauto |].
  rewrite insert_In, IH. intuition.
Qed.

Lemma insert_length x l :
  List.length (slices.insert x l) = S (List.length l).
Proof.
  induction l as [| z l IH]; simpl; [reflexivity |].
  destruct (x <=? z); simpl; congruence.
Qed.

Lemma Sort_length l : List.length (slices.Sort l) = List.length l.
Proof.
  induction l as [| x l IH]; simpl; [reflexivity |].
  rewrite insert_length. congruence.
Qed.

Lemma insert_nondecreasing x l :
  nondecreasing l -> nondecreasing (slices.insert x l).
Proof.
  induction l as [| z l IH]; simpl; [intros _; split; [constructor | trivial] |].
  intros [H1 H2]. destruct (x <=? z) eqn:E.
  - apply Z.leb_le in E. simpl. split; [| split; assumption].
    constructor; [exact E |].
    eapply Forall_impl; [| exact H1]. simpl. intros. lia.
  - apply Z.leb_gt in E. simpl. split; [| auto].
    apply Forall_forall. intros y Hy. apply insert_In in Hy.
    destruct Hy as [-> | Hy]; [lia |].
    rewrite Forall_forall in H1. auto.
Qed.

Lemma Sort_nondecreasing l : nondecreasing (slices.Sort l).
Proof.
  induction l as [| x l IH]; simpl; [trivial |].
  apply insert_nondecreasing. exact IH.
Qed.

Lemma insert_below x l :
  Forall (fun y => x <= y) l -> slices.insert x l = x :: l.
Proof.
  destruct l as [| z l]; simpl; [reflexivity |].
  intros H. apply Forall_inv in H. apply Z.leb_le in H. rewrite H. reflexivity.
Qed.

Lemma Sort_sorted l : nondecreasing l -> slices.Sort l = l.
Proof.
  induction l as [| x l IH]; simpl; [reflexivity |].
  intros [H1 H2]. rewrite IH by exact H2. apply insert_below. exact H1.
Qed.

Lemma Compact_cons x z l :
  slices.Compact (x :: z :: l) =
  if x =? z then slices.Compact (z :: l) else x :: slices.Compact (z :: l).
Proof. reflexivity. Qed.

Lemma Compact_In l y : In y (slices.Compact l) <-> In y l.
Proof.
  induction l as [| x l IH]; [simpl; tauto |].
  destruct l as [| z l]; [simpl; tauto |].
  rewrite Compact_cons. destruct (x =? z) eqn:E.
  - apply Z.eqb_eq in E. subst z. rewrite IH. simpl. intuition.
  - change (In y (x :: slices.Compact (z :: l)))
      with (x = y \/ In y (slices.Compact (z :: l))).
    rewrite IH. simpl. intuition.
Qed.

Lemma Compact_ascending l : nondecreasing l -> ascending (slices.Compact l).
Proof.
  induction l as [| x l IH]; [simpl; trivial |].
  destruct l as [| z l]; [simpl; intros _; split; [constructor | trivial] |].
  intros H. destruct H as [H1 H2]. rewrite Compact_cons.
  destruct (x =? z) eqn:E; [apply IH; exact H2 |].
  apply Z.eqb_neq in E.
  change (Forall (fun y => x < y) (slices.Compact (z :: l))
          /\ ascending (slices.Compact (z :: l))).
  split; [| apply IH; exact H2].
  apply Forall_forall. intros y Hy. rewrite Compact_In in Hy.
  destruct H2 as [H2 _]. rewrite Forall_forall in H1, H2.
  assert (x <= z) by (apply H1; left; reflexivity).
  destruct Hy as [Hy | Hy]; [lia |].
  assert (z <= y) by (apply H2; exact Hy). lia.
Qed.

Lemma Compact_fixed l : ascending l -> slices.Compact l = l.
Proof.
  induction l as [| x l IH]; [reflexivity |].
  destruct l as [| z l]; [reflexivity |].
  intros H. destruct H as [H1 H2]. rewrite Compact_cons.
  apply Forall_inv in H1.
  assert (E : (x =? z) = false) by (apply Z.eqb_neq; lia).
  rewrite E, IH by exact H2. reflexivity.
Qed.

Lemma Compact_length l : (List.length (slices.Compact l) <= List.length l)%nat.
Proof.
  induction l as [| x l IH]; [simpl; lia |].
  destruct l as [| z l]; [simpl; lia |].
  rewrite Compact_cons.
  destruct (x =? z); cbn [List.length] in *; lia.
Qed.

(** What the deferred function leaves in a returned slice: the distinct
    values in ascending order, then zeros up to the old length; a slice
    that was ascending is left as it was. *)
Lemma deferred_values values :
  exists u k,
    slices.CompactInPlace (slices.Sort values) = u ++ repeat 0 k
    /\ ascending u
    /\ (forall v, In v u <-> In v values)
    /\ (List.length u + k = List.length values)%nat.
Proof.
  exists (slices.Compact (slices.Sort values)).
  exists (List.length (slices.Sort values)
          - List.length (slices.Compact (slices.Sort values)))%nat.
  split; [reflexivity |]. split; [apply Compact_ascending, Sort_nondecreasing |].
  split; [intros v; rewrite Compact_In, Sort_In; tauto |].
  pose proof (Compact_length (slices.Sort values)).
  rewrite <- (Sort_length values). lia.
Qed.

Lemma deferred_ascending values :
  ascending values -> slices.CompactInPlace (slices.Sort values) = values.
Proof.
  intros H. unfold slices.CompactInPlace.
  rewrite Sort_sorted by (apply ascending_nondecreasing; exact H).
  rewrite Compact_fixed by exact H.
  rewrite Nat.sub_diag. simpl. apply app_nil_r.
Qed.

(* --------------------------------------------------------------------- *)
(** ** What parse returns                                                *)
(* --------------------------------------------------------------------- *)

Lemma parsed_item f s r :
  strings.ContainsRune s ListSeparator = false ->
  parsed f s r -> parsedItem f s r.
Proof.
  intros Hc. destruct r as [[l |] [e |] | |]; simpl; auto.
  intros (u & k & -> & Ha & Hw & HL & Hk & Hne).
  rewrite (Hk Hc). simpl. rewrite app_nil_r. auto.
Qed.

Lemma item_parsed f s l :
  ascending l -> Forall (within f) l -> (l = [] -> hasLast s) ->
  (strings.ContainsRune s ListSeparator = false ->
   strings.ContainsRune s Step = false -> l <> []) ->
  parsed f s (deferred (Ret (Some l) None)).
Proof.
  intros Ha Hw HL Hne. simpl. rewrite deferred_ascending by exact Ha.
  exists l, 0%nat. simpl. rewrite app_nil_r. repeat split; auto.
Qed.

Lemma upper_comma c : Ascii.eqb (strings.upper c) "," = Ascii.eqb c ",".
Proof. destruct c as [[] [] [] [] [] [] [] []]; reflexivity. Qed.

Lemma upper_slash c : Ascii.eqb (strings.upper c) "/" = Ascii.eqb c "/".
Proof. destruct c as [[] [] [] [] [] [] [] []]; reflexivity. Qed.

Lemma upper_upper c : strings.upper (strings.upper c) = strings.upper c.
Proof. destruct c as [[] [] [] [] [] [] [] []]; reflexivity. Qed.

Lemma ToUpper_contains s r :
  (forall c, Ascii.eqb (strings.upper c) r = Ascii.eqb c r) ->
  strings.ContainsRune (strings.ToUpper s) r = strings.ContainsRune s r.
Proof.
  intros H. induction s as [| c s IH]; simpl; [reflexivity |].
  rewrite H, IH. reflexivity.
Qed.

Lemma ToUpper_idem s : strings.ToUpper (strings.ToUpper s) = strings.ToUpper s.
Proof.
  induction s as [| c s IH]; simpl; [reflexivity |].
  rewrite upper_upper, IH. reflexivity.
Qed.

Lemma ToUpper_app a b :
  strings.ToUpper (a ++ b)%string
  = (strings.ToUpper a ++ strings.ToUpper b)%string.
Proof. induction a as [| c a IH]; simpl; [reflexivity |]. rewrite IH. reflexivity. Qed.

Lemma hasLast_upper s : hasLast (strings.ToUpper s) <-> hasLast s.
Proof. unfold hasLast. rewrite ToUpper_idem. tauto. Qed.

Lemma hasLast_app a b : hasLast a \/ hasLast b -> hasLast (a ++ b)%string.
Proof.
  unfold hasLast. rewrite ToUpper_app, ContainsRune_app.
  intros [-> | ->]; [reflexivity | apply orb_true_r].
Qed.

Lemma hasLast_Cut s sep b a :
  strings.Cut s sep = (b, a, true) -> hasLast b \/ hasLast a -> hasLast s.
Proof.
  intros H HL. apply Cut_true in H. destruct H as [-> _].
  apply hasLast_app. destruct HL as [HL | HL]; [left; exact HL | right].
  unfold hasLast in *. simpl. rewrite HL.
  destruct (Ascii.eqb (strings.upper sep) Last); reflexivity.
Qed.

Lemma hasLast_Split s sep item :
  In item (strings.Split s sep) -> hasLast item -> hasLast s.
Proof.
  unfold hasLast.
  revert item. induction s as [| c s IH]; simpl; intros item Hin Hr.
  - destruct Hin as [<- | []]. discriminate.
  - destruct (Ascii.eqb (strings.upper c) Last) eqn:Er; [reflexivity |].
    destruct (Ascii.eqb c sep) eqn:E.
    + destruct Hin as [<- | Hin]; [discriminate | eauto].
    + destruct (strings.Split s sep) as [| x items] eqn:Es.
      * exfalso. exact (Split_nonempty s sep Es).
      * destruct Hin as [<- | Hin].
        -- simpl in Hr. rewrite Er in Hr. apply (IH x); [left; reflexivity | exact Hr].
        -- apply (IH item); [right; exact Hin | exact Hr].
Qed.

(** A piece cut off a text has no rune that the text has not. *)
Lemma Cut_clean s sep b a r :
  strings.Cut s sep = (b, a, true) -> strings.ContainsRune s r = false ->
  strings.ContainsRune b r = false /\ strings.ContainsRune a r = false.
Proof.
  intros H Hr. apply Cut_true in H. destruct H as [-> _].
  rewrite ContainsRune_app in Hr. apply orb_false_iff in Hr.
  destruct Hr as [Hb Ha]. split; [exact Hb |].
  simpl in Ha. destruct (Ascii.eqb sep r); [discriminate | exact Ha].
Qed.

Section ParserFacts.

Variable f : field.
Hypothesis Hwf : wellFormed f.
Variable rec : string -> outcome.

Lemma within_allowed v : In v (Allowed f) -> within f v.
Proof.
  rewrite (wf_allowed f Hwf). intros H.
  pose proof (upto_bounds (Min f) (Max f)) as Hb.
  rewrite Forall_forall in Hb. exact (Hb v H).
Qed.

Lemma allowed_ascending : ascending (Allowed f).
Proof. rewrite (wf_allowed f Hwf). apply upto_ascending. Qed.

Lemma parseListItems_spec items acc :
  (forall item, In item items -> parsedItem f item (rec item)) ->
  Forall (within f) acc ->
  match parseListItems f rec items acc with
  | Ret (Some values) None =>
      Forall (within f) values
      /\ (values = [] -> acc = [] /\ forall item, In item items -> hasLast item)
  | Ret None (Some _) => True
  | _ => False
  end.
Proof.
  revert acc. induction items as [| item items IH]; intros acc Hrec Hacc; simpl.
  - split; [exact Hacc |]. intros ->. split; [reflexivity | contradiction].
  - pose proof (Hrec item (or_introl eq_refl)) as Hitem.
    destruct (rec item) as [[l |] [e |] | |]; simpl in Hitem; try contradiction; auto.
    + destruct Hitem as (_ & Hw & HL & _).
      specialize (IH (acc ++ l) (fun i Hi => Hrec i (or_intror Hi))
                    (proj2 (Forall_app _ _ _) (conj Hacc Hw))).
      change (elems (Some l)) with l.
      revert IH.
      destruct (parseListItems f rec items (acc ++ l)) as [[vs |] [e |] | |];
        intros IH; try contradiction; auto.
      destruct IH as [IH1 IH2]. split; [exact IH1 |].
      intros Hvs. destruct (IH2 Hvs) as [Happ Hall].
      apply app_eq_nil in Happ. destruct Happ as [-> ->].
      split; [reflexivity |]. intros i Hi. simpl in Hi.
      destruct Hi as [<- | Hi]; auto.
    + specialize (IH (acc ++ []) (fun i Hi => Hrec i (or_intror Hi))
                    (proj2 (Forall_app _ _ _) (conj Hacc (Forall_nil _)))).
      change (elems None) with (@nil Z).
      revert IH.
      destruct (parseListItems f rec items (acc ++ [])) as [[vs |] [e |] | |];
        intros IH; try contradiction; auto.
      destruct IH as [IH1 IH2]. split; [exact IH1 |].
      intros Hvs. destruct (IH2 Hvs) as [Happ Hall].
      apply app_eq_nil in Happ. destruct Happ as [-> _].
      split; [reflexivity |]. intros i Hi. simpl in Hi.
      destruct Hi as [<- | Hi]; auto.
Qed.

Lemma parseList_spec s :
  strings.ContainsRune s ListSeparator = true ->
  (forall item, In item (strings.Split s ListSeparator) ->
                parsedItem f item (rec item)) ->
  parsed f s (deferred (parseList f rec s)).
Proof.
  intros Hc Hrec. unfold parseList.
  pose proof (parseListItems_spec _ [] Hrec (Forall_nil _)) as H.
  revert H.
  destruct (parseListItems f rec (strings.Split s ListSeparator) [])
    as [[vs |] [e |] | |]; intros H; try contradiction; simpl; auto.
  destruct H as [Hw HL].
  destruct (deferred_values vs) as (u & k & -> & Ha & Hin & Hlen).
  exists u, k. split; [reflexivity |]. split; [exact Ha |].
  split; [| split; [| split]].
  - apply Forall_forall. intros v Hv. rewrite Forall_forall in Hw.
    apply Hw. apply Hin. exact Hv.
  - intros ->.
    assert (Hvs : vs = []).
    { destruct vs as [| v vs]; [reflexivity |].
      exfalso. apply (proj2 (Hin v)). left. reflexivity. }
    destruct (HL Hvs) as [_ Hall].
    destruct (strings.Split s ListSeparator) as [| item items] eqn:Es.
    + exfalso. exact (Split_nonempty _ _ Es).
    + apply (hasLast_Split s ListSeparator item).
      * rewrite Es. left. reflexivity.
      * apply Hall. left. reflexivity.
  - intros Hc'. congruence.
  - intros Hc'. congruence.
Qed.

Lemma parseStep_spec stepRange step :
  strings.ContainsRune stepRange Step = false ->
  parsedItem f stepRange (rec stepRange) ->
  match parseStep f rec stepRange step with
  | Ret (Some l) None =>
      ascending l /\ Forall (within f) l /\ (l = [] -> hasLast stepRange)
  | Ret None (Some _) => True
  | _ => False
  end.
Proof.
  intros Hs Hitem. unfold parseStep.
  destruct (String.eqb stepRange "" || String.eqb step ""); [exact I |].
  destruct (strconv.Atoi step) as [stepVal | e]; [| exact I].
  destruct (stepVal <? 1); [exact I |].
  revert Hitem.
  destruct (rec stepRange) as [[l |] [e |] | |]; simpl; intros Hitem;
    try contradiction; auto.
  - destruct Hitem as (Ha & Hw & _ & Hne). specialize (Hne Hs).
    assert (Hgen : forall vs, ascending vs -> Forall (within f) vs -> vs <> [] ->
      match
        match stepValues vs stepVal with
        | [_] => Ret None (Some (wrapErr f (Errorf "step only occurs once")))
        | _ => Ret (Some (stepValues vs stepVal)) None
        end
      with
      | Ret (Some l0) None =>
          ascending l0 /\ Forall (within f) l0 /\ (l0 = [] -> hasLast stepRange)
      | Ret None (Some _) => True
      | _ => False
      end).
    { intros vs Hva Hvw Hvne.
      pose proof (stepValuesFrom_ascending vs stepVal 0 Hva) as Hsa.
      pose proof (stepValues_Forall (within f) vs stepVal Hvw) as Hsw.
      fold (stepValues vs stepVal) in Hsa.
      destruct vs as [| x vs]; [congruence |].
      destruct (stepValues_head x vs stepVal) as [rest Hrest].
      rewrite Hrest in *.
      destruct rest as [| y rest]; [exact I |].
      split; [exact Hsa |]. split; [exact Hsw |]. discriminate. }
    destruct l as [| x [| y l]]; [congruence | |].
    + apply Hgen; [| | discriminate].
      * split; [| apply ascending_filter; apply allowed_ascending].
        apply Forall_forall. intros v Hv. apply filter_In in Hv.
        destruct Hv as [_ Hv]. apply Z.gtb_lt in Hv. lia.
      * constructor; [exact (Forall_inv Hw) |].
        apply Forall_filter. apply Forall_forall. exact within_allowed.
    + apply Hgen; [exact Ha | exact Hw | discriminate].
Qed.

Lemma parseRange_spec beforeRange afterRange :
  strings.ContainsRune beforeRange Step = false ->
  strings.ContainsRune afterRange Step = false ->
  parsedItem f beforeRange (rec beforeRange) ->
  parsedItem f afterRange (rec afterRange) ->
  match parseRange f rec beforeRange afterRange with
  | Ret (Some l) None => ascending l /\ Forall (within f) l /\ l <> []
  | Ret None (Some _) => True
  | _ => False
  end.
Proof.
  intros Hb Ha Hbefore Hafter. unfold parseRange, rangeEnd.
  destruct (String.eqb afterRange ""); [exact I |].
  revert Hbefore.
  destruct (rec beforeRange) as [[l1 |] [e |] | |]; simpl; intros Hbefore;
    try contradiction; auto.
  destruct Hbefore as (_ & Hw1 & _ & Hne1). specialize (Hne1 Hb).
  destruct l1 as [| startNum [| y l1]]; [congruence | | exact I].
  change (1 <? List.length [startNum])%nat with false. cbv iota.
  revert Hafter.
  destruct (rec afterRange) as [[l2 |] [e |] | |]; simpl; intros Hafter;
    try contradiction; auto.
  destruct Hafter as (_ & Hw2 & _ & Hne2). specialize (Hne2 Ha).
  destruct l2 as [| endNum [| y l2]]; [congruence | | exact I].
  change (1 <? List.length [endNum])%nat with false. cbv iota.
  destruct (startNum >? endNum) eqn:Hgt; [exact I |].
  destruct (startNum =? endNum) eqn:Heq; [exact I |]. simpl.
  rewrite Z.gtb_ltb in Hgt. apply Z.ltb_ge in Hgt. apply Z.eqb_neq in Heq.
  split; [apply upto_ascending |]. split; [| apply upto_nonempty; lia].
  apply Forall_inv in Hw1. apply Forall_inv in Hw2.
  pose proof (upto_bounds startNum endNum) as Hu.
  rewrite Forall_forall in Hu. apply Forall_forall. intros v Hv.
  specialize (Hu v Hv). unfold within in *. lia.
Qed.

End ParserFacts.

Lemma contains_Last_upper s :
  strings.ContainsRune s Last = true -> hasLast s.
Proof.
  unfold hasLast. induction s as [| c s IH]; simpl; [discriminate |].
  destruct (Ascii.eqb c Last) eqn:E.
  - apply Ascii.eqb_eq in E. subst c. reflexivity.
  - intros H. rewrite (IH H). apply orb_true_r.
Qed.

Lemma parsed_upper f s r : parsed f (strings.ToUpper s) r -> parsed f s r.
Proof.
  destruct r as [[l |] [e |] | |]; simpl; auto.
  - intros (u & k & -> & Ha & Hw & HL & Hk & Hne).
    rewrite (ToUpper_contains s ListSeparator upper_comma) in Hk, Hne.
    rewrite (ToUpper_contains s Step upper_slash) in Hne.
    exists u, k. repeat split; auto.
    intros Hu. apply hasLast_upper. auto.
  - apply hasLast_upper.
Qed.

Lemma parsed_values f s l :
  ascending l -> Forall (within f) l -> l <> [] ->
  parsed f s (deferred (Ret (Some l) None)).
Proof.
  intros Ha Hw Hne. apply item_parsed; auto; intros; contradiction.
Qed.

(** One call of [parse], the calls it makes on shorter texts given. *)
Lemma parseBody_spec f rec s :
  wellFormed f ->
  (forall t, (String.length t < String.length s)%nat -> parsed f t (rec t)) ->
  parsed f s (deferred (parseBody f rec s)).
Proof.
  intros Hwf Hrec. unfold parseBody.
  destruct (String.eqb s ""); [exact I |].
  destruct (String.eqb s (str Blank) && negb (Index f =? dayInd)
            && negb (Index f =? monthInd) && negb (Index f =? weekdayInd));
    [exact I |].
  destruct (String.eqb s (str Any) || String.eqb s (str Blank)).
  { pose proof (upto_nonempty (Min f) (Max f) (wf_bounds f Hwf)) as Hne.
    pose proof (upto_ascending (Min f) (Max f)) as Ha.
    pose proof (upto_bounds (Min f) (Max f)) as Hb.
    destruct (upto (Min f) (Max f)) as [| x l] eqn:E; [congruence |].
    unfold appended. apply parsed_values; [exact Ha | exact Hb | exact Hne]. }
  cbv zeta. apply parsed_upper.
  assert (Hrec' : forall t,
            (String.length t < String.length (strings.ToUpper s))%nat ->
            parsed f t (rec t)).
  { intros t Ht. apply Hrec. rewrite ToUpper_length in Ht. exact Ht. }
  clear Hrec. revert Hrec'. generalize (strings.ToUpper s). clear s.
  intros s Hrec.
  destruct (match Conversions f with
            | Some conv => lookupConv conv s
            | None => None
            end) as [v |] eqn:Ec.
  { apply parsed_values; [split; [constructor | exact I] | | discriminate].
    constructor; [| constructor].
    destruct (Conversions f) as [conv |] eqn:Ef; [| discriminate].
    exact (wf_conv f Hwf conv s v Ef Ec). }
  destruct (strconv.Atoi s) as [m | e].
  { destruct (m <? Min f) eqn:Hlo; [exact I |].
    destruct (m >? Max f) eqn:Hhi; [exact I |].
    apply parsed_values; [split; [constructor | exact I] | | discriminate].
    constructor; [| constructor].
    apply Z.ltb_ge in Hlo. rewrite Z.gtb_ltb in Hhi. apply Z.ltb_ge in Hhi.
    split; assumption. }
  destruct (strings.ContainsRune s ListSeparator
            || strings.ContainsRune s Range
            || strings.ContainsRune s Step
            || strings.ContainsRune s Last) eqn:Hspecial; [| exact I].
  destruct (strings.ContainsRune s ListSeparator) eqn:Hlist.
  { apply parseList_spec; [exact Hlist |].
    intros item Hin. apply parsed_item.
    - exact (Split_items_clean s ListSeparator item Hin).
    - apply Hrec. exact (Split_shorter s ListSeparator item Hlist Hin). }
  destruct (strings.Cut s Step) as [[beforeStep afterStep] stepFound] eqn:Estep.
  pose proof (Cut_found s Step) as Hstep. rewrite Estep in Hstep. simpl in Hstep.
  destruct stepFound.
  { destruct (Cut_true _ _ _ _ Estep) as [_ Hclean].
    destruct (Cut_clean _ _ _ _ ListSeparator Estep Hlist) as [Hbl _].
    destruct (Cut_shorter _ _ _ _ Estep) as [Hshort _].
    pose proof (parseStep_spec f Hwf rec beforeStep afterStep Hclean
                  (parsed_item f _ _ Hbl (Hrec _ Hshort))) as H.
    revert H.
    destruct (parseStep f rec beforeStep afterStep) as [[l |] [e' |] | |];
      intros H; try contradiction; auto.
    destruct H as (Ha & Hw & HL).
    apply item_parsed; [exact Ha | exact Hw | |].
    - intros Hl. apply (hasLast_Cut _ _ _ _ Estep). left. exact (HL Hl).
    - intros _ Hno. congruence. }
  destruct (strings.Cut s Range) as [[before after] rangeFound] eqn:Erange.
  pose proof (Cut_found s Range) as Hrange. rewrite Erange in Hrange.
  simpl in Hrange.
  destruct rangeFound.
  { destruct (Cut_clean _ _ _ _ ListSeparator Erange Hlist) as [Hbl Hal].
    destruct (Cut_clean _ _ _ _ Step Erange (eq_sym Hstep)) as [Hbs Has].
    destruct (Cut_shorter _ _ _ _ Erange) as [Hb Ha].
    pose proof (parseRange_spec f rec before after Hbs Has
                  (parsed_item f _ _ Hbl (Hrec _ Hb))
                  (parsed_item f _ _ Hal (Hrec _ Ha))) as H.
    revert H.
    destruct (parseRange f rec before after) as [[l |] [e' |] | |];
      intros H; try contradiction; auto.
    destruct H as (Ha' & Hw & Hne).
    apply parsed_values; assumption. }
  simpl. apply contains_Last_upper.
  rewrite <- Hstep, <- Hrange in Hspecial. exact Hspecial.
Qed.

(** With fuel beyond the length of the text, [parse] returns, and what it
    returns is as [parsed] says. *)
Lemma parseFuel_spec f :
  wellFormed f ->
  forall fuel s, (String.length s < fuel)%nat -> parsed f s (parseFuel fuel f s).
Proof.
  intros Hwf. induction fuel as [| fuel IH]; intros s Hlen; [lia |].
  simpl. apply parseBody_spec; [exact Hwf |].
  intros t Ht. apply IH. lia.
Qed.

(** [parse] reads its recursive calls on shorter texts only. *)
Lemma parseListItems_ext f rec1 rec2 items acc :
  (forall item, In item items -> rec1 item = rec2 item) ->
  parseListItems f rec1 items acc = parseListItems f rec2 items acc.
Proof.
  revert acc. induction items as [| item items IH]; intros acc H; simpl;
    [reflexivity |].
  rewrite <- (H item (or_introl eq_refl)).
  destruct (rec1 item) as [sv [e |] | |]; try reflexivity.
  apply IH. intros i Hi. apply H. right. exact Hi.
Qed.

Lemma parseBody_ext f rec1 rec2 s :
  (forall t, (String.length t < String.length s)%nat -> rec1 t = rec2 t) ->
  parseBody f rec1 s = parseBody f rec2 s.
Proof.
  intros H. unfold parseBody.
  destruct (String.eqb s ""); [reflexivity |].
  destruct (String.eqb s (str Blank) && negb (Index f =? dayInd)
            && negb (Index f =? monthInd) && negb (Index f =? weekdayInd));
    [reflexivity |].
  destruct (String.eqb s (str Any) || String.eqb s (str Blank)); [reflexivity |].
  cbv zeta.
  assert (H' : forall t,
            (String.length t < String.length (strings.ToUpper s))%nat ->
            rec1 t = rec2 t).
  { intros t Ht. apply H. rewrite ToUpper_length in Ht. exact Ht. }
  clear H. revert H'. generalize (strings.ToUpper s). clear s. intros s H.
  destruct (match Conversions f with
            | Some conv => lookupConv conv s
            | None => None
            end); [reflexivity |].
  destruct (strconv.Atoi s) as [m | e]; [reflexivity |].
  destruct (strings.ContainsRune s ListSeparator
            || strings.ContainsRune s Range
            || strings.ContainsRune s Step
            || strings.ContainsRune s Last); [| reflexivity].
  destruct (strings.ContainsRune s ListSeparator) eqn:Hlist.
  { unfold parseList. apply parseListItems_ext.
    intros item Hin. apply H.
    exact (Split_shorter s ListSeparator item Hlist Hin). }
  destruct (strings.Cut s Step) as [[beforeStep afterStep] stepFound] eqn:Estep.
  destruct stepFound.
  { destruct (Cut_shorter _ _ _ _ Estep) as [Hshort _].
    unfold parseStep. rewrite (H _ Hshort). reflexivity. }
  destruct (strings.Cut s Range) as [[before after] rangeFound] eqn:Erange.
  destruct rangeFound; [| reflexivity].
  destruct (Cut_shorter _ _ _ _ Erange) as [Hb Ha].
  unfold parseRange, rangeEnd. rewrite (H _ Hb), (H _ Ha). reflexivity.
Qed.

Lemma parseFuel_more f fuel1 fuel2 s :
  (String.length s < fuel1)%nat -> (String.length s < fuel2)%nat ->
  parseFuel fuel1 f s = parseFuel fuel2 f s.
Proof.
  revert fuel2 s. induction fuel1 as [| fuel1 IH]; intros fuel2 s H1 H2; [lia |].
  destruct fuel2 as [| fuel2]; [lia |]. simpl. f_equal.
  apply parseBody_ext. intros t Ht. apply IH; lia.
Qed.

(** More fuel than [parseRun] gives changes nothing. *)
Lemma parse_enough_fuel f s fuel :
  (String.length s < fuel)%nat -> parseFuel fuel f s = parseRun f s.
Proof. intros H. apply parseFuel_more; [exact H | lia]. Qed.

(** [parse] returns: it neither panics nor needs more fuel. *)
Lemma parse_returns f s :
  wellFormed f -> exists values err, parseRun f s = Ret values err.
Proof.
  intros Hwf.
  pose proof (parseFuel_spec f Hwf (S (String.length s)) s (Nat.lt_succ_diag_r _)) as H.
  unfold parseRun. destruct (parseFuel _ f s) as [values err | |];
    [eauto | contradiction | contradiction].
Qed.

Lemma conv_within f conv :
  Conversions f = Some conv ->
  forallb (fun kv => (Min f <=? snd kv) && (snd kv <=? Max f)) conv = true ->
  forall k v, lookupConv conv k = Some v -> within f v.
Proof.
  intros _ Hall k v. induction conv as [| [k' v'] conv IH]; simpl; [discriminate |].
  simpl in Hall. apply andb_prop in Hall. destruct Hall as [Hv Hall].
  destruct (String.eqb k k'); [| exact (IH Hall)].
  intros [= <-]. apply andb_prop in Hv. unfold within. simpl in Hv. lia.
Qed.

Lemma fields_wellFormed f : In f fields -> wellFormed f.
Proof.
  intros H. simpl in H.
  destruct H as [<- | [<- | [<- | [<- | [<- | []]]]]];
    (constructor;
     [ reflexivity
     | vm_compute; discriminate
     | intros conv k v Hc;
       first [ discriminate Hc
             | apply (conv_within _ conv Hc); injection Hc as <-; reflexivity ] ]).
Qed.

(** What [parse] gives for a field of the schedule. *)
Lemma parse_spec f s :
  In f fields -> parsed f s (parseRun f s).
Proof.
  intros H. apply parseFuel_spec; [exact (fields_wellFormed f H) |].
  apply Nat.lt_succ_diag_r.
Qed.

(** A text that is no list parses, if it does, into strictly ascending
    values within the bounds of the field. *)
Lemma parse_item_sorted f s values :
  In f fields -> strings.ContainsRune s ListSeparator = false ->
  parse f s = (Some values, None) ->
  ascending values /\ Forall (within f) values.
Proof.
  intros Hf Hc. unfold parse.
  pose proof (parsed_item f s _ Hc (parse_spec f s Hf)) as H. revert H.
  destruct (parseRun f s) as [[l |] [e |] | |]; simpl; intros H; try contradiction;
    intros [= <-]. tauto.
Qed.

(** Without an error, [parse] gives no value only for a text with [L]. *)
Lemma parse_empty_last f s values :
  In f fields -> parse f s = (values, None) -> elems values = [] -> hasLast s.
Proof.
  intros Hf. unfold parse.
  pose proof (parse_spec f s Hf) as H. revert H.
  destruct (parseRun f s) as [[l |] [e |] | |]; simpl; intros H; try contradiction;
    intros [= <-]; simpl; auto.
  destruct H as (u & k & -> & _ & _ & HL & _). intros Happ.
  apply app_eq_nil in Happ. destruct Happ as [-> _]. auto.
Qed.

(* --------------------------------------------------------------------- *)
(** ** New and validate                                                  *)
(* --------------------------------------------------------------------- *)

Lemma isWildcard_minute text :
  isWildcard minuteOpts text = String.eqb text (str Any).
Proof.
  unfold isWildcard. simpl. rewrite andb_false_r, orb_false_r. reflexivity.
Qed.

Lemma isWildcard_hour text :
  isWildcard hourOpts text = String.eqb text (str Any).
Proof.
  unfold isWildcard. simpl. rewrite andb_false_r, orb_false_r. reflexivity.
Qed.

Lemma isWildcard_other f text :
  Index f <> minuteInd -> Index f <> hourInd ->
  isWildcard f text = String.eqb text (str Any) || String.eqb text (str Blank).
Proof.
  intros H1 H2. unfold isWildcard.
  apply Z.eqb_neq in H1, H2. rewrite H1, H2. simpl.
  rewrite !andb_true_r. reflexivity.
Qed.

Ltac simplSchedule :=
  cbn [values loc minutes allowAnyMinute hours allowAnyHour days allowAnyDay
       months allowAnyMonth weekdays allowAnyWeekday fst snd
       setMinutes setAllowAnyMinute setHours setAllowAnyHour setDays
       setAllowAnyDay setMonths setAllowAnyMonth setWeekdays
       setAllowAnyWeekday].

(** What [validate] leaves in the schedule and what it returns, field by
    field. *)
Lemma validate_spec s :
  validate s =
  ({| values := values s; loc := loc s;
      minutes := if isWildcard minuteOpts (Minute s) then minutes s
                 else fst (parse minuteOpts (Minute s));
      allowAnyMinute := if isWildcard minuteOpts (Minute s) then true
                        else allowAnyMinute s;
      hours := if isWildcard hourOpts (Hour s) then hours s
               else fst (parse hourOpts (Hour s));
      allowAnyHour := if isWildcard hourOpts (Hour s) then true
                      else allowAnyHour s;
      days := if isWildcard dayOpts (Day s) then days s
              else fst (parse dayOpts (Day s));
      allowAnyDay := if isWildcard dayOpts (Day s) then true
                     else allowAnyDay s;
      months := if isWildcard monthOpts (Month s) then months s
                else fst (parse monthOpts (Month s));
      allowAnyMonth := if isWildcard monthOpts (Month s) then true
                       else allowAnyMonth s;
      weekdays := if isWildcard weekdayOpts (Weekday s) then weekdays s
                  else fst (parse weekdayOpts (Weekday s));
      allowAnyWeekday := if isWildcard weekdayOpts (Weekday s) then true
                         else allowAnyWeekday s |},
   errorsJoin [fieldCheck minuteOpts (Minute s); fieldCheck hourOpts (Hour s);
               fieldCheck dayOpts (Day s); fieldCheck monthOpts (Month s);
               fieldCheck weekdayOpts (Weekday s)]).
Proof.
  unfold fieldCheck.
  rewrite isWildcard_minute, isWildcard_hour.
  rewrite !isWildcard_other by discriminate.
  unfold validate, Minute, Hour, Day, Month, Weekday, value. cbv zeta.
  destruct (String.eqb (nth (Z.to_nat minuteInd) (values s) "") (str Any));
    [| destruct (parse minuteOpts (nth (Z.to_nat minuteInd) (values s) ""))].
  all: simplSchedule;
    (destruct (String.eqb (nth (Z.to_nat hourInd) (values s) "") (str Any));
      [| destruct (parse hourOpts (nth (Z.to_nat hourInd) (values s) ""))]).
  all: simplSchedule;
    (destruct (String.eqb (nth (Z.to_nat dayInd) (values s) "") (str Any)
               || String.eqb (nth (Z.to_nat dayInd) (values s) "") (str Blank));
      [| destruct (parse dayOpts (nth (Z.to_nat dayInd) (values s) ""))]).
  all: simplSchedule;
    (destruct (String.eqb (nth (Z.to_nat monthInd) (values s) "") (str Any)
               || String.eqb (nth (Z.to_nat monthInd) (values s) "") (str Blank));
      [| destruct (parse monthOpts (nth (Z.to_nat monthInd) (values s) ""))]).
  all: simplSchedule;
    (destruct (String.eqb (nth (Z.to_nat weekdayInd) (values s) "") (str Any)
               || String.eqb (nth (Z.to_nat weekdayInd) (values s) "") (str Blank));
      [| destruct (parse weekdayOpts (nth (Z.to_nat weekdayInd) (values s) ""))]).
  all: reflexivity.
Qed.

Lemma validate_values s :
  values (fst (validate s)) = values s /\ loc (fst (validate s)) = loc s.
Proof. rewrite validate_spec. split; reflexivity. Qed.

Lemma New_spec cron l :
  New cron l =
  let vs := strings.Split (resolved cron) " " in
  if (List.length vs =? 5)%nat
  then (Some (fst (validate (blankSchedule vs (locOr l)))),
        snd (validate (blankSchedule vs (locOr l))))
  else (None, Some (FieldCount (resolved cron) (List.length vs))).
Proof.
  unfold New, resolved, blankSchedule, locOr. cbv zeta.
  destruct (List.length _ =? 5)%nat; simpl; [| reflexivity].
  destruct (validate _); reflexivity.
Qed.

Lemma New_some cron l s err :
  New cron l = (Some s, err) ->
  let vs := strings.Split (resolved cron) " " in
  List.length vs = 5%nat
  /\ s = fst (validate (blankSchedule vs (locOr l)))
  /\ err = snd (validate (blankSchedule vs (locOr l)))
  /\ values s = vs /\ loc s = locOr l.
Proof.
  rewrite New_spec. cbv zeta.
  destruct (List.length _ =? 5)%nat eqn:E; intros H; inversion H; subst.
  apply Nat.eqb_eq in E. repeat split; try assumption;
    apply validate_values.
Qed.

Lemma nonNil_In e errs : In (Some e) errs <-> In e (nonNil errs).
Proof.
  induction errs as [| [x |] errs IH]; simpl; [tauto | |].
  - split.
    + intros [H | H]; [inversion H; auto | right; apply IH; exact H].
    + intros [H | H]; [left; congruence | right; apply IH; exact H].
  - split.
    + intros [H | H]; [discriminate | apply IH; exact H].
    + intros H. right. apply IH. exact H.
Qed.

Lemma errorsJoin_nil errs :
  errorsJoin errs = None <-> Forall (fun e => e = None) errs.
Proof.
  unfold errorsJoin. split.
  - intros H. apply Forall_forall. intros [e |] Hin; [| reflexivity].
    apply nonNil_In in Hin. destruct (nonNil errs); [contradiction | discriminate].
  - intros H. destruct (nonNil errs) as [| e es] eqn:E; [reflexivity |].
    assert (Hin : In (Some e) errs) by (apply nonNil_In; rewrite E; left; reflexivity).
    rewrite Forall_forall in H. specialize (H _ Hin). discriminate.
Qed.

Lemma errorsJoin_In e errs :
  In (Some e) errs ->
  exists es, errorsJoin errs = Some (JoinError es) /\ In e es.
Proof.
  intros H. apply nonNil_In in H. unfold errorsJoin.
  destruct (nonNil errs) as [| x es]; [contradiction |].
  eexists. split; [reflexivity | exact H].
Qed.

Lemma length5 {A} (l : list A) :
  List.length l = 5%nat -> exists a b c d e, l = [a; b; c; d; e].
Proof.
  destruct l as [| a [| b [| c [| d [| e [| x l]]]]]]; try discriminate.
  intros _. eauto 6.
Qed.

(** C5, as amended.  [New] fails in one of two ways.  When the trimmed,
    macro-resolved text does not split into five fields it returns no
    schedule and an error that tells the count.  Otherwise all five fields
    are validated and the error is the join of the errors of all of them:
    it is nil exactly when no field has an error, and else holds the error
    of every field that has one; and the schedule is returned next to the
    error, also when the error is not nil. *)
Theorem new_outcome (cron : string) (l : option time.Location) :
  let vs := strings.Split (resolved cron) " " in
  let errs := map (fun '(f, text) => fieldCheck f text) (combine fields vs) in
  (List.length vs <> 5%nat ->
     New cron l = (None, Some (FieldCount (resolved cron) (List.length vs))))
  /\ (List.length vs = 5%nat ->
        exists s,
          New cron l = (Some s, errorsJoin errs)
          /\ values s = vs
          /\ (errorsJoin errs = None <-> Forall (fun e => e = None) errs)
          /\ (forall e, In (Some e) errs ->
                exists es, errorsJoin errs = Some (JoinError es) /\ In e es)).
Proof.
  intros vs errs. rewrite New_spec. fold vs. cbv zeta. split.
  - intros H. apply Nat.eqb_neq in H. rewrite H. reflexivity.
  - intros H. pose proof H as H5. apply Nat.eqb_eq in H. rewrite H.
    eexists. split; [| split; [| split]].
    + f_equal. rewrite validate_spec. cbn [snd].
      destruct (length5 vs H5) as (a & b & c & d & e & E).
      subst errs. rewrite E. reflexivity.
    + apply validate_values.
    + apply errorsJoin_nil.
    + intros e. apply errorsJoin_In.
Qed.

(** The expression of the tests with an error in two fields: both are in
    the joined error. *)
Lemma new_outcome_witness :
  exists s es,
    New "60 * 1,L * wat" None = (Some s, Some (JoinError es))
    /\ List.length es = 2%nat.
Proof.
  destruct (new_outcome "60 * 1,L * wat" None) as [_ H].
  destruct (H eq_refl) as (s & E & _).
  exists s. eexists. split; [exact E | reflexivity].
Defined.

(** C5, as stated, fails: on an expression of five fields of which one is
    out of range, [New] returns the error and, with it, the schedule. *)
Lemma new_error_with_schedule :
  exists s e, New "60 * * * *" None = (Some s, Some e).
Proof. eexists. eexists. reflexivity. Qed.

(* --------------------------------------------------------------------- *)
(** ** The value sets of a schedule                                      *)
(* --------------------------------------------------------------------- *)

(** A field without error is a wildcard, or has values, or its text has
    the letter [L]. *)
Lemma fieldCheck_set f text :
  In f fields -> fieldCheck f text = None ->
  isWildcard f text = true
  \/ (isWildcard f text = false /\ elems (fst (parse f text)) <> [])
  \/ hasLast text.
Proof.
  intros Hf. unfold fieldCheck.
  destruct (isWildcard f text); [left; reflexivity |].
  destruct (parse f text) as [v e] eqn:E. simpl. intros ->.
  destruct (elems v) as [| x l] eqn:Ev.
  - right. right. exact (parse_empty_last f text v Hf E Ev).
  - right. left. split; [reflexivity | discriminate].
Qed.

(** The fields of a schedule that [New] returns without error. *)
Lemma New_fields cron l s :
  New cron l = (Some s, None) ->
  (allowAnyMinute s = true \/ elems (minutes s) <> [] \/ hasLast (Minute s))
  /\ (allowAnyHour s = true \/ elems (hours s) <> [] \/ hasLast (Hour s))
  /\ (allowAnyDay s = true \/ elems (days s) <> [] \/ hasLast (Day s))
  /\ (allowAnyMonth s = true \/ elems (months s) <> [] \/ hasLast (Month s))
  /\ (allowAnyWeekday s = true \/ elems (weekdays s) <> []
      \/ hasLast (Weekday s)).
Proof.
  intros H. apply New_some in H. cbv zeta in H.
  destruct H as (_ & Hs & He & Hv & _).
  set (b := blankSchedule (strings.Split (resolved cron) " ") (locOr l)) in *.
  assert (Hb : values b = values s) by (rewrite Hv; reflexivity).
  rewrite validate_spec in Hs, He. cbn [fst snd] in Hs, He.
  symmetry in He. apply errorsJoin_nil in He.
  inversion_clear He as [| ? ? H1 He1]. inversion_clear He1 as [| ? ? H2 He2].
  inversion_clear He2 as [| ? ? H3 He3]. inversion_clear He3 as [| ? ? H4 He4].
  inversion_clear He4 as [| ? ? H5 _].
  assert (Hm : Minute s = Minute b) by (unfold Minute, value; rewrite Hb; reflexivity).
  assert (Hh : Hour s = Hour b) by (unfold Hour, value; rewrite Hb; reflexivity).
  assert (Hd : Day s = Day b) by (unfold Day, value; rewrite Hb; reflexivity).
  assert (Hmo : Month s = Month b) by (unfold Month, value; rewrite Hb; reflexivity).
  assert (Hw : Weekday s = Weekday b) by (unfold Weekday, value; rewrite Hb; reflexivity).
  rewrite Hm, Hh, Hd, Hmo, Hw. clear Hm Hh Hd Hmo Hw Hb Hv.
  apply fieldCheck_set in H1; [| simpl; tauto].
  apply fieldCheck_set in H2; [| simpl; tauto].
  apply fieldCheck_set in H3; [| simpl; tauto].
  apply fieldCheck_set in H4; [| simpl; tauto].
  apply fieldCheck_set in H5; [| simpl; tauto].
  subst s. simplSchedule.
  repeat split.
  - destruct H1 as [-> | [[-> H] | H]]; auto.
  - destruct H2 as [-> | [[-> H] | H]]; auto.
  - destruct H3 as [-> | [[-> H] | H]]; auto.
  - destruct H4 as [-> | [[-> H] | H]]; auto.
  - destruct H5 as [-> | [[-> H] | H]]; auto.
Qed.

(* --------------------------------------------------------------------- *)
(** ** The canonical string and the fast paths of nextNoTruncate         *)
(* --------------------------------------------------------------------- *)

Lemma String_has_space cron l s err :
  New cron l = (Some s, err) ->
  strings.ContainsRune (Schedule_String s) " " = true.
Proof.
  intros H. apply New_some in H. cbv zeta in H.
  destruct H as (H5 & _ & _ & Hv & _).
  unfold Schedule_String. rewrite Hv.
  destruct (length5 _ H5) as (a & b & c & d & e & ->).
  apply Join_two_contains_sep.
Qed.

Lemma nextNoTruncate_loop fuel s t :
  Schedule_String s <> "0 0 1 1 *" -> Schedule_String s <> Monthly ->
  nextNoTruncate fuel s t = nextLoop fuel s t.
Proof.
  intros H1 H2. unfold nextNoTruncate.
  apply String.eqb_neq in H1, H2. cbv zeta. rewrite H1, H2. reflexivity.
Qed.

(** C4.  The string of a schedule that [New] returns is never the macro
    name [@monthly]: the branch of [nextNoTruncate] that compares with it
    is never taken, and unless the string is the yearly expression the
    result is that of the loop that steps by a minute.  So it is for the
    schedule of [@monthly], whose string is ["0 0 1 * *"]. *)
Theorem monthly_fast_path_dead
    (cron : string) (l : option time.Location) (s : Schedule)
    (err : option error) :
  New cron l = (Some s, err) ->
  Schedule_String s <> Monthly
  /\ (forall fuel t,
        nextNoTruncate fuel s t =
        if String.eqb (Schedule_String s) "0 0 1 1 *"
        then Some (time.Date (Time.Year t + 1) januaryInd 1 0 0 0 0
                     (Time.Location t))
        else nextLoop fuel s t)
  /\ (cron = Monthly ->
        err = None /\ Schedule_String s = "0 0 1 * *"
        /\ forall fuel t, nextNoTruncate fuel s t = nextLoop fuel s t).
Proof.
  intros H.
  assert (Hm : Schedule_String s <> Monthly).
  { intros E. pose proof (String_has_space _ _ _ _ H) as Hsp.
    rewrite E in Hsp. discriminate. }
  split; [exact Hm |]. split.
  - intros fuel t. unfold nextNoTruncate. cbv zeta.
    destruct (String.eqb (Schedule_String s) "0 0 1 1 *"); [reflexivity |].
    apply String.eqb_neq in Hm. rewrite Hm. reflexivity.
  - intros ->. rewrite New_spec in H. cbv zeta in H.
    change (strings.Split (resolved Monthly) " ") with ["0"; "0"; "1"; "*"; "*"] in H.
    change (List.length ["0"; "0"; "1"; "*"; "*"] =? 5)%nat with true in H.
    cbv iota in H. inversion H as [[Hs He]].
    split; [reflexivity |]. split; [reflexivity |].
    intros fuel t. reflexivity.
Qed.

(** [@monthly] in UTC: the next occurrence after 2024-12-31T23:58 is
    found by the loop, two minutes later. *)
Lemma monthly_fast_path_dead_witness :
  Schedule_String (mustNew Monthly None) <> Monthly
  /\ nextNoTruncate 5 (mustNew Monthly None)
       (time.Date 2024 12 31 23 58 0 0 time.UTC)
     = Some (time.Date 2025 1 1 0 0 0 0 time.UTC).
Proof.
  destruct (monthly_fast_path_dead Monthly None (mustNew Monthly None) None eq_refl)
    as (H1 & H2 & _).
  split; [exact H1 |].
  rewrite H2. reflexivity.
Defined.

(* --------------------------------------------------------------------- *)
(** ** The calendar                                                      *)
(* --------------------------------------------------------------------- *)

Lemma allFrom_spec n z p :
  allFrom n z p = true -> forall i, 0 <= i < Z.of_nat n -> p (z + i) = true.
Proof.
  revert z. induction n as [| n IH]; intros z H i Hi; [lia |].
  simpl in H. destruct (p z) eqn:E; [| discriminate].
  destruct (Z.eq_dec i 0) as [-> | Hne].
  - rewrite Z.add_0_r. exact E.
  - replace (z + i) with (z + 1 + (i - 1)) by lia.
    apply IH; [exact H | lia].
Qed.

Lemma era_days_ok : allFrom (Z.to_nat 146097) (-719468) civilOk = true.
Proof. vm_cast_no_check (eq_refl true). Qed.

Lemma cycle_years_ok : allFrom (Z.to_nat 400) 0 yearOk = true.
Proof. vm_cast_no_check (eq_refl true). Qed.

Lemma isLeap_shift y k : time.isLeap (y + 400 * k) = time.isLeap y.
Proof.
  unfold time.isLeap.
  replace (y + 400 * k) with (y + (100 * k) * 4) at 1 by lia.
  replace (y + 400 * k) with (y + (4 * k) * 100) at 1 by lia.
  replace (y + 400 * k) with (y + k * 400) by lia.
  rewrite !Z.mod_add by lia. reflexivity.
Qed.

Lemma daysIn_shift m y k : time.daysIn m (y + 400 * k) = time.daysIn m y.
Proof. unfold time.daysIn. rewrite isLeap_shift. reflexivity. Qed.

Lemma daysSinceEpoch_shift y k :
  time.daysSinceEpoch (y + 400 * k) = time.daysSinceEpoch y + 146097 * k.
Proof.
  unfold time.daysSinceEpoch. cbv zeta.
  replace (y + 400 * k - 1) with (y - 1 + (100 * k) * 4) at 2 by lia.
  replace (y + 400 * k - 1) with (y - 1 + (4 * k) * 100) at 2 by lia.
  replace (y + 400 * k - 1) with (y - 1 + k * 400) at 2 by lia.
  rewrite !Z.div_add by lia. lia.
Qed.

Lemma dateToDays_shift y m d k :
  time.dateToDays (y + 400 * k) m d = time.dateToDays y m d + 146097 * k.
Proof.
  unfold time.dateToDays. rewrite daysSinceEpoch_shift, isLeap_shift. lia.
Qed.

Lemma civil_shift z k :
  time.civil (z + 146097 * k) =
  let '(y, m, d) := time.civil z in (y + 400 * k, m, d).
Proof.
  unfold time.civil. cbv zeta.
  replace (z + 146097 * k + 719468) with (z + 719468 + k * 146097) by lia.
  rewrite Z.div_add, Z.mod_add by lia.
  set (doe := (z + 719468) mod 146097).
  set (yoe := (doe - doe / 1460 + doe / 36524 - doe / 146096) / 365).
  set (doy := doe - (365 * yoe + yoe / 4 - yoe / 100)).
  set (mp := (5 * doy + 2) / 153).
  clearbody doe yoe doy mp.
  destruct (mp <? 10); destruct (_ <=? 2); f_equal; f_equal; ring.
Qed.

(** Every day is a day of one era, shifted by a number of eras. *)
Lemma era_split z :
  exists k z0, z = z0 + 146097 * k /\ 0 <= z0 + 719468 < 146097.
Proof.
  exists ((z + 719468) / 146097), ((z + 719468) mod 146097 - 719468).
  pose proof (Z.div_mod (z + 719468) 146097 ltac:(lia)).
  pose proof (Z.mod_pos_bound (z + 719468) 146097 ltac:(lia)). lia.
Qed.

(** The date of any day: a month from 1 to 12, a day from 1 to the length
    of the month, in the year that ends after the day. *)
Lemma civil_valid z y m d :
  time.civil z = (y, m, d) ->
  1 <= m <= 12 /\ 1 <= d <= time.daysIn m y /\ z < time.dateToDays (y + 1) 1 1.
Proof.
  intros H. destruct (era_split z) as (k & z0 & -> & Hz0).
  rewrite civil_shift in H.
  pose proof (allFrom_spec _ _ _ era_days_ok (z0 + 719468) ltac:(lia)) as Hok.
  replace (-719468 + (z0 + 719468)) with z0 in Hok by lia.
  unfold civilOk in Hok.
  destruct (time.civil z0) as [[y0 m0] d0].
  change ((y0 + 400 * k, m0, d0) = (y, m, d)) in H.
  assert (y = y0 + 400 * k /\ m = m0 /\ d = d0) as (-> & -> & ->)
    by (repeat split; congruence).
  rewrite !andb_true_iff in Hok. destruct Hok as ((((H1 & H2) & H3) & H4) & H5).
  apply Z.leb_le in H1, H2, H3, H4. apply Z.ltb_lt in H5.
  rewrite daysIn_shift.
  replace (y0 + 400 * k + 1) with (y0 + 1 + 400 * k) by lia.
  rewrite dateToDays_shift. lia.
Qed.

Lemma monthOk_elim y m :
  monthOk y m = true ->
  time.civil (time.dateToDays y m 1) = (y, m, 1)
  /\ snd (time.civil (time.dateToDays (y + m / 12) (m mod 12 + 1) 1 - 1))
     = time.daysIn m y.
Proof.
  unfold monthOk, time.norm.
  generalize (time.civil (time.dateToDays y m 1)).
  generalize (time.civil (time.dateToDays (y + m / 12) (m mod 12 + 1) 1 - 1)).
  generalize (time.daysIn m y).
  intros n [[y2 m2] d2] [[y1 m1] d1] H.
  rewrite !andb_true_iff in H. destruct H as (((A & B) & C) & D).
  apply Z.eqb_eq in A, B, C, D. subst. split; reflexivity.
Qed.

Lemma yearOk_eq y : yearOk y = allFrom 12 1 (monthOk y).
Proof. reflexivity. Qed.

Lemma cycle_month_ok y0 m :
  0 <= y0 < 400 -> 1 <= m <= 12 -> monthOk y0 m = true.
Proof.
  intros Hy Hm.
  pose proof (allFrom_spec _ _ _ cycle_years_ok y0 ltac:(lia)) as Hok.
  rewrite Z.add_0_l, yearOk_eq in Hok.
  pose proof (allFrom_spec 12 1 (monthOk y0) Hok (m - 1) ltac:(lia)) as Hm0.
  replace (1 + (m - 1)) with m in Hm0 by lia. exact Hm0.
Qed.

Lemma cycle_split y : exists k y0, y = y0 + 400 * k /\ 0 <= y0 < 400.
Proof.
  exists (y / 400), (y mod 400).
  pose proof (Z.div_mod y 400 ltac:(lia)).
  pose proof (Z.mod_pos_bound y 400 ltac:(lia)). lia.
Qed.

(** The first of a month is given its date. *)
Lemma civil_first y m :
  1 <= m <= 12 -> time.civil (time.dateToDays y m 1) = (y, m, 1).
Proof.
  intros Hm. destruct (cycle_split y) as (k & y0 & -> & Hy).
  destruct (monthOk_elim _ _ (cycle_month_ok y0 m Hy Hm)) as [H _].
  rewrite dateToDays_shift, civil_shift, H. reflexivity.
Qed.

(** The day before the first of the next month is the last of the
    month. *)
Lemma civil_last y m :
  1 <= m <= 12 ->
  snd (time.civil (time.dateToDays (y + m / 12) (m mod 12 + 1) 1 - 1))
  = time.daysIn m y.
Proof.
  intros Hm. destruct (cycle_split y) as (k & y0 & -> & Hy).
  destruct (monthOk_elim _ _ (cycle_month_ok y0 m Hy Hm)) as [_ H].
  replace (y0 + 400 * k + m / 12) with (y0 + m / 12 + 400 * k) by lia.
  rewrite dateToDays_shift, daysIn_shift.
  replace (time.dateToDays (y0 + m / 12) (m mod 12 + 1) 1 + 146097 * k - 1)
    with (time.dateToDays (y0 + m / 12) (m mod 12 + 1) 1 - 1 + 146097 * k)
    by lia.
  rewrite civil_shift.
  destruct (time.civil _) as [[y2 m2] d2]. exact H.
Qed.

(* --------------------------------------------------------------------- *)
(** ** Next and Prev                                                     *)
(* --------------------------------------------------------------------- *)

Lemma Add_Add t a b : Time.Add (Time.Add t a) b = Time.Add t (a + b).
Proof. unfold Time.Add. simpl. f_equal. lia. Qed.

Lemma Add_0 t : Time.Add t 0 = t.
Proof. destruct t. unfold Time.Add. simpl. f_equal. lia. Qed.

Lemma minutesAfter_S t k :
  minutesAfter (Time.Add t time.Minute) k = minutesAfter t (S k).
Proof.
  unfold minutesAfter. rewrite Add_Add. f_equal. lia.
Qed.

Lemma minutesBefore_S t k :
  minutesBefore (Time.Add t (- time.Minute)) k = minutesBefore t (S k).
Proof.
  unfold minutesBefore. rewrite Add_Add. f_equal. lia.
Qed.

Lemma minutesAfter_1 t : minutesAfter t 1 = Time.Add t time.Minute.
Proof. reflexivity. Qed.

Lemma minutesBefore_1 t : minutesBefore t 1 = Time.Add t (- time.Minute).
Proof. reflexivity. Qed.

(** What the loop of [nextNoTruncate] returns is the first minute after
    [t] that matches. *)
Lemma nextLoop_sound fuel s t r :
  nextLoop fuel s t = Some r ->
  exists k, (1 <= k <= fuel)%nat /\ r = minutesAfter t k
            /\ Matches s r = true
            /\ forall i, (1 <= i < k)%nat -> Matches s (minutesAfter t i) = false.
Proof.
  revert t. induction fuel as [| fuel IH]; intros t H; [discriminate |].
  simpl in H. destruct (Matches s (Time.Add t time.Minute)) eqn:E.
  - inversion H; subst. exists 1%nat.
    split; [lia |]. split; [reflexivity |]. split; [exact E |].
    intros i Hi. lia.
  - destruct (IH _ H) as (k & Hk & -> & Hm & Hfirst).
    exists (S k). rewrite minutesAfter_S in *.
    split; [lia |]. split; [reflexivity |]. split; [exact Hm |].
    intros i Hi. destruct i as [| i]; [lia |].
    destruct i as [| i].
    + rewrite minutesAfter_1. exact E.
    + rewrite <- minutesAfter_S. apply Hfirst. lia.
Qed.

(** And it returns it, given fuel for that many minutes. *)
Lemma nextLoop_first k s t fuel :
  (1 <= k <= fuel)%nat ->
  (forall i, (1 <= i < k)%nat -> Matches s (minutesAfter t i) = false) ->
  Matches s (minutesAfter t k) = true ->
  nextLoop fuel s t = Some (minutesAfter t k).
Proof.
  revert t fuel. induction k as [| k IH]; intros t fuel Hk Hq Hm; [lia |].
  destruct fuel as [| fuel]; [lia |]. simpl.
  destruct k as [| k].
  - rewrite minutesAfter_1 in Hm. rewrite Hm. reflexivity.
  - rewrite <- minutesAfter_1. rewrite (Hq 1%nat) by lia.
    rewrite minutesAfter_1, <- minutesAfter_S. apply IH.
    + lia.
    + intros i Hi. rewrite minutesAfter_S. apply Hq. lia.
    + rewrite minutesAfter_S. exact Hm.
Qed.

Lemma nextLoop_complete k s t :
  (1 <= k)%nat -> Matches s (minutesAfter t k) = true ->
  exists r, nextLoop k s t = Some r.
Proof.
  revert t. induction k as [| k IH]; intros t Hk Hm; [lia |].
  simpl. destruct (Matches s (Time.Add t time.Minute)) eqn:E; [eauto |].
  destruct k as [| k]; [rewrite minutesAfter_1 in Hm; congruence |].
  apply IH; [lia |]. rewrite minutesAfter_S. exact Hm.
Qed.

Lemma nextLoop_more fuel fuel' s t r :
  nextLoop fuel s t = Some r -> (fuel <= fuel')%nat ->
  nextLoop fuel' s t = Some r.
Proof.
  intros H Hle. destruct (nextLoop_sound _ _ _ _ H) as (k & Hk & -> & Hm & Hq).
  apply nextLoop_first; [lia | exact Hq | exact Hm].
Qed.

Lemma nextLoop_never s t :
  (forall u, Matches s u = false) -> forall fuel, nextLoop fuel s t = None.
Proof.
  intros H fuel. revert t. induction fuel as [| fuel IH]; intros t; [reflexivity |].
  simpl. rewrite H. apply IH.
Qed.

Lemma prevLoop_S fuel s t :
  prevLoop (S fuel) s t =
  if Matches s (Time.Add t (- time.Minute))
  then Some (Time.Add t (- time.Minute))
  else prevLoop fuel s (Time.Add t (- time.Minute)).
Proof. reflexivity. Qed.

Lemma prevLoop_sound fuel s t r :
  prevLoop fuel s t = Some r ->
  exists k, (1 <= k <= fuel)%nat /\ r = minutesBefore t k
            /\ Matches s r = true
            /\ forall i, (1 <= i < k)%nat -> Matches s (minutesBefore t i) = false.
Proof.
  revert t. induction fuel as [| fuel IH]; intros t H; [discriminate |].
  rewrite prevLoop_S in H.
  destruct (Matches s (Time.Add t (- time.Minute))) eqn:E.
  - inversion H; subst. exists 1%nat.
    split; [lia |]. split; [reflexivity |]. split; [exact E |].
    intros i Hi. lia.
  - destruct (IH _ H) as (k & Hk & -> & Hm & Hfirst).
    exists (S k). rewrite minutesBefore_S in *.
    split; [lia |]. split; [reflexivity |]. split; [exact Hm |].
    intros i Hi. destruct i as [| i]; [lia |].
    destruct i as [| i].
    + rewrite minutesBefore_1. exact E.
    + rewrite <- minutesBefore_S. apply Hfirst. lia.
Qed.

Lemma prevLoop_complete k s t :
  (1 <= k)%nat -> Matches s (minutesBefore t k) = true ->
  exists r, prevLoop k s t = Some r.
Proof.
  revert t. induction k as [| k IH]; intros t Hk Hm; [lia |].
  rewrite prevLoop_S.
  destruct (Matches s (Time.Add t (- time.Minute))) eqn:E; [eauto |].
  destruct k as [| k]; [rewrite minutesBefore_1 in Hm; congruence |].
  apply IH; [lia |]. rewrite minutesBefore_S. exact Hm.
Qed.

Lemma prevLoop_never s t :
  (forall u, Matches s u = false) -> forall fuel, prevLoop fuel s t = None.
Proof.
  intros H fuel. revert t. induction fuel as [| fuel IH]; intros t; [reflexivity |].
  rewrite prevLoop_S, H. apply IH.
Qed.

Lemma Matches_true s t :
  Matches s t = true ->
  isWeekday s t = true /\ isMonth s t = true /\ isDay s t = true
  /\ isHour s t = true /\ isMinute s t = true.
Proof.
  unfold Matches. rewrite !andb_true_iff. tauto.
Qed.

Lemma quietAfter_spec n s t :
  quietAfter n s t = true ->
  forall i, (1 <= i <= n)%nat -> Matches s (minutesAfter t i) = false.
Proof.
  revert t. induction n as [| n IH]; intros t H i Hi; [lia |].
  simpl in H.
  assert (Hhere : Matches s (Time.Add t time.Minute) = false
                  /\ quietAfter n s (Time.Add t time.Minute) = true).
  { destruct (Matches s (Time.Add t time.Minute)) eqn:E.
    - apply Matches_true in E. destruct E as (_ & _ & _ & Hh & Hm).
      rewrite Hm, Hh in H. discriminate.
    - split; [reflexivity |].
      destruct (isMinute s _); [destruct (isHour s _) |]; exact H. }
  destruct Hhere as [Hno Hrest].
  destruct i as [| i]; [lia |]. destruct i as [| i].
  - rewrite minutesAfter_1. exact Hno.
  - rewrite <- minutesAfter_S. apply (IH _ Hrest). lia.
Qed.

(** Truncation to the minute goes back by less than a minute. *)
Lemma Truncate_minute t :
  let t0 := Time.Truncate t time.Minute in
  time.unixNano t0 <= time.unixNano t < time.unixNano t0 + time.Minute
  /\ time.loc t0 = time.loc t.
Proof.
  unfold Time.Truncate. change (time.Minute <=? 0) with false. cbv iota zeta.
  unfold Time.Add. cbn [time.unixNano time.loc].
  pose proof (Z.mod_pos_bound (time.unixNano t + 62135596800 * time.Second)
                time.Minute ltac:(reflexivity)).
  split; [lia | reflexivity].
Qed.

(* --------------------------------------------------------------------- *)
(** ** Times in a zone without transitions                               *)
(* --------------------------------------------------------------------- *)

Lemma lookup_fixed l sec :
  time.tx l = [] -> time.lookup l sec = (time.zone l, time.alpha, time.omega).
Proof. unfold time.lookup. intros ->. reflexivity. Qed.

Lemma wall_fixed t :
  time.tx (time.loc t) = [] -> Time.wall t = Time.Unix t + time.zone (time.loc t).
Proof. intros H. unfold Time.wall. rewrite lookup_fixed by exact H. reflexivity. Qed.

(** Any valid date of a time: what [civil_valid] says of its fields. *)
Lemma date_valid t :
  1 <= Time.Month t <= 12
  /\ 1 <= Time.Day t <= time.daysIn (Time.Month t) (Time.Year t)
  /\ Time.wall t / 86400 < time.dateToDays (Time.Year t + 1) 1 1.
Proof.
  unfold Time.Month, Time.Day, Time.Year, Time.date.
  destruct (time.civil (Time.wall t / 86400)) as [[y m] d] eqn:E.
  exact (civil_valid _ _ _ _ E).
Qed.

Lemma daysIn_le_31 m y : time.daysIn m y <= 31.
Proof.
  unfold time.daysIn.
  destruct ((m =? 2) && time.isLeap y); [lia |].
  unfold time.daysBefore.
  destruct (Z.to_nat m) as [| [| [| [| [| [| [| [| [| [| [| [| [| [| n]]]]]]]]]]]]]] eqn:E.
  all: try (replace (Z.to_nat (m - 1)) with (pred (Z.to_nat m)) by lia;
            rewrite E; simpl; lia).
  all: destruct (Z.to_nat (m - 1)) as [| [| [| [| [| [| [| [| [| [| [| [| [| k]]]]]]]]]]]]];
       simpl; try lia; destruct n; simpl; try lia; destruct k; simpl; lia.
Qed.

(** Midnight on the first of a month, in a zone without transitions. *)
Lemma Date_first_fixed y m l :
  time.tx l = [] ->
  time.Date y m 1 0 0 0 0 l =
  {| time.unixNano :=
       (time.dateToDays (y + (m - 1) / 12) ((m - 1) mod 12 + 1) 1 * 86400
        - time.zone l) * 1000000000;
     time.loc := l |}.
Proof.
  intros Hl. unfold time.Date.
  change (time.norm y (m - 1) 12) with (y + (m - 1) / 12, (m - 1) mod 12).
  change (time.norm 0 0 1000000000) with (0, 0). cbv beta iota zeta.
  change (time.norm 0 0 60) with (0, 0). cbv beta iota zeta.
  change (time.norm 0 0 60) with (0, 0). cbv beta iota zeta.
  change (time.norm 1 0 24) with (1, 0). cbv beta iota zeta.
  rewrite lookup_fixed by exact Hl. cbv beta iota zeta.
  rewrite lookup_fixed by exact Hl. cbn [fst].
  f_equal.
  destruct (time.zone l =? 0) eqn:E.
  - apply Z.eqb_eq in E. rewrite E. lia.
  - destruct (_ || _); lia.
Qed.

(** The wall clock of an instant given in whole seconds. *)
Lemma wall_seconds sec l :
  time.tx l = [] ->
  Time.wall {| time.unixNano := sec * 1000000000; time.loc := l |}
  = sec + time.zone l.
Proof.
  intros Hl. rewrite wall_fixed by exact Hl.
  unfold Time.Unix. cbn [time.unixNano time.loc].
  rewrite Z.div_mul by lia. reflexivity.
Qed.

(** The day that [isDay] computes for [L] is the last of the month of
    [t], when the zone has no transition. *)
Lemma lastOfThisMonth_fixed t :
  time.tx (time.loc t) = [] ->
  Time.Day
    (Time.Add
       (time.Date (Time.Year t) (Time.Month t + 1) 1 0 0 0 0 (Time.Location t))
       (-24 * time.Hour))
  = time.daysIn (Time.Month t) (Time.Year t).
Proof.
  intros Hl. unfold Time.Location.
  rewrite Date_first_fixed by exact Hl.
  replace (Time.Month t + 1 - 1) with (Time.Month t) by lia.
  set (D := time.dateToDays _ _ 1).
  unfold Time.Add. cbn [time.unixNano time.loc].
  replace ((D * 86400 - time.zone (time.loc t)) * 1000000000 + -24 * time.Hour)
    with (((D - 1) * 86400 - time.zone (time.loc t)) * 1000000000)
    by (unfold time.Hour, time.Minute, time.Second; lia).
  unfold Time.Day, Time.date. rewrite wall_seconds by exact Hl.
  replace ((D - 1) * 86400 - time.zone (time.loc t) + time.zone (time.loc t))
    with ((D - 1) * 86400) by lia.
  rewrite Z.div_mul by lia.
  subst D. apply civil_last. apply date_valid.
Qed.

(** Midnight of January 1: its fields, and that it comes after every
    instant of the year before. *)
Lemma newYear_fields y l :
  time.tx l = [] ->
  let r := time.Date y 1 1 0 0 0 0 l in
  Time.Year r = y /\ Time.Month r = 1 /\ Time.Day r = 1
  /\ Time.Hour r = 0 /\ Time.Minute r = 0.
Proof.
  intros Hl r. subst r. rewrite Date_first_fixed by exact Hl.
  change ((1 - 1) / 12) with 0. change ((1 - 1) mod 12 + 1) with 1.
  rewrite Z.add_0_r.
  set (D := time.dateToDays y 1 1).
  unfold Time.Year, Time.Month, Time.Day, Time.Hour, Time.Minute, Time.date.
  rewrite wall_seconds by exact Hl.
  replace (D * 86400 - time.zone l + time.zone l) with (D * 86400) by lia.
  rewrite Z.div_mul by lia.
  replace (D * 86400) with (D * 24 * 3600) at 2 by lia.
  replace (D * 86400) with (0 + D * 86400) at 1 by lia.
  rewrite Z.mod_add, Z.mod_mul by lia.
  subst D. rewrite civil_first by lia. repeat split; reflexivity.
Qed.

Lemma newYear_after t :
  time.tx (time.loc t) = [] ->
  Time.After (time.Date (Time.Year t + 1) 1 1 0 0 0 0 (Time.Location t)) t.
Proof.
  intros Hl. unfold Time.After, Time.Location.
  rewrite Date_first_fixed by exact Hl.
  change ((1 - 1) / 12) with 0. change ((1 - 1) mod 12 + 1) with 1.
  rewrite Z.add_0_r. cbn [time.unixNano].
  destruct (date_valid t) as (_ & _ & H).
  rewrite wall_fixed in H by exact Hl. unfold Time.Unix in H.
  set (D := time.dateToDays _ 1 1) in *.
  set (z := time.zone (time.loc t)) in *.
  set (n := time.unixNano t) in *.
  pose proof (Z.div_mod n 1000000000 ltac:(lia)).
  pose proof (Z.mod_pos_bound n 1000000000 ltac:(lia)).
  pose proof (Z.div_mod (n / 1000000000 + z) 86400 ltac:(lia)).
  pose proof (Z.mod_pos_bound (n / 1000000000 + z) 86400 ltac:(lia)).
  lia.
Qed.

(* --------------------------------------------------------------------- *)
(** ** Matching                                                          *)
(* --------------------------------------------------------------------- *)

Lemma included_In x l : included x l = true <-> In x l.
Proof.
  induction l as [| v l IH]; simpl; [split; [discriminate | tauto] |].
  destruct (x =? v) eqn:E.
  - apply Z.eqb_eq in E. split; auto.
  - apply Z.eqb_neq in E. rewrite IH. split; [auto | intros [H | H]; [congruence | exact H]].
Qed.

Lemma Join_Split s sep :
  strings.Join (strings.Split s sep) (String sep "") = s.
Proof.
  induction s as [| c s IH]; [reflexivity |].
  simpl. destruct (Ascii.eqb c sep) eqn:E.
  - apply Ascii.eqb_eq in E. subst c.
    destruct (strings.Split s sep) as [| x rest] eqn:Es.
    + exfalso. exact (Split_nonempty s sep Es).
    + change (strings.Join ("" :: x :: rest) (String sep ""))
        with (String sep (strings.Join (x :: rest) (String sep ""))).
      rewrite IH. reflexivity.
  - destruct (strings.Split s sep) as [| x rest] eqn:Es.
    + exfalso. exact (Split_nonempty s sep Es).
    + destruct rest as [| y rest].
      * simpl in *. congruence.
      * change (strings.Join (String c x :: y :: rest) (String sep ""))
          with (String c (strings.Join (x :: y :: rest) (String sep ""))).
        rewrite IH. reflexivity.
Qed.

(** The schedule that [New] makes of the yearly expression. *)
Lemma yearly_schedule cron l s err :
  New cron l = (Some s, err) ->
  Schedule_String s = "0 0 1 1 *" ->
  err = None
  /\ s = {| values := ["0"; "0"; "1"; "1"; "*"]; loc := locOr l;
            minutes := Some [0]; allowAnyMinute := false;
            hours := Some [0]; allowAnyHour := false;
            days := Some [1]; allowAnyDay := false;
            months := Some [1]; allowAnyMonth := false;
            weekdays := None; allowAnyWeekday := true |}.
Proof.
  intros H Hs. apply New_some in H. cbv zeta in H.
  destruct H as (_ & -> & -> & Hv & _).
  unfold Schedule_String in Hs. rewrite Hv in Hs.
  change " " with (String " " "") in Hs. rewrite Join_Split in Hs.
  rewrite Hs.
  change (strings.Split "0 0 1 1 *" " ") with ["0"; "0"; "1"; "1"; "*"].
  split; reflexivity.
Qed.

Lemma After_minutesAfter t k : (1 <= k)%nat -> Time.After (minutesAfter t k) t.
Proof.
  intros H. unfold Time.After, minutesAfter, Time.Add. cbn [time.unixNano].
  unfold time.Minute, time.Second. lia.
Qed.

Lemma Before_minutesBefore t k : (1 <= k)%nat -> Time.Before (minutesBefore t k) t.
Proof.
  intros H. unfold Time.Before, minutesBefore, Time.Add. cbn [time.unixNano].
  unfold time.Minute, time.Second. lia.
Qed.

(** C1, as amended.  For a schedule that [New] returns without error and
    any time [t], with [t0] the time [t] truncated to the minute in the
    location of the schedule:
    - unless the schedule is the yearly expression, what [Next] returns
      is the first minute after [t0] that matches - so it is strictly
      after [t0] and matches - and [Next] returns as soon as its loop has
      fuel to reach a minute that matches;
    - for the yearly expression, in a location without transitions,
      [Next] returns a time strictly after [t0] that matches;
    - what [Prev] returns is the first minute before [t0] that matches,
      strictly before [t], and [Prev] returns as soon as its loop has fuel
      to reach a minute that matches. *)
Theorem next_prev_sound
    (cron : string) (l : option time.Location) (s : Schedule) :
  New cron l = (Some s, None) ->
  forall t,
  let t0 := Time.Truncate (Time.In t (loc s)) time.Minute in
  (Schedule_String s <> "0 0 1 1 *" ->
     (forall fuel r,
        Next fuel s t = Some r ->
        Time.After r t0 /\ Matches s r = true
        /\ exists k, (1 <= k <= fuel)%nat /\ r = minutesAfter t0 k
             /\ forall i, (1 <= i < k)%nat ->
                          Matches s (minutesAfter t0 i) = false)
     /\ (forall k, (1 <= k)%nat -> Matches s (minutesAfter t0 k) = true ->
                   exists r, Next k s t = Some r))
  /\ (Schedule_String s = "0 0 1 1 *" -> time.tx (loc s) = [] ->
      forall fuel,
        exists r, Next fuel s t = Some r
                  /\ Time.After r t0 /\ Matches s r = true)
  /\ (forall fuel r,
        Prev fuel s t = Some r ->
        Time.Before r t /\ Matches s r = true
        /\ exists k, (1 <= k <= fuel)%nat /\ r = minutesBefore t0 k
             /\ forall i, (1 <= i < k)%nat ->
                          Matches s (minutesBefore t0 i) = false)
  /\ (forall k, (1 <= k)%nat -> Matches s (minutesBefore t0 k) = true ->
                exists r, Prev k s t = Some r).
Proof.
  intros HN t t0.
  assert (Hm : Schedule_String s <> Monthly).
  { intros E. pose proof (String_has_space _ _ _ _ HN) as Hsp.
    rewrite E in Hsp. discriminate. }
  split; [| split; [| split]].
  - intros Hy. split.
    + intros fuel r H. unfold Next in H. fold t0 in H.
      rewrite nextNoTruncate_loop in H by assumption.
      destruct (nextLoop_sound _ _ _ _ H) as (k & Hk & -> & HM & Hq).
      split; [apply After_minutesAfter; lia |]. split; [exact HM |].
      exists k. repeat split; try lia. exact Hq.
    + intros k Hk HM. unfold Next. fold t0.
      rewrite nextNoTruncate_loop by assumption.
      apply nextLoop_complete; assumption.
  - intros Hy Hl fuel.
    destruct (yearly_schedule _ _ _ _ HN Hy) as [_ Hs].
    unfold Next. fold t0. unfold nextNoTruncate. cbv zeta. rewrite Hy.
    change (("0 0 1 1 *" =? "0 0 1 1 *")%string) with true. cbv iota.
    eexists. split; [reflexivity |].
    assert (Hl0 : time.tx (time.loc t0) = []).
    { destruct (Truncate_minute (Time.In t (loc s))) as [_ E].
      fold t0 in E. rewrite E. exact Hl. }
    split.
    + apply newYear_after. exact Hl0.
    + destruct (newYear_fields (Time.Year t0 + 1) (Time.Location t0) Hl0)
        as (_ & HMo & HD & HH & HMi).
      unfold Matches, isWeekday, isMonth, isDay, isHour, isMinute.
      unfold januaryInd. rewrite HMo, HD, HH, HMi. rewrite Hs. reflexivity.
  - intros fuel r H. unfold Prev in H. fold t0 in H.
    destruct (prevLoop_sound _ _ _ _ H) as (k & Hk & -> & HM & Hq).
    split.
    + pose proof (Before_minutesBefore t0 k ltac:(lia)) as Hb.
      destruct (Truncate_minute (Time.In t (loc s))) as [Ht _].
      fold t0 in Ht. unfold Time.Before in *.
      change (time.unixNano (Time.In t (loc s))) with (time.unixNano t) in Ht.
      lia.
    + split; [exact HM |]. exists k. repeat split; try lia. exact Hq.
  - intros k Hk HM. unfold Prev. fold t0.
    apply prevLoop_complete; assumption.
Qed.

(** The daily schedule of the tests: from 2024-10-31T12:30Z the next
    occurrence is midnight, and it matches. *)
Lemma next_prev_sound_witness :
  let s := mustNew "0 0 * * *" None in
  let t := time.Date 2024 10 31 12 30 0 0 time.UTC in
  exists r, Next 1000 s t = Some r
            /\ Time.After r (Time.Truncate (Time.In t (loc s)) time.Minute)
            /\ Matches s r = true.
Proof.
  intros s t.
  destruct (next_prev_sound "0 0 * * *" None s eq_refl t) as [H _].
  destruct (H ltac:(discriminate)) as [Hsound _].
  exists (time.Date 2024 11 1 0 0 0 0 time.UTC).
  assert (E : Next 1000 s t = Some (time.Date 2024 11 1 0 0 0 0 time.UTC))
    by (vm_compute; reflexivity).
  destruct (Hsound _ _ E) as (Ha & Hm & _).
  split; [exact E | split; [exact Ha | exact Hm]].
Defined.

(** No day of February is day 31. *)
Lemma february_31 t : Time.Month t = 2 -> Time.Day t <> 31.
Proof.
  intros Hm Hd. destruct (date_valid t) as (_ & [_ H] & _).
  rewrite Hm, Hd in H. unfold time.daysIn in H.
  destruct ((2 =? 2) && time.isLeap (Time.Year t)); [lia |].
  change (time.daysBefore 2 - time.daysBefore (2 - 1)) with 28 in H. lia.
Qed.

Lemma february_31_never t : Matches (mustNew "0 0 31 2 *" None) t = false.
Proof.
  destruct (Matches (mustNew "0 0 31 2 *" None) t) eqn:E; [| reflexivity].
  apply Matches_true in E. destruct E as (_ & Hmo & Hd & _).
  change (isMonth (mustNew "0 0 31 2 *" None) t)
    with (included (Time.Month t) [2]) in Hmo.
  change (isDay (mustNew "0 0 31 2 *" None) t)
    with (if included (Time.Day t) [31] then true else false) in Hd.
  simpl in Hmo, Hd.
  destruct (Time.Month t =? 2) eqn:E2; [| discriminate].
  destruct (Time.Day t =? 31) eqn:E3; [| discriminate].
  apply Z.eqb_eq in E2, E3. exfalso. exact (february_31 t E2 E3).
Qed.

Lemma Next_eq fuel s t :
  Next fuel s t
  = nextNoTruncate fuel s (Time.Truncate (Time.In t (loc s)) time.Minute).
Proof. reflexivity. Qed.

Lemma Prev_eq fuel s t :
  Prev fuel s t
  = prevLoop fuel s (Time.Truncate (Time.In t (loc s)) time.Minute).
Proof. reflexivity. Qed.

Lemma february_31_string :
  Schedule_String (mustNew "0 0 31 2 *" None) = "0 0 31 2 *".
Proof. vm_compute. reflexivity. Qed.

(** C1, as stated, fails: [New] accepts ["0 0 31 2 *"], the thirty-first
    of February, which no minute matches; [Next] and [Prev] step minute by
    minute without end and return for no time and no amount of fuel. *)
Lemma next_never_returns :
  New "0 0 31 2 *" None = (Some (mustNew "0 0 31 2 *" None), None)
  /\ ~ (exists fuel t r, Next fuel (mustNew "0 0 31 2 *" None) t = Some r)
  /\ ~ (exists fuel t r, Prev fuel (mustNew "0 0 31 2 *" None) t = Some r).
Proof.
  split; [vm_compute; reflexivity |]. split.
  - intros (fuel & t & r & H). rewrite Next_eq in H.
    rewrite nextNoTruncate_loop in H
      by (rewrite february_31_string; discriminate).
    rewrite nextLoop_never in H by exact february_31_never. discriminate.
  - intros (fuel & t & r & H). rewrite Prev_eq in H.
    rewrite prevLoop_never in H by exact february_31_never. discriminate.
Qed.

(* --------------------------------------------------------------------- *)
(** ** The schedules of the examples                                     *)
(* --------------------------------------------------------------------- *)

(** The schedule of ["5/10 4,5 * * *"]. *)
Lemma stepSchedule l :
  New "5/10 4,5 * * *" l =
  (Some {| values := ["5/10"; "4,5"; "*"; "*"; "*"]; loc := locOr l;
           minutes := Some [5; 15; 25; 35; 45; 55]; allowAnyMinute := false;
           hours := Some [4; 5]; allowAnyHour := false;
           days := None; allowAnyDay := true;
           months := None; allowAnyMonth := true;
           weekdays := None; allowAnyWeekday := true |}, None).
Proof. destruct l; vm_compute; reflexivity. Qed.

(** C8.  [New] accepts ["5/10 4,5 * * *"]: the minutes are every tenth
    from 5 up to the maximum of the field, the hours are 4 and 5, the
    other fields take any value.  So a time matches exactly when its hour
    is one of the hours and its minute one of the minutes: 04:15, 04:25
    and 04:35 of any day match and 04:12 does not.  In UTC the next
    occurrence after 2024-02-21T11:30:00Z is 2024-02-22T04:05:00Z. *)
Theorem step_from_single_value (l : option time.Location) :
  exists s,
    New "5/10 4,5 * * *" l = (Some s, None)
    /\ minutes s = Some [5; 15; 25; 35; 45; 55]
    /\ hours s = Some [4; 5]
    /\ (forall t, Matches s t =
                  included (Time.Hour t) [4; 5]
                  && included (Time.Minute t) [5; 15; 25; 35; 45; 55])
    /\ (forall t, Time.Hour t = 4 ->
                  Time.Minute t = 15 \/ Time.Minute t = 25 \/ Time.Minute t = 35 ->
                  Matches s t = true)
    /\ (forall t, Time.Minute t = 12 -> Matches s t = false)
    /\ (l = None ->
        forall fuel, (995 <= fuel)%nat ->
          Next fuel s (time.Date 2024 2 21 11 30 0 0 time.UTC)
          = Some (time.Date 2024 2 22 4 5 0 0 time.UTC)).
Proof.
  eexists. split; [apply stepSchedule |].
  split; [reflexivity |]. split; [reflexivity |].
  assert (HM : forall s t,
    allowAnyWeekday s = true -> allowAnyMonth s = true -> allowAnyDay s = true ->
    allowAnyHour s = false -> allowAnyMinute s = false ->
    Matches s t = included (Time.Hour t) (elems (hours s))
                  && included (Time.Minute t) (elems (minutes s))).
  { intros s t H1 H2 H3 H4 H5.
    unfold Matches, isWeekday, isMonth, isDay, isHour, isMinute.
    rewrite H1, H2, H3, H4, H5. reflexivity. }
  split; [intros t; apply HM; reflexivity |].
  split; [| split].
  - intros t Hh Hm. rewrite HM by reflexivity. cbn [hours minutes elems].
    rewrite Hh. destruct Hm as [-> | [-> | ->]]; reflexivity.
  - intros t Hm. rewrite HM by reflexivity. cbn [hours minutes elems].
    rewrite Hm. apply andb_false_r.
  - intros -> fuel Hfuel.
    apply (nextLoop_more 995); [| exact Hfuel].
    vm_compute. reflexivity.
Qed.

(** 04:15 on 2024-02-22 in UTC matches. *)
Lemma step_from_single_value_witness :
  Matches (mustNew "5/10 4,5 * * *" None)
    (time.Date 2024 2 22 4 15 0 0 time.UTC) = true.
Proof.
  destruct (step_from_single_value None) as (s & Hs & _ & _ & _ & H & _).
  assert (E : s = mustNew "5/10 4,5 * * *" None).
  { unfold mustNew. rewrite Hs. reflexivity. }
  rewrite <- E. apply H; [reflexivity | left; reflexivity].
Defined.

(** The schedule of ["30 12 L * *"]. *)
Lemma lastDaySchedule l :
  New "30 12 L * *" l =
  (Some {| values := ["30"; "12"; "L"; "*"; "*"]; loc := locOr l;
           minutes := Some [30]; allowAnyMinute := false;
           hours := Some [12]; allowAnyHour := false;
           days := None; allowAnyDay := false;
           months := None; allowAnyMonth := true;
           weekdays := None; allowAnyWeekday := true |}, None).
Proof. destruct l; vm_compute; reflexivity. Qed.

Lemma lastDay_mustNew l :
  mustNew "30 12 L * *" l =
  {| values := ["30"; "12"; "L"; "*"; "*"]; loc := locOr l;
     minutes := Some [30]; allowAnyMinute := false;
     hours := Some [12]; allowAnyHour := false;
     days := None; allowAnyDay := false;
     months := None; allowAnyMonth := true;
     weekdays := None; allowAnyWeekday := true |}.
Proof. unfold mustNew. rewrite lastDaySchedule. reflexivity. Qed.

(** What ["30 12 L * *"] matches, in terms of the day that [isDay]
    computes. *)
Lemma lastDay_Matches l t :
  Matches (mustNew "30 12 L * *" l) t =
  (Time.Day
     (Time.Add
        (time.Date (Time.Year t) (Time.Month t + 1) 1 0 0 0 0 (Time.Location t))
        (-24 * time.Hour)) =? Time.Day t)
  && (Time.Hour t =? 12) && (Time.Minute t =? 30).
Proof.
  rewrite lastDay_mustNew.
  unfold Matches, isWeekday, isMonth, isDay, isHour, isMinute.
  cbn [allowAnyWeekday allowAnyMonth allowAnyDay allowAnyHour allowAnyMinute
       days hours minutes elems included Day value values].
  change (nth (Z.to_nat dayInd) ["30"; "12"; "L"; "*"; "*"] "" =? str Last)%string
    with true.
  cbv iota.
  destruct (Time.Hour t =? 12), (Time.Minute t =? 30);
    rewrite ?andb_true_r, ?andb_false_r; reflexivity.
Qed.

(** In a location without transitions ["30 12 L * *"] matches exactly
    minute 30 of hour 12 of the last day of a month. *)
Lemma lastDay_fixed l t :
  time.tx (time.loc t) = [] ->
  Matches (mustNew "30 12 L * *" l) t =
  (Time.Day t =? time.daysIn (Time.Month t) (Time.Year t))
  && (Time.Hour t =? 12) && (Time.Minute t =? 30).
Proof.
  intros Hl. rewrite lastDay_Matches, lastOfThisMonth_fixed by exact Hl.
  rewrite (Z.eqb_sym (time.daysIn _ _)). reflexivity.
Qed.

(** In UTC, from 2024-02-21T11:35:00Z, the next occurrence of
    ["30 12 L * *"] is on the 29th, the last day of that February. *)
Lemma lastDay_next fuel :
  (Z.to_nat 11575 <= fuel)%nat ->
  Next fuel (mustNew "30 12 L * *" None)
    (time.Date 2024 2 21 11 35 0 0 time.UTC)
  = Some (time.Date 2024 2 29 12 30 0 0 time.UTC).
Proof.
  intros Hfuel. rewrite Next_eq.
  rewrite nextNoTruncate_loop
    by (rewrite lastDay_mustNew; vm_compute; discriminate).
  set (t0 := Time.Truncate _ _).
  replace (time.Date 2024 2 29 12 30 0 0 time.UTC)
    with (minutesAfter t0 (Z.to_nat 11575)) by (vm_compute; reflexivity).
  apply nextLoop_first.
  - lia.
  - intros i Hi.
    apply (quietAfter_spec (Z.to_nat 11574)); [vm_cast_no_check (eq_refl true) | lia].
  - vm_compute. reflexivity.
Qed.

(** C7: where the code departs from it.  In a location whose clocks go
    forward on the last day of a month the day that [isDay] computes is
    off by one: 24 hours before midnight of April 1 is 23:00 of March 30.
    At 12:30 on 2024-03-31 in Berlin, the last day of March,
    ["30 12 L * *"] does not match; at 12:30 the day before it does. *)
Theorem last_day_missed_when_clocks_change :
  let s := mustNew "30 12 L * *" (Some berlin) in
  let t := time.Date 2024 3 31 12 30 0 0 berlin in
  let u := time.Date 2024 3 30 12 30 0 0 berlin in
  New "30 12 L * *" (Some berlin) = (Some s, None)
  /\ (Time.Year t, Time.Month t, Time.Day t, Time.Hour t, Time.Minute t)
     = (2024, 3, 31, 12, 30)
  /\ Time.Day t = time.daysIn (Time.Month t) (Time.Year t)
  /\ Matches s t = false
  /\ (Time.Year u, Time.Month u, Time.Day u, Time.Hour u, Time.Minute u)
     = (2024, 3, 30, 12, 30)
  /\ Matches s u = true.
Proof. vm_compute. repeat split. Qed.

(** C2: where the code departs from it.  A list that gives a value twice:
    the deferred function of [parse] sorts the slice that was returned,
    but the compacted slice it computes is not the one returned, which
    keeps its length and gets a zero in the place of the duplicate.  For
    the day field the result is neither ascending nor within 1..31; for
    the minute field the schedule also fires at minute 0. *)
Theorem parse_list_with_duplicate :
  parse dayOpts "1,1" = (Some [1; 0], None)
  /\ ~ ascending [1; 0]
  /\ ~ within dayOpts 0
  /\ parse minuteOpts "5,5" = (Some [5; 0], None)
  /\ New "5,5 * * * *" None = (Some (mustNew "5,5 * * * *" None), None)
  /\ Matches (mustNew "5,5 * * * *" None)
       (time.Date 2024 2 21 12 0 0 0 time.UTC) = true.
Proof.
  split; [vm_compute; reflexivity |].
  split; [intros [H _]; apply Forall_inv in H; cbv beta in H; lia |].
  split; [intros [H _]; vm_compute in H; apply H; reflexivity |].
  repeat split; vm_compute; reflexivity.
Qed.

(** C3: where the code departs from it.  [parse] takes [L] without error
    in every field, and next to other items of a list in the day field;
    [New] then returns a schedule and no error. *)
Theorem last_marker_not_refused :
  parse minuteOpts "L" = (None, None)
  /\ parse hourOpts "L" = (None, None)
  /\ parse monthOpts "L" = (None, None)
  /\ parse weekdayOpts "L" = (None, None)
  /\ parse dayOpts "1,L" = (Some [1], None)
  /\ snd (New "L * * * *" None) = None
  /\ snd (New "* L * * *" None) = None
  /\ snd (New "* * * L *" None) = None
  /\ snd (New "* * * * L" None) = None
  /\ snd (New "* * 1,L * *" None) = None
  /\ parse dayOpts "L" = (None, None)
  /\ snd (New "* * L * *" None) = None.
Proof. repeat split; vm_compute; reflexivity. Qed.

(** C6: where the code departs from it.  [New] returns the schedule of
    ["L * * * *"] without error: its minute field is not a wildcard and
    has no accepted value, and no time matches it. *)
Theorem minute_set_empty :
  let s := mustNew "L * * * *" None in
  New "L * * * *" None = (Some s, None)
  /\ allowAnyMinute s = false
  /\ elems (minutes s) = []
  /\ Minute s = "L"
  /\ forall t, Matches s t = false.
Proof.
  intros s.
  split; [vm_compute; reflexivity |].
  split; [vm_compute; reflexivity |].
  split; [vm_compute; reflexivity |].
  split; [vm_compute; reflexivity |].
  intros t. unfold Matches.
  change (isMinute s t) with false. apply andb_false_r.
Qed.

(* --------------------------------------------------------------------- *)
(** ** The state machine of ScheduledJob                                 *)
(* --------------------------------------------------------------------- *)

Lemma state_setState j st : state (setState j st) = st.
Proof. reflexivity. Qed.

Lemma Suspend_spec j :
  Suspend j = if state j =? ScheduleStarted
              then (true, setState j ScheduleSuspended) else (false, j).
Proof. reflexivity. Qed.

Lemma Resume_spec j :
  Resume j = if state j =? ScheduleSuspended
             then (true, setState j ScheduleStarted) else (false, j).
Proof. reflexivity. Qed.

Lemma Stop_proceeds ctxDone preferSend j :
  (stopCh j < 1)%nat \/ ctxDone = true ->
  exists j',
    Stop ctxDone preferSend j = Some (negb (state j =? ScheduleStopped), j')
    /\ state j' = ScheduleStopped
    /\ previouslyStarted j' = previouslyStarted j.
Proof.
  intros H. unfold Stop.
  assert (E : exists j0,
    (if (stopCh j <? 1)%nat && (preferSend || negb ctxDone)
     then Some (setStopCh j (S (stopCh j)))
     else if ctxDone then Some j else None) = Some j0
    /\ state j0 = state j /\ previouslyStarted j0 = previouslyStarted j).
  { destruct (stopCh j <? 1)%nat eqn:Hroom; simpl.
    - destruct preferSend, ctxDone; simpl; eauto.
    - destruct H as [H | ->]; [apply Nat.ltb_lt in H; congruence | eauto]. }
  destruct E as (j0 & -> & Hst & Hps). rewrite Hst.
  destruct (state j =? ScheduleStopped); simpl; eauto.
Qed.

Lemma Stop_blocks preferSend j :
  (1 <= stopCh j)%nat -> Stop false preferSend j = None.
Proof.
  intros H. unfold Stop.
  assert (Hroom : (stopCh j <? 1)%nat = false) by (apply Nat.ltb_ge; exact H).
  rewrite Hroom. reflexivity.
Qed.

Lemma Start_refused j :
  state j = ScheduleStopped \/ previouslyStarted j = true ->
  exists e, Start j = inl e.
Proof.
  intros [H | H]; unfold Start.
  - rewrite H. simpl. eauto.
  - rewrite H. destruct (state j =? ScheduleStopped); eauto.
Qed.

Lemma Start_fresh j :
  state j <> ScheduleStopped -> previouslyStarted j = false ->
  Start j = inr (start j).
Proof.
  intros H1 H2. unfold Start. rewrite H2.
  destruct (state j =? ScheduleStopped) eqn:E; [apply Z.eqb_eq in E; contradiction | reflexivity].
Qed.

(** C9, as amended.  In every state of a job: [Suspend] returns true
    exactly from Started, which it turns into Suspended, and otherwise
    returns false and changes nothing; [Resume] likewise from Suspended to
    Started; [Stop], once its [select] can proceed (the stop channel has
    room, or the context is done), leaves the state Stopped and returns
    true exactly when the state was not Stopped already, and blocks while
    the channel is full and the context is not done; [Start] returns an
    error and changes nothing when the job is stopped or was started
    before. *)
Theorem job_transitions (j : ScheduledJob) :
  (state j = ScheduleStarted ->
     Suspend j = (true, setState j ScheduleSuspended))
  /\ (state j <> ScheduleStarted -> Suspend j = (false, j))
  /\ (state j = ScheduleSuspended ->
        Resume j = (true, setState j ScheduleStarted))
  /\ (state j <> ScheduleSuspended -> Resume j = (false, j))
  /\ (forall ctxDone preferSend,
        (stopCh j < 1)%nat \/ ctxDone = true ->
        exists j',
          Stop ctxDone preferSend j
            = Some (negb (state j =? ScheduleStopped), j')
          /\ state j' = ScheduleStopped)
  /\ (forall preferSend,
        (1 <= stopCh j)%nat -> Stop false preferSend j = None)
  /\ (state j = ScheduleStopped \/ previouslyStarted j = true ->
        exists e, Start j = inl e).
Proof.
  repeat split.
  - intros H. rewrite Suspend_spec, H. reflexivity.
  - intros H. rewrite Suspend_spec.
    destruct (state j =? ScheduleStarted) eqn:E; [apply Z.eqb_eq in E; contradiction | reflexivity].
  - intros H. rewrite Resume_spec, H. reflexivity.
  - intros H. rewrite Resume_spec.
    destruct (state j =? ScheduleSuspended) eqn:E; [apply Z.eqb_eq in E; contradiction | reflexivity].
  - intros ctxDone preferSend H.
    destruct (Stop_proceeds ctxDone preferSend j H) as (j' & E & Hst & _). eauto.
  - intros preferSend. apply Stop_blocks.
  - apply Start_refused.
Qed.

(** A job made by [ScheduleFunc], suspended: [Resume] brings it back to
    Started, and a second [Start] is refused. *)
Lemma job_transitions_witness :
  let j := snd (Suspend (ScheduleFunc (mustNew "* * * * *" None) threeStrikes failing)) in
  Resume j = (true, setState j ScheduleStarted)
  /\ exists e, Start j = inl e.
Proof.
  intros j.
  destruct (job_transitions j) as (_ & _ & HR & _ & _ & _ & HS).
  split; [apply HR; reflexivity | apply HS; right; reflexivity].
Defined.

(** C9, as stated, fails: a job that was never started is stopped once,
    which fills the stop channel that nothing reads; the state is then
    Stopped, and a second [Stop] with a context that is never done does
    not return false: it does not return. *)
Lemma job_stop_twice_blocks :
  let j0 := NewScheduledJob (mustNew "* * * * *" None) threeStrikes failing in
  exists j1,
    Stop false true j0 = Some (true, j1)
    /\ state j1 = ScheduleStopped
    /\ watchStop j1 = None
    /\ Stop false true j1 = None
    /\ Stop false false j1 = None.
Proof.
  eexists. split; [reflexivity |]. repeat split.
Qed.

(* --------------------------------------------------------------------- *)
(** ** execute and the failure thresholds                                *)
(* --------------------------------------------------------------------- *)

Lemma add64_small x d :
  - 2 ^ 63 <= x + d < 2 ^ 63 -> add64 x d = x + d.
Proof.
  intros H. unfold add64.
  rewrite Z.mod_small by lia. lia.
Qed.

Lemma execute_success rt now j :
  f j rt = None ->
  ConsecutiveFailures (execute rt now j) = 0
  /\ Failures (execute rt now j) = Failures j
  /\ stopCh (execute rt now j) = stopCh j
  /\ state (execute rt now j) = state j
  /\ watching (execute rt now j) = watching j.
Proof.
  intros H. unfold execute. rewrite H. simpl. repeat split.
Qed.

Lemma execute_preserved rt now j :
  state (execute rt now j) = state j
  /\ watching (execute rt now j) = watching j
  /\ options (execute rt now j) = options j
  /\ f (execute rt now j) = f j
  /\ Runs (execute rt now j) = add64 (Runs j) 1.
Proof.
  unfold execute.
  destruct (f j rt); simpl;
    repeat match goal with |- context [if ?c then _ else _] => destruct c end;
    simpl; repeat split.
Qed.

(** A failed run below both thresholds asks for nothing; one that brings
    the consecutive failures to their threshold puts the stop signal in
    the channel. *)
Lemma execute_failure rt now j :
  f j rt <> None ->
  (MaxFailures (options j) <= 0 \/ Failures j + 1 < MaxFailures (options j)) ->
  - 2 ^ 63 <= Failures j < 2 ^ 63 - 1 ->
  - 2 ^ 63 <= ConsecutiveFailures j < 2 ^ 63 - 1 ->
  let j' := execute rt now j in
  Failures j' = Failures j + 1
  /\ ConsecutiveFailures j' = ConsecutiveFailures j + 1
  /\ stopCh j' =
       if (MaxConsecutiveFailures (options j) >? 0)
          && (ConsecutiveFailures j + 1 >=? MaxConsecutiveFailures (options j))
       then trySend (stopCh j) else stopCh j.
Proof.
  intros Hf HM HF HC j'. subst j'. unfold execute.
  destruct (f j rt) as [e |]; [clear Hf | contradiction].
  rewrite !add64_small by lia.
  assert (E : (MaxFailures (options j) >? 0)
              && (Failures j + 1 >=? MaxFailures (options j)) = false).
  { apply andb_false_iff. destruct HM as [HM | HM].
    - left. rewrite Z.gtb_ltb. apply Z.ltb_ge. lia.
    - right. rewrite Z.geb_leb. apply Z.leb_gt. lia. }
  rewrite E.
  destruct ((MaxConsecutiveFailures (options j) >? 0)
            && (ConsecutiveFailures j + 1 >=? MaxConsecutiveFailures (options j)));
    simpl; repeat split.
Qed.

Lemma dispatch_running rt now j :
  state j <> ScheduleSuspended -> dispatch rt now j = execute rt now j.
Proof.
  intros H. unfold dispatch.
  destruct (state j =? ScheduleSuspended) eqn:E; [apply Z.eqb_eq in E; contradiction | reflexivity].
Qed.

(** One failed run of a started job, seen through the fields that decide
    the stop. *)
Lemma failed_run rt now j n :
  f j rt <> None ->
  state j = ScheduleStarted -> watching j = true -> stopCh j = 0%nat ->
  Failures j = n -> ConsecutiveFailures j = n -> Runs j = n ->
  0 <= n < 3 ->
  MaxConsecutiveFailures (options j) = 3 ->
  (MaxFailures (options j) <= 0 \/ 3 <= MaxFailures (options j)) ->
  let j' := dispatch rt now j in
  f j' = f j /\ options j' = options j
  /\ state j' = ScheduleStarted /\ watching j' = true
  /\ Failures j' = n + 1 /\ ConsecutiveFailures j' = n + 1 /\ Runs j' = n + 1
  /\ stopCh j' = if n + 1 =? 3 then 1%nat else 0%nat.
Proof.
  intros Hf Hst Hw Hch HF HC HR Hn HMC HMF j'. subst j'.
  rewrite dispatch_running by (rewrite Hst; discriminate).
  unfold execute.
  destruct (f j rt) as [e |]; [clear Hf | contradiction].
  rewrite HF, HC, HR, Hch, HMC, Hst, Hw.
  rewrite !add64_small by lia.
  destruct ((MaxFailures (options j) >? 0) && (n + 1 >=? MaxFailures (options j))) eqn:E1.
  - apply andb_true_iff in E1. destruct E1 as [E1 E2].
    rewrite Z.gtb_ltb in E1. apply Z.ltb_lt in E1.
    rewrite Z.geb_leb in E2. apply Z.leb_le in E2.
    assert (n + 1 = 3) as -> by lia. simpl. repeat split.
  - destruct (n + 1 =? 3) eqn:E3.
    + apply Z.eqb_eq in E3. rewrite E3. simpl. repeat split.
    + apply Z.eqb_neq in E3.
      assert (E4 : (n + 1 >=? 3) = false) by (rewrite Z.geb_leb; apply Z.leb_gt; lia).
      rewrite E4. simpl. repeat split.
Qed.



(* --------------------------------------------------------------------- *)
(** ** Decimal numerals                                                  *)
(* --------------------------------------------------------------------- *)

Lemma digit_char d :
  0 <= d <= 9 -> strconv.digit (ascii_of_nat (48 + Z.to_nat d)) = Some d.
Proof.
  intros H.
  assert (E : d = 0 \/ d = 1 \/ d = 2 \/ d = 3 \/ d = 4 \/ d = 5 \/ d = 6
              \/ d = 7 \/ d = 8 \/ d = 9) by lia.
  repeat (destruct E as [-> | E]; [reflexivity |]). subst d. reflexivity.
Qed.

Lemma digits_app s1 s2 a :
  strconv.digits (s1 ++ s2)%string a =
  match strconv.digits s1 a with
  | Some x => strconv.digits s2 x
  | None => None
  end.
Proof.
  revert a. induction s1 as [| c s1 IH]; intros a; simpl; [reflexivity |].
  destruct (strconv.digit c); [apply IH | reflexivity].
Qed.

Lemma numeric_app s1 s2 :
  numeric (s1 ++ s2)%string = numeric s1 && numeric s2.
Proof.
  induction s1 as [| c s1 IH]; simpl; [reflexivity |].
  destruct (strconv.digit c); [exact IH | reflexivity].
Qed.

Lemma append_assoc (a b c : string) :
  ((a ++ b) ++ c = a ++ (b ++ c))%string.
Proof. induction a as [| x a IH]; simpl; [reflexivity | rewrite IH; reflexivity]. Qed.

Lemma append_nil_r (a : string) : (a ++ "")%string = a.
Proof. induction a as [| x a IH]; simpl; [reflexivity | rewrite IH; reflexivity]. Qed.

(** One digit in front of [acc] and of nothing. *)
Lemma digits_one c d a :
  strconv.digit c = Some d ->
  numeric (String c "") = true
  /\ strconv.digits (String c "") a = Some (a * 10 ^ Z.of_nat 1 + d).
Proof.
  intros H. cbn [numeric strconv.digits]. rewrite H.
  split; [reflexivity |]. f_equal.
Qed.

(** The digits [utoa] writes are those of [n]. *)
Lemma utoa_spec fuel n acc :
  0 <= n < 10 ^ Z.of_nat (S fuel) ->
  exists s,
    utoa (S fuel) n acc = (s ++ acc)%string
    /\ s <> "" /\ numeric s = true
    /\ forall a, strconv.digits s a
                 = Some (a * 10 ^ Z.of_nat (String.length s) + n).
Proof.
  revert n acc. induction fuel as [| fuel IH]; intros n acc H.
  - cbn [utoa]. cbv zeta. change (10 ^ Z.of_nat 1) with 10 in H.
    assert (E : (n <? 10) = true) by (apply Z.ltb_lt; lia). rewrite E.
    rewrite Z.mod_small by lia.
    pose proof (digit_char n ltac:(lia)) as Hc.
    generalize dependent (ascii_of_nat (48 + Z.to_nat n)). intros c Hc.
    exists (String c "").
    split; [reflexivity |]. split; [discriminate |].
    split; [apply (digits_one c n 0 Hc) |].
    intros a. apply (digits_one c n a Hc).
  - remember (S fuel) as fuel1 eqn:Ef. cbn [utoa]. cbv zeta.
    assert (Hd : 0 <= n mod 10 <= 9)
      by (pose proof (Z.mod_pos_bound n 10 eq_refl); lia).
    pose proof (digit_char (n mod 10) Hd) as Hc.
    generalize dependent (ascii_of_nat (48 + Z.to_nat (n mod 10))). intros c Hc.
    destruct (n <? 10) eqn:E.
    + apply Z.ltb_lt in E. rewrite Z.mod_small in Hc by lia.
      exists (String c "").
      split; [reflexivity |]. split; [discriminate |].
      split; [apply (digits_one c n 0 Hc) |].
      intros a. apply (digits_one c n a Hc).
    + apply Z.ltb_ge in E.
      assert (Hq : 0 <= n / 10 < 10 ^ Z.of_nat fuel1).
      { split; [apply Z.div_pos; lia |].
        apply Z.div_lt_upper_bound; [lia |].
        rewrite Nat2Z.inj_succ, Z.pow_succ_r in H by lia. lia. }
      subst fuel1.
      destruct (IH (n / 10) (String c acc) Hq) as (s & Es & Hne & Hnum & Hdig).
      exists (s ++ String c "")%string.
      split; [rewrite Es, append_assoc; reflexivity |].
      split; [destruct s; [congruence | discriminate] |].
      destruct (digits_one c (n mod 10) 0 Hc) as [Hn1 _].
      split; [rewrite numeric_app, Hnum, Hn1; reflexivity |].
      intros a. rewrite digits_app, Hdig.
      destruct (digits_one c (n mod 10)
                  (a * 10 ^ Z.of_nat (String.length s) + n / 10) Hc) as [_ ->].
      f_equal. rewrite length_app_string.
      change (String.length (String c "")) with 1%nat.
      change (10 ^ Z.of_nat 1) with 10.
      rewrite Nat.add_1_r, Nat2Z.inj_succ, Z.pow_succ_r by lia.
      pose proof (Z.div_mod n 10 ltac:(lia)) as Hn.
      set (P := 10 ^ Z.of_nat (String.length s)).
      replace (a * (10 * P)) with (a * P * 10) by ring. lia.
Qed.

(** The numeral of a number that is not negative: digits only, and
    [Atoi] reads the number back. *)
Lemma Itoa_spec n :
  0 <= n <= strconv.maxInt ->
  Itoa n <> "" /\ numeric (Itoa n) = true /\ strconv.Atoi (Itoa n) = inl n.
Proof.
  intros H. unfold Itoa.
  assert (E : (n <? 0) = false) by (apply Z.ltb_ge; lia). rewrite E.
  assert (Hb : 0 <= n < 10 ^ Z.of_nat 20).
  { unfold strconv.maxInt in H. change (10 ^ Z.of_nat 20) with 100000000000000000000.
    change (2 ^ 63) with 9223372036854775808 in H. lia. }
  destruct (utoa_spec 19 n "" Hb) as (s & Es & Hne & Hnum & Hdig).
  rewrite Es, append_nil_r.
  split; [exact Hne |]. split; [exact Hnum |].
  destruct s as [| c s]; [congruence |].
  unfold strconv.Atoi. simpl in Hnum.
  destruct (strconv.digit c) as [d |] eqn:Ec; [| discriminate].
  assert (Hm : Ascii.eqb c "-" = false).
  { destruct (Ascii.eqb c "-") eqn:E'; [| reflexivity].
    apply Ascii.eqb_eq in E'. subst c. discriminate. }
  assert (Hp : Ascii.eqb c "+" = false).
  { destruct (Ascii.eqb c "+") eqn:E'; [| reflexivity].
    apply Ascii.eqb_eq in E'. subst c. discriminate. }
  rewrite Hm, Hp. cbv zeta. cbn [orb]. cbv iota.
  rewrite Hdig. rewrite Z.mul_0_l, Z.add_0_l.
  assert (Hr : (strconv.minInt <=? n) && (n <=? strconv.maxInt) = true).
  { apply andb_true_intro. split; apply Z.leb_le; unfold strconv.minInt; lia. }
  rewrite Hr. reflexivity.
Qed.

(* --------------------------------------------------------------------- *)
(** ** Texts without letters                                             *)
(* --------------------------------------------------------------------- *)

Lemma digit_noLetter c d :
  strconv.digit c = Some d -> isUpper c = false /\ isLower c = false.
Proof.
  destruct c as [[] [] [] [] [] [] [] []]; vm_compute; intros H;
    first [discriminate H | split; reflexivity].
Qed.

Lemma numeric_noLetter s : numeric s = true -> noLetter s = true.
Proof.
  induction s as [| c s IH]; simpl; [reflexivity |].
  destruct (strconv.digit c) as [d |] eqn:E; [| discriminate].
  destruct (digit_noLetter c d E) as [-> ->]. exact IH.
Qed.

Lemma noLetter_app a b : noLetter (a ++ b)%string = noLetter a && noLetter b.
Proof.
  induction a as [| c a IH]; simpl; [reflexivity |].
  rewrite IH, andb_assoc. reflexivity.
Qed.

Lemma noLetter_ToUpper s : noLetter s = true -> strings.ToUpper s = s.
Proof.
  induction s as [| c s IH]; simpl; [reflexivity |].
  intros H. apply andb_prop in H. destruct H as [H Hs].
  apply andb_prop in H. destruct H as [_ Hl].
  rewrite (IH Hs). f_equal. unfold strings.upper. unfold isLower in Hl.
  cbv zeta in Hl. apply negb_true_iff in Hl. cbv zeta. rewrite Hl. reflexivity.
Qed.

Lemma eqb_head c c' s s' :
  Ascii.eqb c c' = false -> String.eqb (String c s) (String c' s') = false.
Proof. intros H. simpl. rewrite H. reflexivity. Qed.

Lemma isUpper_neq c c' :
  isUpper c = false -> isUpper c' = true -> Ascii.eqb c c' = false.
Proof.
  intros H H'. destruct (Ascii.eqb c c') eqn:E; [| reflexivity].
  apply Ascii.eqb_eq in E. subst c'. congruence.
Qed.

Lemma lookupConv_noLetter conv c s :
  namesUpper conv = true -> isUpper c = false ->
  lookupConv conv (String c s) = None.
Proof.
  intros Hn Hc. induction conv as [| [k v] conv IH]; simpl; [reflexivity |].
  simpl in Hn. apply andb_prop in Hn. destruct Hn as [Hk Hn].
  destruct k as [| c' k]; [discriminate |].
  rewrite (isUpper_neq c c' Hc Hk). exact (IH Hn).
Qed.

Lemma fields_namesUpper f conv :
  In f fields -> Conversions f = Some conv -> namesUpper conv = true.
Proof.
  intros H. simpl in H.
  destruct H as [<- | [<- | [<- | [<- | [<- | []]]]]]; simpl; intros E;
    first [discriminate E | injection E as <-; reflexivity].
Qed.

Lemma fields_bounds f : In f fields -> 0 <= Min f /\ Max f <= 59.
Proof.
  intros H. simpl in H.
  destruct H as [<- | [<- | [<- | [<- | [<- | []]]]]]; vm_compute;
    split; discriminate.
Qed.

Lemma numeric_contains s r :
  numeric s = true -> strconv.digit r = None ->
  strings.ContainsRune s r = false.
Proof.
  intros Hs Hr. induction s as [| c s IH]; simpl; [reflexivity |].
  simpl in Hs. destruct (strconv.digit c) as [d |] eqn:E; [| discriminate].
  destruct (Ascii.eqb c r) eqn:Ec; [| exact (IH Hs)].
  apply Ascii.eqb_eq in Ec. subst r. congruence.
Qed.

Lemma digits_fail s1 c s2 a :
  strconv.digit c = None -> strconv.digits (s1 ++ String c s2)%string a = None.
Proof.
  intros H. rewrite digits_app. destruct (strconv.digits s1 a); [| reflexivity].
  simpl. rewrite H. reflexivity.
Qed.

(** [Atoi] refuses a text that starts with digits and has something
    else. *)
Lemma Atoi_fail s1 c s2 :
  numeric s1 = true -> s1 <> "" -> strconv.digit c = None ->
  strconv.Atoi (s1 ++ String c s2)%string = inr strconv.ErrSyntax.
Proof.
  intros Hn Hne Hc. destruct s1 as [| x s1]; [congruence |].
  simpl in Hn. destruct (strconv.digit x) as [d |] eqn:Ex; [| discriminate].
  change (String x s1 ++ String c s2)%string with (String x (s1 ++ String c s2)).
  unfold strconv.Atoi.
  assert (Hm : Ascii.eqb x "-" = false).
  { destruct (Ascii.eqb x "-") eqn:E'; [| reflexivity].
    apply Ascii.eqb_eq in E'. subst x. discriminate. }
  assert (Hp : Ascii.eqb x "+" = false).
  { destruct (Ascii.eqb x "+") eqn:E'; [| reflexivity].
    apply Ascii.eqb_eq in E'. subst x. discriminate. }
  rewrite Hm, Hp. cbv zeta. cbn [orb]. cbv iota.
  change (String x (s1 ++ String c s2)) with (String x s1 ++ String c s2)%string.
  rewrite digits_fail by exact Hc. reflexivity.
Qed.

Lemma Cut_app b sep a :
  strings.ContainsRune b sep = false ->
  strings.Cut (b ++ String sep a)%string sep = (b, a, true).
Proof.
  induction b as [| c b IH]; simpl; intros H.
  - rewrite Ascii.eqb_refl. reflexivity.
  - destruct (Ascii.eqb c sep); [discriminate |]. rewrite (IH H). reflexivity.
Qed.

Lemma Cut_none s sep :
  strings.ContainsRune s sep = false -> strings.Cut s sep = (s, "", false).
Proof.
  intros H. pose proof (Cut_found s sep) as Hf. rewrite H in Hf.
  destruct s as [| c s]; [reflexivity |]. simpl in *.
  destruct (Ascii.eqb c sep); [discriminate |].
  destruct (strings.Cut s sep) as [[b a] [|]]; [discriminate | reflexivity].
Qed.

(** [parse] on a text without letters, other than the wildcards: the
    table of names is of no use, and what is left is the number or the
    list, step or range. *)
Lemma parseBody_noLetter f rec s :
  In f fields -> noLetter s = true -> s <> "" ->
  String.eqb s (str Any) = false -> String.eqb s (str Blank) = false ->
  parseBody f rec s =
  match strconv.Atoi s with
  | inl m =>
      if m <? Min f then
        Ret None (Some (fieldError f (LessThan s (Min f))))
      else if m >? Max f then
        Ret None (Some (fieldError f (GreaterThan s (Max f))))
      else Ret (Some [m]) None
  | inr e =>
      if strings.ContainsRune s ListSeparator
         || strings.ContainsRune s Range
         || strings.ContainsRune s Step
         || strings.ContainsRune s Last
      then
        if strings.ContainsRune s ListSeparator then parseList f rec s
        else
          let '(beforeStep, afterStep, stepFound) := strings.Cut s Step in
          if stepFound then parseStep f rec beforeStep afterStep
          else
            let '(before, after, rangeFound) := strings.Cut s Range in
            if rangeFound then parseRange f rec before after
            else Ret None None
      else Ret None (Some (wrapErr f (NumError "Atoi" s e)))
  end.
Proof.
  intros Hf Hs Hne Hany Hblank. unfold parseBody.
  rewrite Hany, Hblank.
  destruct s as [| c s']; [congruence |].
  change (String.eqb (String c s') "") with false.
  cbn [andb orb]. cbv iota zeta.
  rewrite (noLetter_ToUpper _ Hs).
  assert (Hc : match Conversions f with
               | Some conv => lookupConv conv (String c s')
               | None => None
               end = None).
  { destruct (Conversions f) as [conv |] eqn:E; [| reflexivity].
    apply lookupConv_noLetter; [exact (fields_namesUpper f conv Hf E) |].
    simpl in Hs. apply andb_prop in Hs. destruct Hs as [Hs _].
    apply andb_prop in Hs. destruct Hs as [Hu _].
    apply negb_true_iff in Hu. exact Hu. }
  rewrite Hc. reflexivity.
Qed.

Lemma numeric_wild s :
  numeric s = true -> s <> "" ->
  String.eqb s (str Any) = false /\ String.eqb s (str Blank) = false.
Proof.
  intros Hn Hne. destruct s as [| c s]; [congruence |].
  simpl in Hn. destruct (strconv.digit c) as [d |] eqn:E; [| discriminate].
  split; apply eqb_head.
  - destruct (Ascii.eqb c Any) eqn:E'; [| reflexivity].
    apply Ascii.eqb_eq in E'. subst c. discriminate.
  - destruct (Ascii.eqb c Blank) eqn:E'; [| reflexivity].
    apply Ascii.eqb_eq in E'. subst c. discriminate.
Qed.

(** The same of a text that starts with a digit. *)
Lemma head_wild s1 s2 :
  numeric s1 = true -> s1 <> "" ->
  String.eqb (s1 ++ s2)%string (str Any) = false
  /\ String.eqb (s1 ++ s2)%string (str Blank) = false.
Proof.
  intros Hn Hne. destruct s1 as [| c s]; [congruence |].
  simpl in Hn. destruct (strconv.digit c) as [d |] eqn:E; [| discriminate].
  split; apply eqb_head.
  - destruct (Ascii.eqb c Any) eqn:E'; [| reflexivity].
    apply Ascii.eqb_eq in E'. subst c. discriminate.
  - destruct (Ascii.eqb c Blank) eqn:E'; [| reflexivity].
    apply Ascii.eqb_eq in E'. subst c. discriminate.
Qed.

(* --------------------------------------------------------------------- *)
(** ** Numbers, ranges and steps                                         *)
(* --------------------------------------------------------------------- *)

(** A decimal numeral: the number, when it is within the bounds of the
    field. *)
Lemma parseFuel_number f n fuel :
  In f fields -> 0 <= n <= strconv.maxInt ->
  parseFuel (S fuel) f (Itoa n) =
  if n <? Min f then
    Ret None (Some (fieldError f (LessThan (Itoa n) (Min f))))
  else if n >? Max f then
    Ret None (Some (fieldError f (GreaterThan (Itoa n) (Max f))))
  else Ret (Some [n]) None.
Proof.
  intros Hf Hn. destruct (Itoa_spec n Hn) as (Hne & Hnum & Hat).
  destruct (numeric_wild _ Hnum Hne) as [Hany Hblank].
  cbn [parseFuel].
  rewrite (parseBody_noLetter f _ _ Hf (numeric_noLetter _ Hnum) Hne Hany Hblank).
  rewrite Hat.
  destruct (n <? Min f); [reflexivity |].
  destruct (n >? Max f); reflexivity.
Qed.

Lemma parseFuel_value f n fuel :
  In f fields -> within f n ->
  parseFuel (S fuel) f (Itoa n) = Ret (Some [n]) None.
Proof.
  intros Hf [Hlo Hhi]. destruct (fields_bounds f Hf) as [H0 H59].
  rewrite parseFuel_number; [| exact Hf | unfold strconv.maxInt; lia].
  assert (E1 : (n <? Min f) = false) by (apply Z.ltb_ge; exact Hlo).
  assert (E2 : (n >? Max f) = false)
    by (rewrite Z.gtb_ltb; apply Z.ltb_ge; exact Hhi).
  rewrite E1, E2. reflexivity.
Qed.

Lemma upto_nil lo hi : hi < lo -> upto lo hi = [].
Proof.
  intros H. unfold upto. replace (Z.to_nat (hi - lo + 1)) with 0%nat by lia.
  reflexivity.
Qed.

Lemma upto_cons lo hi : lo <= hi -> upto lo hi = lo :: upto (lo + 1) hi.
Proof.
  intros H. unfold upto.
  replace (Z.to_nat (hi - lo + 1)) with (S (Z.to_nat (hi - (lo + 1) + 1))) by lia.
  cbn [seq map]. f_equal; [lia |].
  rewrite <- seq_shift, map_map. apply map_ext. intros k. lia.
Qed.

Lemma upto_In lo hi v : In v (upto lo hi) <-> lo <= v <= hi.
Proof.
  split.
  - intros H. pose proof (upto_bounds lo hi) as Hb.
    rewrite Forall_forall in Hb. exact (Hb v H).
  - intros H. unfold upto. apply in_map_iff.
    exists (Z.to_nat (v - lo)). split; [lia |]. apply in_seq. lia.
Qed.

Lemma upto_length lo hi : List.length (upto lo hi) = Z.to_nat (hi - lo + 1).
Proof. unfold upto. rewrite length_map, length_seq. reflexivity. Qed.

Lemma filter_all {A} (p : A -> bool) l :
  Forall (fun x => p x = true) l -> filter p l = l.
Proof.
  induction 1 as [| x l Hx _ IH]; simpl; [reflexivity |].
  rewrite Hx, IH. reflexivity.
Qed.

(** The allowed values above [a]. *)
Lemma filter_above lo hi a :
  lo <= a + 1 -> filter (fun av => av >? a) (upto lo hi) = upto (a + 1) hi.
Proof.
  intros H.
  remember (Z.to_nat (a + 1 - lo)) as k eqn:Ek.
  revert lo H Ek. induction k as [| k IH]; intros lo H Ek.
  - assert (lo = a + 1) by lia. subst lo.
    apply filter_all. pose proof (upto_bounds (a + 1) hi) as Hb.
    eapply Forall_impl; [| exact Hb]. cbv beta. intros v Hv.
    rewrite Z.gtb_ltb. apply Z.ltb_lt. lia.
  - destruct (Z_le_gt_dec lo hi) as [Hle | Hgt].
    + rewrite (upto_cons lo hi Hle). cbn [filter].
      assert (E : (lo >? a) = false) by (rewrite Z.gtb_ltb; apply Z.ltb_ge; lia).
      rewrite E. apply IH; lia.
    + rewrite !upto_nil by lia. reflexivity.
Qed.

(** The values a step takes of a run of consecutive integers. *)
Lemma stepValuesFrom_upto lo hi n i v :
  1 <= n -> 0 <= i ->
  In v (stepValuesFrom (upto lo hi) n i)
  <-> lo <= v <= hi /\ (v - lo + i) mod n = 0.
Proof.
  intros Hn.
  remember (Z.to_nat (hi - lo + 1)) as k eqn:Ek.
  revert lo i Ek. induction k as [| k IH]; intros lo i Ek Hi.
  - rewrite upto_nil by lia. simpl. split; [contradiction | lia].
  - rewrite upto_cons by lia. cbn [stepValuesFrom].
    rewrite Z.rem_mod_nonneg by lia.
    assert (Hrec := IH (lo + 1) (i + 1) ltac:(lia) ltac:(lia)).
    replace (v - (lo + 1) + (i + 1)) with (v - lo + i) in Hrec by lia.
    destruct (i mod n =? 0) eqn:E.
    + apply Z.eqb_eq in E. cbn [In]. rewrite Hrec. split.
      * intros [<- | [H1 H2]]; [| split; [lia | exact H2]].
        split; [lia |]. replace (lo - lo + i) with i by lia. exact E.
      * intros [H1 H2]. destruct (Z.eq_dec v lo) as [-> | Hne]; [left; reflexivity |].
        right. split; [lia | exact H2].
    + apply Z.eqb_neq in E. rewrite Hrec. split.
      * intros [H1 H2]. split; [lia | exact H2].
      * intros [H1 H2]. split; [| exact H2].
        destruct (Z.eq_dec v lo) as [-> | Hne]; [| lia].
        replace (lo - lo + i) with i in H2 by lia. contradiction.
Qed.

Lemma stepValues_upto lo hi n v :
  1 <= n ->
  In v (stepValues (upto lo hi) n) <-> lo <= v <= hi /\ (v - lo) mod n = 0.
Proof.
  intros Hn. unfold stepValues.
  rewrite stepValuesFrom_upto by lia.
  replace (v - lo + 0) with (v - lo) by lia. reflexivity.
Qed.

Lemma ascending_one a l :
  ascending l -> In a l -> (forall v, In v l -> v = a) -> l = [a].
Proof.
  intros Ha Hin Hall. destruct l as [| x l]; [contradiction |].
  assert (x = a) by (apply Hall; left; reflexivity). subst x.
  destruct l as [| y l]; [reflexivity |]. exfalso.
  assert (y = a) by (apply Hall; right; left; reflexivity). subst y.
  destruct Ha as [Ha _]. apply Forall_inv in Ha. lia.
Qed.

(** A step over [lo..hi] gives a single value exactly when it is larger
    than the distance from [lo] to [hi]. *)
Lemma stepValues_single lo hi n :
  1 <= n -> lo <= hi ->
  match stepValues (upto lo hi) n with
  | [_] => hi - lo < n
  | _ => n <= hi - lo
  end.
Proof.
  intros Hn Hle.
  pose proof (stepValuesFrom_ascending (upto lo hi) n 0 (upto_ascending lo hi)) as Ha.
  fold (stepValues (upto lo hi) n) in Ha.
  assert (Hlo : In lo (stepValues (upto lo hi) n)).
  { apply stepValues_upto; [exact Hn |]. split; [lia |].
    replace (lo - lo) with 0 by lia. apply Z.mod_0_l. lia. }
  destruct (Z_lt_le_dec (hi - lo) n) as [Hlt | Hge].
  - rewrite (ascending_one lo _ Ha Hlo); [exact Hlt |].
    intros v Hv. apply stepValues_upto in Hv; [| exact Hn].
    destruct Hv as [Hb Hm]. rewrite Z.mod_small in Hm by lia. lia.
  - assert (Hn' : In (lo + n) (stepValues (upto lo hi) n)).
    { apply stepValues_upto; [exact Hn |]. split; [lia |].
      replace (lo + n - lo) with n by lia. apply Z.mod_same. lia. }
    destruct (stepValues (upto lo hi) n) as [| x [| y l]]; [contradiction | | exact Hge].
    destruct Hlo as [<- | []]. destruct Hn' as [E | []]. lia.
Qed.

Lemma contains_sep s1 c s2 r :
  numeric s1 = true -> numeric s2 = true -> strconv.digit r = None ->
  strings.ContainsRune (s1 ++ String c s2)%string r = Ascii.eqb c r.
Proof.
  intros H1 H2 Hr. rewrite ContainsRune_app.
  rewrite (numeric_contains s1 r H1 Hr). cbn [orb strings.ContainsRune].
  rewrite (numeric_contains s2 r H2 Hr). destruct (Ascii.eqb c r); reflexivity.
Qed.

Lemma nonempty_eqb s : s <> "" -> String.eqb s "" = false.
Proof. destruct s; [congruence | reflexivity]. Qed.

Lemma Itoa_value f n :
  In f fields -> within f n ->
  Itoa n <> "" /\ numeric (Itoa n) = true /\ strconv.Atoi (Itoa n) = inl n.
Proof.
  intros Hf [Hlo Hhi]. destruct (fields_bounds f Hf) as [H0 H59].
  apply Itoa_spec. unfold strconv.maxInt. lia.
Qed.

Lemma parseRun_value f n :
  In f fields -> within f n -> parseRun f (Itoa n) = Ret (Some [n]) None.
Proof. intros Hf Hn. apply parseFuel_value; assumption. Qed.

(** A range of two numerals. *)
Lemma parseRun_range f a b :
  In f fields -> within f a -> within f b ->
  parseRun f (Itoa a ++ String Range (Itoa b))%string =
  if a <? b then Ret (Some (upto a b)) None
  else Ret None (Some (fieldError f (StartNotLess a b))).
Proof.
  intros Hf Ha Hb.
  destruct (Itoa_value f a Hf Ha) as (Hnea & Hna & _).
  destruct (Itoa_value f b Hf Hb) as (Hneb & Hnb & _).
  set (text := (Itoa a ++ String Range (Itoa b))%string).
  assert (Hnl : noLetter text = true).
  { unfold text. rewrite noLetter_app, (numeric_noLetter _ Hna).
    cbn [noLetter andb]. rewrite (numeric_noLetter _ Hnb). reflexivity. }
  assert (Hne : text <> "").
  { unfold text. destruct (Itoa a); [congruence | discriminate]. }
  destruct (head_wild (Itoa a) (String Range (Itoa b)) Hna Hnea) as [Hany Hblank].
  assert (Hla : (String.length (Itoa a) < String.length text)%nat).
  { unfold text. rewrite length_app_string. simpl. lia. }
  assert (Hlb : (String.length (Itoa b) < String.length text)%nat).
  { unfold text. rewrite length_app_string. simpl.
    destruct (Itoa a); [congruence | simpl; lia]. }
  unfold parseRun. cbn [parseFuel].
  rewrite (parseBody_noLetter f _ text Hf Hnl Hne Hany Hblank).
  unfold text at 1. rewrite (Atoi_fail _ Range _ Hna Hnea eq_refl). fold text.
  assert (Hc1 : strings.ContainsRune text ListSeparator = false)
    by (unfold text; rewrite contains_sep by (assumption || reflexivity); reflexivity).
  assert (Hc2 : strings.ContainsRune text Range = true).
  { unfold text. rewrite ContainsRune_app. cbn [strings.ContainsRune].
    rewrite Ascii.eqb_refl. apply orb_true_r. }
  assert (Hc3 : strings.ContainsRune text Step = false)
    by (unfold text; rewrite contains_sep by (assumption || reflexivity); reflexivity).
  rewrite Hc1, Hc2. cbn [orb]. cbv iota.
  rewrite (Cut_none text Step Hc3). cbv iota.
  unfold text at 1.
  rewrite (Cut_app (Itoa a) Range (Itoa b) (numeric_contains _ Range Hna eq_refl)).
  cbv iota. fold text.
  unfold parseRange, rangeEnd.
  rewrite (nonempty_eqb _ Hneb).
  rewrite (parse_enough_fuel f (Itoa a) _ Hla), (parseRun_value f a Hf Ha).
  change (1 <? List.length [a])%nat with false. cbv iota.
  rewrite (parse_enough_fuel f (Itoa b) _ Hlb), (parseRun_value f b Hf Hb).
  change (1 <? List.length [b])%nat with false. cbv iota.
  destruct (a <? b) eqn:E.
  - apply Z.ltb_lt in E.
    assert (E1 : (a >? b) = false) by (rewrite Z.gtb_ltb; apply Z.ltb_ge; lia).
    assert (E2 : (a =? b) = false) by (apply Z.eqb_neq; lia).
    rewrite E1, E2. cbn [orb deferred].
    rewrite (deferred_ascending _ (upto_ascending a b)). reflexivity.
  - apply Z.ltb_ge in E.
    assert (E1 : (a >? b) || (a =? b) = true).
    { destruct (Z.eq_dec a b) as [-> | Hne'].
      - rewrite Z.eqb_refl. apply orb_true_r.
      - assert (E1 : (a >? b) = true) by (rewrite Z.gtb_ltb; apply Z.ltb_lt; lia).
        rewrite E1. reflexivity. }
    rewrite E1. reflexivity.
Qed.

(** What [parseStep] makes of the values [l] of its range, when these -
    a single value completed by the allowed values above it - are the
    integers from [lo] to [hi]. *)
Lemma parseStep_upto f rec stepRange n l lo hi :
  stepRange <> "" -> 1 <= n <= strconv.maxInt -> lo <= hi ->
  rec stepRange = Ret (Some l) None ->
  match l with
  | [] => []
  | [minVal] => minVal :: filter (fun av => av >? minVal) (Allowed f)
  | minVal :: z :: l' => minVal :: z :: l'
  end = upto lo hi ->
  deferred (parseStep f rec stepRange (Itoa n)) =
  if n <=? hi - lo then Ret (Some (stepValues (upto lo hi) n)) None
  else Ret None (Some (wrapErr f (Errorf "step only occurs once"))).
Proof.
  intros Hne Hn Hle Hrec Hl.
  destruct (Itoa_spec n ltac:(lia)) as (Hnen & _ & Hat).
  unfold parseStep.
  rewrite (nonempty_eqb _ Hne), (nonempty_eqb _ Hnen). cbn [orb]. cbv iota.
  rewrite Hat.
  assert (E1 : (n <? 1) = false) by (apply Z.ltb_ge; lia). rewrite E1.
  rewrite Hrec. cbn [elems]. cbv zeta. rewrite Hl.
  pose proof (stepValues_single lo hi n ltac:(lia) Hle) as Hs.
  pose proof (stepValuesFrom_ascending (upto lo hi) n 0 (upto_ascending lo hi)) as Ha.
  fold (stepValues (upto lo hi) n) in Ha.
  destruct (stepValues (upto lo hi) n) as [| x [| y l']] eqn:Ev.
  - assert (E' : (n <=? hi - lo) = true) by (apply Z.leb_le; exact Hs).
    rewrite E'. reflexivity.
  - assert (E' : (n <=? hi - lo) = false) by (apply Z.leb_gt; exact Hs).
    rewrite E'. reflexivity.
  - assert (E' : (n <=? hi - lo) = true) by (apply Z.leb_le; exact Hs).
    rewrite E'. cbn [deferred]. rewrite (deferred_ascending _ Ha). reflexivity.
Qed.

(** A text [range/n], the range without list separator or step, and the
    step a numeral: [parse] hands the two to [parseStep]. *)
Lemma parseRun_step f range n :
  In f fields -> noLetter range = true -> range <> "" ->
  strings.ContainsRune range ListSeparator = false ->
  strings.ContainsRune range Step = false ->
  (forall s, strconv.Atoi (range ++ String Step s)%string = inr strconv.ErrSyntax) ->
  0 <= n <= strconv.maxInt ->
  parseRun f (range ++ String Step (Itoa n))%string =
  deferred (parseStep f (parseFuel (String.length (range ++ String Step (Itoa n))%string) f)
              range (Itoa n)).
Proof.
  intros Hf Hnl Hne Hc1 Hc3 Hat Hn.
  destruct (Itoa_spec n Hn) as (Hnen & Hnn & _).
  set (text := (range ++ String Step (Itoa n))%string).
  assert (Hnl' : noLetter text = true).
  { unfold text. rewrite noLetter_app, Hnl. cbn [noLetter andb].
    rewrite (numeric_noLetter _ Hnn). reflexivity. }
  assert (Hne' : text <> "").
  { unfold text. destruct range; [congruence | discriminate]. }
  assert (Hc3' : strings.ContainsRune text Step = true).
  { unfold text. rewrite ContainsRune_app. cbn [strings.ContainsRune].
    rewrite Ascii.eqb_refl. apply orb_true_r. }
  assert (Hany : String.eqb text (str Any) = false).
  { destruct (String.eqb text (str Any)) eqn:E; [| reflexivity].
    apply String.eqb_eq in E. rewrite E in Hc3'. discriminate. }
  assert (Hblank : String.eqb text (str Blank) = false).
  { destruct (String.eqb text (str Blank)) eqn:E; [| reflexivity].
    apply String.eqb_eq in E. rewrite E in Hc3'. discriminate. }
  assert (Hc1' : strings.ContainsRune text ListSeparator = false).
  { unfold text. rewrite ContainsRune_app, Hc1. cbn [orb strings.ContainsRune].
    change (Ascii.eqb Step ListSeparator) with false. cbv iota.
    exact (numeric_contains _ ListSeparator Hnn eq_refl). }
  unfold parseRun. cbn [parseFuel].
  rewrite (parseBody_noLetter f _ text Hf Hnl' Hne' Hany Hblank).
  unfold text at 1. rewrite Hat. fold text.
  rewrite Hc1', Hc3'. rewrite !orb_true_r. cbn [orb]. cbv iota.
  unfold text at 1. rewrite (Cut_app range Step (Itoa n) Hc3). cbv iota.
  reflexivity.
Qed.

(** A step over a range of two numerals. *)
Lemma parseRun_step_range f a b n :
  In f fields -> within f a -> within f b -> a < b ->
  1 <= n <= strconv.maxInt ->
  parseRun f ((Itoa a ++ String Range (Itoa b)) ++ String Step (Itoa n))%string =
  if n <=? b - a then Ret (Some (stepValues (upto a b) n)) None
  else Ret None (Some (wrapErr f (Errorf "step only occurs once"))).
Proof.
  intros Hf Ha Hb Hlt Hn.
  destruct (Itoa_value f a Hf Ha) as (Hnea & Hna & _).
  destruct (Itoa_value f b Hf Hb) as (Hneb & Hnb & _).
  set (range := (Itoa a ++ String Range (Itoa b))%string).
  assert (Hnl : noLetter range = true).
  { unfold range. rewrite noLetter_app, (numeric_noLetter _ Hna).
    cbn [noLetter andb]. rewrite (numeric_noLetter _ Hnb). reflexivity. }
  assert (Hne : range <> "").
  { unfold range. destruct (Itoa a); [congruence | discriminate]. }
  rewrite parseRun_step; try assumption.
  - apply (parseStep_upto f _ range n (upto a b) a b Hne Hn ltac:(lia)).
    + rewrite parse_enough_fuel
        by (rewrite length_app_string; simpl; lia).
      unfold range. rewrite (parseRun_range f a b Hf Ha Hb).
      assert (E : (a <? b) = true) by (apply Z.ltb_lt; exact Hlt).
      rewrite E. reflexivity.
    + rewrite (upto_cons a b) by lia. rewrite (upto_cons (a + 1) b) by lia.
      reflexivity.
  - unfold range. rewrite contains_sep by (assumption || reflexivity). reflexivity.
  - unfold range. rewrite contains_sep by (assumption || reflexivity). reflexivity.
  - intros s. unfold range. rewrite append_assoc.
    apply Atoi_fail; [exact Hna | exact Hnea | reflexivity].
  - lia.
Qed.

(** A step from a single numeral: the allowed values from it on. *)
Lemma parseRun_step_value f a n :
  In f fields -> within f a -> 1 <= n <= strconv.maxInt ->
  parseRun f (Itoa a ++ String Step (Itoa n))%string =
  if n <=? Max f - a then Ret (Some (stepValues (upto a (Max f)) n)) None
  else Ret None (Some (wrapErr f (Errorf "step only occurs once"))).
Proof.
  intros Hf Ha Hn.
  destruct (Itoa_value f a Hf Ha) as (Hnea & Hna & _).
  rewrite parseRun_step; try assumption.
  - apply (parseStep_upto f _ (Itoa a) n [a] a (Max f) Hnea Hn (proj2 Ha)).
    + rewrite parse_enough_fuel
        by (rewrite length_app_string; simpl; lia).
      apply parseRun_value; assumption.
    + rewrite (wf_allowed f (fields_wellFormed f Hf)).
      rewrite filter_above by (destruct Ha; lia).
      symmetry. apply upto_cons. exact (proj2 Ha).
  - exact (numeric_noLetter _ Hna).
  - exact (numeric_contains _ ListSeparator Hna eq_refl).
  - exact (numeric_contains _ Step Hna eq_refl).
  - intros s. apply Atoi_fail; [exact Hna | exact Hnea | reflexivity].
  - lia.
Qed.

Lemma fields_two f : In f fields -> Min f < Max f.
Proof.
  intros H. simpl in H.
  destruct H as [<- | [<- | [<- | [<- | [<- | []]]]]]; reflexivity.
Qed.

(** The wildcard: all the values of the field. *)
Lemma parseRun_any f :
  In f fields -> parseRun f (str Any) = Ret (Some (upto (Min f) (Max f))) None.
Proof.
  intros Hf. pose proof (fields_two f Hf) as Hlt.
  unfold parseRun. cbn [parseFuel]. unfold parseBody.
  change (String.eqb (str Any) "") with false.
  change (String.eqb (str Any) (str Blank)) with false.
  change (String.eqb (str Any) (str Any)) with true.
  cbn [andb orb]. cbv iota.
  rewrite (upto_cons (Min f) (Max f)) by lia. cbn [appended deferred].
  rewrite <- (upto_cons (Min f) (Max f)) by lia.
  rewrite (deferred_ascending _ (upto_ascending _ _)). reflexivity.
Qed.

(** A step over the wildcard. *)
Lemma parseRun_step_any f n :
  In f fields -> 1 <= n <= strconv.maxInt ->
  parseRun f (str Any ++ String Step (Itoa n))%string =
  if n <=? Max f - Min f
  then Ret (Some (stepValues (upto (Min f) (Max f)) n)) None
  else Ret None (Some (wrapErr f (Errorf "step only occurs once"))).
Proof.
  intros Hf Hn. pose proof (fields_two f Hf) as Hlt.
  rewrite parseRun_step; try assumption; try reflexivity.
  - apply (parseStep_upto f _ (str Any) n (upto (Min f) (Max f)) (Min f) (Max f));
      [discriminate | exact Hn | lia | |].
    + rewrite parse_enough_fuel
        by (rewrite length_app_string; simpl; lia).
      apply parseRun_any. exact Hf.
    + rewrite (upto_cons (Min f) (Max f)) by lia.
      rewrite (upto_cons (Min f + 1) (Max f)) by lia. reflexivity.
  - discriminate.
  - lia.
Qed.

(* --------------------------------------------------------------------- *)
(** ** Upper and lower case                                              *)
(* --------------------------------------------------------------------- *)

Lemma upper_any c : Ascii.eqb (strings.upper c) Any = Ascii.eqb c Any.
Proof. destruct c as [[] [] [] [] [] [] [] []]; reflexivity. Qed.

Lemma upper_blank c : Ascii.eqb (strings.upper c) Blank = Ascii.eqb c Blank.
Proof. destruct c as [[] [] [] [] [] [] [] []]; reflexivity. Qed.

Lemma ToUpper_eqb_one s r :
  (forall c, Ascii.eqb (strings.upper c) r = Ascii.eqb c r) ->
  String.eqb (strings.ToUpper s) (str r) = String.eqb s (str r).
Proof.
  intros H. destruct s as [| c [| c' s]]; simpl; rewrite ?H; reflexivity.
Qed.

Lemma ToUpper_eqb_nil s : String.eqb (strings.ToUpper s) "" = String.eqb s "".
Proof. destruct s; reflexivity. Qed.

(** [parse] looks at the text in upper case only. *)
Lemma parseBody_upper f rec s :
  parseBody f rec (strings.ToUpper s) = parseBody f rec s.
Proof.
  unfold parseBody.
  rewrite ToUpper_eqb_nil, (ToUpper_eqb_one s Any upper_any),
    (ToUpper_eqb_one s Blank upper_blank), ToUpper_idem.
  reflexivity.
Qed.

Lemma parseRun_upper f s : parseRun f (strings.ToUpper s) = parseRun f s.
Proof.
  unfold parseRun. rewrite ToUpper_length. cbn [parseFuel].
  rewrite parseBody_upper. reflexivity.
Qed.

(* --------------------------------------------------------------------- *)
(** ** The field parser, beyond the claims                               *)
(* --------------------------------------------------------------------- *)

(** X1.  [parse] returns for every text and each of the five fields: the
    recursion through lists, steps and ranges ends, whatever fuel beyond
    the length of the text it is given, and [parseRange] never indexes an
    empty slice. *)
Theorem parse_never_panics (f : field) (s : string) :
  In f fields ->
  exists values err,
    parse f s = (values, err)
    /\ forall fuel, (String.length s < fuel)%nat ->
                    parseFuel fuel f s = Ret values err.
Proof.
  intros Hf.
  destruct (parse_returns f s (fields_wellFormed f Hf)) as (values & err & E).
  exists values, err. split.
  - unfold parse. rewrite E. reflexivity.
  - intros fuel Hfuel. rewrite parse_enough_fuel by exact Hfuel. exact E.
Qed.

Lemma parse_never_panics_witness :
  exists values err,
    parse dayOpts "1-5/2,L-,7" = (values, err)
    /\ parseFuel 40 dayOpts "1-5/2,L-,7" = Ret values err.
Proof.
  destruct (parse_never_panics dayOpts "1-5/2,L-,7") as (values & err & E & H).
  - right. right. left. reflexivity.
  - exists values, err. split; [exact E |]. apply H. simpl. lia.
Defined.

(** X2.  What [parse] returns without error is a run of strictly
    ascending values within the bounds of the field, followed by zeros;
    there are no zeros after the run when the text is not a list. *)
Theorem parse_result_shape (f : field) (s : string) (l : list Z) :
  In f fields -> parse f s = (Some l, None) ->
  exists u k,
    l = u ++ repeat 0 k
    /\ ascending u /\ Forall (within f) u
    /\ (strings.ContainsRune s ListSeparator = false -> k = 0%nat).
Proof.
  intros Hf. unfold parse.
  pose proof (parse_spec f s Hf) as H. revert H.
  destruct (parseRun f s) as [[l' |] [e |] | |]; simpl; intros H;
    try contradiction; intros [= <-].
  destruct H as (u & k & E & Ha & Hw & _ & Hk & _).
  exists u, k. auto.
Qed.

Lemma parse_result_shape_witness :
  exists u k,
    [1; 2; 3; 5; 0] = u ++ repeat 0 k
    /\ ascending u /\ Forall (within dayOpts) u
    /\ (strings.ContainsRune "1-3,5,2" ListSeparator = false -> k = 0%nat).
Proof.
  apply (parse_result_shape dayOpts "1-3,5,2").
  - right. right. left. reflexivity.
  - vm_compute. reflexivity.
Defined.

(** X3.  When [parse] returns neither an error nor a value, the text has
    the letter L, in upper or lower case. *)
Theorem parse_nothing_only_last (f : field) (s : string) (values : slice) :
  In f fields -> parse f s = (values, None) -> elems values = [] ->
  strings.ContainsRune (strings.ToUpper s) Last = true.
Proof. intros Hf H He. exact (parse_empty_last f s values Hf H He). Qed.

Lemma parse_nothing_only_last_witness :
  strings.ContainsRune (strings.ToUpper "l/3") Last = true.
Proof.
  apply (parse_nothing_only_last minuteOpts "l/3" (Some [])).
  - left. reflexivity.
  - vm_compute. reflexivity.
  - reflexivity.
Defined.

(** X4.  In a schedule that [New] returns without error each field has
    its any-flag set, or has values, or has a text with the letter L. *)
Theorem new_value_sets (cron : string) (l : option time.Location)
    (s : Schedule) :
  New cron l = (Some s, None) ->
  (allowAnyMinute s = true \/ elems (minutes s) <> [] \/ hasLast (Minute s))
  /\ (allowAnyHour s = true \/ elems (hours s) <> [] \/ hasLast (Hour s))
  /\ (allowAnyDay s = true \/ elems (days s) <> [] \/ hasLast (Day s))
  /\ (allowAnyMonth s = true \/ elems (months s) <> [] \/ hasLast (Month s))
  /\ (allowAnyWeekday s = true \/ elems (weekdays s) <> []
      \/ hasLast (Weekday s)).
Proof. apply New_fields. Qed.

Lemma new_value_sets_witness :
  let s := mustNew "*/20 9-17 L jan-mar ?" None in
  (allowAnyMinute s = true \/ elems (minutes s) <> [] \/ hasLast (Minute s))
  /\ (allowAnyHour s = true \/ elems (hours s) <> [] \/ hasLast (Hour s))
  /\ (allowAnyDay s = true \/ elems (days s) <> [] \/ hasLast (Day s))
  /\ (allowAnyMonth s = true \/ elems (months s) <> [] \/ hasLast (Month s))
  /\ (allowAnyWeekday s = true \/ elems (weekdays s) <> []
      \/ hasLast (Weekday s)).
Proof.
  apply (new_value_sets "*/20 9-17 L jan-mar ?" None).
  vm_compute. reflexivity.
Defined.



(** X6.  The decimal numeral of a number that is not negative: [parse]
    gives the number alone when it is within the bounds of the field, and
    an error that names the bound when it is below or above. *)
Theorem parse_number (f : field) (n : Z) :
  In f fields -> 0 <= n <= strconv.maxInt ->
  parse f (Itoa n) =
  if n <? Min f then
    (None, Some (fieldError f (LessThan (Itoa n) (Min f))))
  else if n >? Max f then
    (None, Some (fieldError f (GreaterThan (Itoa n) (Max f))))
  else (Some [n], None).
Proof.
  intros Hf Hn. unfold parse, parseRun.
  rewrite (parseFuel_number f n _ Hf Hn).
  destruct (n <? Min f); [reflexivity |].
  destruct (n >? Max f); reflexivity.
Qed.

Lemma parse_number_witness :
  parse dayOpts "0" = (None, Some (fieldError dayOpts (LessThan "0" 1)))
  /\ parse dayOpts "31" = (Some [31], None)
  /\ parse dayOpts "32" = (None, Some (fieldError dayOpts (GreaterThan "32" 31))).
Proof.
  split; [| split].
  - apply (parse_number dayOpts 0); [right; right; left; reflexivity |].
    unfold strconv.maxInt. lia.
  - apply (parse_number dayOpts 31); [right; right; left; reflexivity |].
    unfold strconv.maxInt. lia.
  - apply (parse_number dayOpts 32); [right; right; left; reflexivity |].
    unfold strconv.maxInt. lia.
Defined.

(** X7.  A range [a-b] of two numbers within the bounds of the field:
    [parse] gives the integers from [a] to [b] when [a] is below [b], and
    an error when it is not - a range of one value is refused. *)
Theorem parse_range (f : field) (a b : Z) :
  In f fields -> within f a -> within f b ->
  parse f (Itoa a ++ "-" ++ Itoa b) =
  if a <? b then (Some (upto a b), None)
  else (None, Some (fieldError f (StartNotLess a b))).
Proof.
  intros Hf Ha Hb. unfold parse.
  change (Itoa a ++ "-" ++ Itoa b)%string
    with (Itoa a ++ String Range (Itoa b))%string.
  rewrite (parseRun_range f a b Hf Ha Hb).
  destruct (a <? b); reflexivity.
Qed.

Lemma parse_range_witness :
  parse hourOpts "9-17" = (Some [9; 10; 11; 12; 13; 14; 15; 16; 17], None)
  /\ parse hourOpts "9-9" = (None, Some (fieldError hourOpts (StartNotLess 9 9))).
Proof.
  split.
  - apply (parse_range hourOpts 9 17); [right; left; reflexivity | |];
      vm_compute; split; discriminate.
  - apply (parse_range hourOpts 9 9); [right; left; reflexivity | |];
      vm_compute; split; discriminate.
Defined.

(** X8.  A step [n] of at least 1 over the wildcard, over a single number
    [a] and over a range [a-b]: the values run from the lowest value of
    the field, from [a], from [a], up to the highest value of the field,
    the highest, [b]; [parse] gives every [n]-th of them, and an error
    when, [n] being larger than the distance between the two ends, there
    would be one value only. *)
Theorem parse_step (f : field) (n : Z) :
  In f fields -> 1 <= n <= strconv.maxInt ->
  let stepped lo hi :=
    if n <=? hi - lo then (Some (stepValues (upto lo hi) n), None)
    else (None, Some (wrapErr f (Errorf "step only occurs once"))) in
  parse f ("*/" ++ Itoa n) = stepped (Min f) (Max f)
  /\ (forall a, within f a ->
        parse f (Itoa a ++ "/" ++ Itoa n) = stepped a (Max f))
  /\ (forall a b, within f a -> within f b -> a < b ->
        parse f (Itoa a ++ "-" ++ Itoa b ++ "/" ++ Itoa n) = stepped a b).
Proof.
  intros Hf Hn stepped. subst stepped. cbv beta. split; [| split].
  - unfold parse.
    change ("*/" ++ Itoa n)%string with (str Any ++ String Step (Itoa n))%string.
    rewrite (parseRun_step_any f n Hf Hn).
    destruct (n <=? Max f - Min f); reflexivity.
  - intros a Ha. unfold parse.
    change (Itoa a ++ "/" ++ Itoa n)%string
      with (Itoa a ++ String Step (Itoa n))%string.
    rewrite (parseRun_step_value f a n Hf Ha Hn).
    destruct (n <=? Max f - a); reflexivity.
  - intros a b Ha Hb Hlt. unfold parse.
    change (Itoa a ++ "-" ++ Itoa b ++ "/" ++ Itoa n)%string
      with (Itoa a ++ (String Range (Itoa b) ++ String Step (Itoa n)))%string.
    rewrite <- append_assoc.
    change (Itoa a ++ String Range (Itoa b) ++ String Step (Itoa n))%string
      with ((Itoa a ++ String Range (Itoa b)) ++ String Step (Itoa n))%string.
    rewrite (parseRun_step_range f a b n Hf Ha Hb Hlt Hn).
    destruct (n <=? b - a); reflexivity.
Qed.

Lemma parse_step_witness :
  parse minuteOpts "*/20" = (Some [0; 20; 40], None)
  /\ parse minuteOpts "50/20" =
     (None, Some (wrapErr minuteOpts (Errorf "step only occurs once")))
  /\ parse minuteOpts "10-30/10" = (Some [10; 20; 30], None).
Proof.
  destruct (parse_step minuteOpts 20) as (H1 & H2 & _);
    [left; reflexivity | unfold strconv.maxInt; lia |].
  destruct (parse_step minuteOpts 10) as (_ & _ & H3);
    [left; reflexivity | unfold strconv.maxInt; lia |].
  split; [exact H1 |]. split.
  - apply (H2 50). vm_compute. split; discriminate.
  - apply (H3 10 30); [vm_compute; split; discriminate
                      | vm_compute; split; discriminate | lia].
Defined.

(** X9.  [stepValues] of the integers from [lo] to [hi], for a step of at
    least 1: the result is strictly ascending and holds exactly the values
    [lo], [lo + step], [lo + 2 step], ... that are not above [hi]. *)
Theorem stepValues_every_nth (lo hi step : Z) :
  1 <= step ->
  ascending (stepValues (upto lo hi) step)
  /\ forall v, In v (stepValues (upto lo hi) step)
               <-> lo <= v <= hi /\ (v - lo) mod step = 0.
Proof.
  intros Hn. split.
  - apply (stepValuesFrom_ascending (upto lo hi) step 0 (upto_ascending lo hi)).
  - intros v. apply stepValues_upto. exact Hn.
Qed.

Lemma stepValues_every_nth_witness :
  ascending (stepValues (upto 5 59) 10)
  /\ forall v, In v (stepValues (upto 5 59) 10)
               <-> 5 <= v <= 59 /\ (v - 5) mod 10 = 0.
Proof. apply (stepValues_every_nth 5 59 10). lia. Defined.

(* --------------------------------------------------------------------- *)
(** ** Minute boundaries                                                 *)
(* --------------------------------------------------------------------- *)

Lemma Truncate_aligned t : aligned (Time.Truncate t time.Minute).
Proof.
  unfold aligned, Time.Truncate. change (time.Minute <=? 0) with false.
  cbv iota. unfold Time.Add. cbn [time.unixNano].
  set (x := time.unixNano t + 62135596800 * time.Second).
  replace (time.unixNano t + - (x mod time.Minute) + 62135596800 * time.Second)
    with (x - x mod time.Minute) by (unfold x; lia).
  rewrite Zminus_mod, Z.mod_mod by discriminate.
  rewrite Z.sub_diag. reflexivity.
Qed.

Lemma aligned_Truncate t : aligned t -> Time.Truncate t time.Minute = t.
Proof.
  unfold aligned, Time.Truncate. intros H.
  change (time.Minute <=? 0) with false. cbv iota. rewrite H. apply Add_0.
Qed.

Lemma aligned_Add t k : aligned t -> aligned (Time.Add t (k * time.Minute)).
Proof.
  unfold aligned, Time.Add. cbn [time.unixNano]. intros H.
  replace (time.unixNano t + k * time.Minute + 62135596800 * time.Second)
    with (time.unixNano t + 62135596800 * time.Second + k * time.Minute) by lia.
  rewrite Z.mod_add by discriminate. exact H.
Qed.

Lemma aligned_minutesAfter t k : aligned t -> aligned (minutesAfter t k).
Proof. apply aligned_Add. Qed.

Lemma In_same t : Time.In t (time.loc t) = t.
Proof. destruct t. reflexivity. Qed.

Lemma loc_minutesAfter t k : time.loc (minutesAfter t k) = time.loc t.
Proof. reflexivity. Qed.

Lemma minutesBefore_After t k i :
  (i <= k)%nat -> minutesBefore (minutesAfter t k) i = minutesAfter t (k - i).
Proof.
  intros H. unfold minutesBefore, minutesAfter. rewrite Add_Add. f_equal.
  rewrite Nat2Z.inj_sub by exact H. lia.
Qed.

Lemma minutesAfter_0 t : minutesAfter t 0 = t.
Proof. unfold minutesAfter. apply Add_0. Qed.

Lemma prevLoop_first k s t fuel :
  (1 <= k <= fuel)%nat ->
  (forall i, (1 <= i < k)%nat -> Matches s (minutesBefore t i) = false) ->
  Matches s (minutesBefore t k) = true ->
  prevLoop fuel s t = Some (minutesBefore t k).
Proof.
  revert t fuel. induction k as [| k IH]; intros t fuel Hk Hq Hm; [lia |].
  destruct fuel as [| fuel]; [lia |]. rewrite prevLoop_S.
  destruct k as [| k].
  - rewrite minutesBefore_1 in Hm. rewrite Hm. rewrite minutesBefore_1. reflexivity.
  - rewrite <- minutesBefore_1. rewrite (Hq 1%nat) by lia.
    rewrite minutesBefore_1, <- minutesBefore_S. apply IH.
    + lia.
    + intros i Hi. rewrite minutesBefore_S. apply Hq. lia.
    + rewrite minutesBefore_S. exact Hm.
Qed.

(** What [Next] returns by its loop: a minute boundary in the location of
    the schedule, some minutes after the truncated time, the first that
    matches. *)
Lemma Next_loop fuel s t r :
  Schedule_String s <> "0 0 1 1 *" -> Schedule_String s <> Monthly ->
  Next fuel s t = Some r ->
  let t0 := Time.Truncate (Time.In t (loc s)) time.Minute in
  exists k, (1 <= k <= fuel)%nat /\ r = minutesAfter t0 k
            /\ Matches s r = true
            /\ (forall i, (1 <= i < k)%nat -> Matches s (minutesAfter t0 i) = false)
            /\ aligned r /\ time.loc r = loc s
            /\ time.unixNano t0 <= time.unixNano t < time.unixNano t0 + time.Minute.
Proof.
  intros Hy Hm H t0. rewrite Next_eq, nextNoTruncate_loop in H by assumption.
  fold t0 in H. destruct (nextLoop_sound _ _ _ _ H) as (k & Hk & -> & HM & Hq).
  exists k. split; [exact Hk |]. split; [reflexivity |]. split; [exact HM |].
  split; [exact Hq |].
  split; [apply aligned_minutesAfter, Truncate_aligned |].
  pose proof (Truncate_minute (Time.In t (loc s))) as Ht. cbv zeta in Ht.
  fold t0 in Ht. destruct Ht as [Hb Hl].
  split; [rewrite loc_minutesAfter, Hl; reflexivity | exact Hb].
Qed.

(* --------------------------------------------------------------------- *)
(** ** Next, Prev, UntilNext and the minute test of the ticker           *)
(* --------------------------------------------------------------------- *)

(** X10.  [Prev] after [Next], for a schedule whose next occurrence is
    found by the loop: with [t0] the time truncated to the minute in the
    location of the schedule and [r] what [Next] returns, [Prev] of [r]
    never returns a time after [t0], and it returns [t0] itself when [t0]
    matches. *)
Theorem prev_of_next (s : Schedule) (t r : time.Time) (fuel : nat) :
  Schedule_String s <> "0 0 1 1 *" -> Schedule_String s <> Monthly ->
  Next fuel s t = Some r ->
  let t0 := Time.Truncate (Time.In t (loc s)) time.Minute in
  (Matches s t0 = true -> Prev fuel s r = Some t0)
  /\ (forall fuel' p, Prev fuel' s r = Some p ->
                      time.unixNano p <= time.unixNano t0).
Proof.
  intros Hy Hm H t0.
  destruct (Next_loop fuel s t r Hy Hm H) as (k & Hk & Er & HM & Hq & Ha & Hl & _).
  fold t0 in Er, Hq.
  assert (Hr : Time.Truncate (Time.In r (loc s)) time.Minute = r).
  { rewrite <- Hl, In_same. apply aligned_Truncate. exact Ha. }
  split.
  - intros Ht0. rewrite Prev_eq, Hr, Er.
    rewrite <- (minutesAfter_0 t0) at 2.
    replace 0%nat with (k - k)%nat by lia.
    rewrite <- (minutesBefore_After t0 k k) by lia.
    apply prevLoop_first; [exact Hk | |].
    + intros i Hi. rewrite minutesBefore_After by lia. apply Hq. lia.
    + rewrite minutesBefore_After by lia.
      replace (k - k)%nat with 0%nat by lia. rewrite minutesAfter_0. exact Ht0.
  - intros fuel' p Hp. rewrite Prev_eq, Hr in Hp.
    destruct (prevLoop_sound _ _ _ _ Hp) as (j & Hj & -> & HMp & _).
    destruct (Nat.lt_ge_cases j k) as [Hlt | Hge].
    + rewrite Er, minutesBefore_After in HMp by lia.
      rewrite Hq in HMp by lia. discriminate.
    + rewrite Er. unfold minutesBefore, minutesAfter, Time.Add.
      cbn [time.unixNano]. unfold time.Minute, time.Second. lia.
Qed.

Lemma prev_of_next_witness :
  let s := mustNew "*/15 * * * *" None in
  let t0 := Time.Truncate
              (Time.In (time.Date 2024 2 21 11 30 20 0 time.UTC) (loc s))
              time.Minute in
  Prev 15 s (time.Date 2024 2 21 11 45 0 0 time.UTC) = Some t0.
Proof.
  intros s t0.
  apply (prev_of_next s (time.Date 2024 2 21 11 30 20 0 time.UTC)
           (time.Date 2024 2 21 11 45 0 0 time.UTC) 15).
  - vm_compute. discriminate.
  - vm_compute. discriminate.
  - vm_compute. reflexivity.
  - vm_compute. reflexivity.
Defined.

(** X11.  [UntilNext], for a schedule whose next occurrence is found by
    the loop: the duration is positive, and at most as many minutes as
    the loop made steps. *)
Theorem until_next_positive (s : Schedule) (t : time.Time) (fuel : nat)
    (d : time.Duration) :
  Schedule_String s <> "0 0 1 1 *" -> Schedule_String s <> Monthly ->
  Z.of_nat fuel * time.Minute <= strconv.maxInt ->
  UntilNext fuel s t = Some d ->
  0 < d <= Z.of_nat fuel * time.Minute.
Proof.
  intros Hy Hm Hfuel H. unfold UntilNext in H.
  destruct (Next fuel s t) as [r |] eqn:E; [| discriminate].
  injection H as <-.
  destruct (Next_loop fuel s t r Hy Hm E) as (k & Hk & Er & _ & _ & _ & _ & Hb).
  assert (Hd : time.unixNano r
               = time.unixNano (Time.Truncate (Time.In t (loc s)) time.Minute)
                 + Z.of_nat k * time.Minute) by (rewrite Er; reflexivity).
  unfold Time_Sub. cbv zeta.
  destruct (_ <? strconv.minInt) eqn:E1.
  { apply Z.ltb_lt in E1.
    unfold strconv.minInt, strconv.maxInt, time.Minute, time.Second in *.
    change (2 ^ 63) with 9223372036854775808 in *. lia. }
  apply Z.ltb_ge in E1.
  destruct (_ >? strconv.maxInt) eqn:E2;
    [rewrite Z.gtb_ltb in E2; apply Z.ltb_lt in E2
    | rewrite Z.gtb_ltb in E2; apply Z.ltb_ge in E2];
    unfold strconv.minInt, strconv.maxInt, time.Minute, time.Second in *;
    change (2 ^ 63) with 9223372036854775808 in *; lia.
Qed.

Lemma until_next_positive_witness :
  0 < 1440 * time.Second <= Z.of_nat 30 * time.Minute.
Proof.
  apply (until_next_positive (mustNew "0 * * * *" None)
           (time.Date 2024 2 21 11 36 0 0 time.UTC) 30).
  - vm_compute. discriminate.
  - vm_compute. discriminate.
  - vm_compute. discriminate.
  - vm_compute. reflexivity.
Defined.

Lemma Truncate_eq t r :
  aligned r ->
  time.unixNano (Time.Truncate t time.Minute) = time.unixNano r
  <-> time.unixNano r <= time.unixNano t < time.unixNano r + time.Minute.
Proof.
  intros Ha. pose proof (Truncate_minute t) as Ht. cbv zeta in Ht.
  destruct Ht as [Hb _]. pose proof (Truncate_aligned t) as Hta.
  unfold aligned in *. split; [intros <-; exact Hb |].
  intros Hr.
  set (x := time.unixNano (Time.Truncate t time.Minute)) in *.
  set (y := time.unixNano r) in *.
  set (c := 62135596800 * time.Second) in *.
  apply Z.mod_divide in Hta; [| discriminate].
  apply Z.mod_divide in Ha; [| discriminate].
  destruct Hta as [p Hp]. destruct Ha as [q Hq].
  assert (p = q); [| lia].
  unfold time.Minute, time.Second in *. lia.
Qed.

(** X12.  The test the ticker makes each time it wakes up: for [r] the
    occurrence that the loop of [nextNoTruncate] found, it holds of the
    clock from [r] on and for one minute, and at no other time. *)
Theorem ticker_minute_test (s : Schedule) (t r now : time.Time)
    (fuel : nat) :
  Schedule_String s <> "0 0 1 1 *" -> Schedule_String s <> Monthly ->
  nextNoTruncate fuel s (Time.Truncate (Time.In t (loc s)) time.Minute)
    = Some r ->
  timesEqualToMinute now r = true
  <-> time.unixNano r <= time.unixNano now < time.unixNano r + time.Minute.
Proof.
  intros Hy Hm H. rewrite <- Next_eq in H.
  destruct (Next_loop fuel s t r Hy Hm H) as (k & _ & _ & _ & _ & Ha & _ & _).
  unfold timesEqualToMinute, Time_Equal.
  rewrite (aligned_Truncate r Ha), Z.eqb_eq.
  apply Truncate_eq. exact Ha.
Qed.

Lemma ticker_minute_test_witness :
  let r := time.Date 2024 2 21 12 0 0 0 time.UTC in
  let now := time.Date 2024 2 21 12 0 59 999999999 time.UTC in
  timesEqualToMinute now r = true
  <-> time.unixNano r <= time.unixNano now < time.unixNano r + time.Minute.
Proof.
  intros r now.
  apply (ticker_minute_test (mustNew "0 * * * *" None)
           (time.Date 2024 2 21 11 36 0 0 time.UTC) r now 30).
  - vm_compute. discriminate.
  - vm_compute. discriminate.
  - vm_compute. reflexivity.
Defined.

(* --------------------------------------------------------------------- *)
(** ** TrimSpace and the macros                                          *)
(* --------------------------------------------------------------------- *)

Lemma TrimRight_idem s : strings.TrimRight (strings.TrimRight s) = strings.TrimRight s.
Proof.
  induction s as [| c s IH]; [reflexivity |].
  cbn [strings.TrimRight].
  destruct (strings.TrimRight s) as [| c' r] eqn:E.
  - destruct (strings.isSpace c) eqn:Ec; [reflexivity |].
    cbn [strings.TrimRight]. rewrite Ec. reflexivity.
  - cbn [strings.TrimRight] in *. rewrite IH. reflexivity.
Qed.

(** What [TrimLeft] leaves does not start with white space. *)
Lemma TrimLeft_head s :
  match strings.TrimLeft s with
  | EmptyString => True
  | String c _ => strings.isSpace c = false
  end.
Proof.
  induction s as [| c s IH]; [exact I |].
  cbn [strings.TrimLeft]. destruct (strings.isSpace c) eqn:E; [exact IH | exact E].
Qed.

Lemma TrimRight_head c s :
  strings.isSpace c = false ->
  exists r, strings.TrimRight (String c s) = String c r.
Proof.
  intros H. cbn [strings.TrimRight].
  destruct (strings.TrimRight s); [rewrite H |]; eauto.
Qed.

Lemma TrimSpace_idem s :
  strings.TrimSpace (strings.TrimSpace s) = strings.TrimSpace s.
Proof.
  unfold strings.TrimSpace.
  pose proof (TrimLeft_head s) as H.
  destruct (strings.TrimLeft s) as [| c u] eqn:E; [reflexivity |].
  destruct (TrimRight_head c u H) as [r Er]. rewrite Er.
  cbn [strings.TrimLeft]. rewrite H. rewrite <- Er. apply TrimRight_idem.
Qed.

(** The expression of a macro is no macro and has no white space around
    it. *)
Lemma cronShortcut_resolved macro cs :
  cronShortcut macro = Some cs ->
  strings.TrimSpace cs = cs /\ cronShortcut cs = None.
Proof.
  unfold cronShortcut.
  repeat (destruct (String.eqb macro _);
          [intros [= <-]; split; reflexivity |]).
  discriminate.
Qed.

Lemma resolved_idem cron : resolved (resolved cron) = resolved cron.
Proof.
  unfold resolved. cbv zeta.
  destruct (cronShortcut (strings.TrimSpace cron)) as [cs |] eqn:E.
  - destruct (cronShortcut_resolved _ _ E) as [-> ->]. reflexivity.
  - rewrite TrimSpace_idem, E. reflexivity.
Qed.

Lemma resolved_TrimSpace cron : resolved (strings.TrimSpace cron) = resolved cron.
Proof. unfold resolved. cbv zeta. rewrite TrimSpace_idem. reflexivity. Qed.

(* --------------------------------------------------------------------- *)
(** ** New and String                                                    *)
(* --------------------------------------------------------------------- *)

(** X13.  From [String] back to [New]: the string of a schedule that
    [New] returned is the expression, trimmed and with a macro replaced,
    and [New] of that string in the location of the schedule returns the
    same schedule and the same error. *)
Theorem new_of_string (cron : string) (l : option time.Location)
    (s : Schedule) (err : option error) :
  New cron l = (Some s, err) ->
  Schedule_String s = resolved cron
  /\ New (Schedule_String s) (Some (loc s)) = (Some s, err).
Proof.
  intros H. destruct (New_some _ _ _ _ H) as (H5 & Es & Ee & Hv & Hl).
  cbv zeta in *.
  assert (E : Schedule_String s = resolved cron).
  { unfold Schedule_String. rewrite Hv. apply (Join_Split (resolved cron) " "). }
  split; [exact E |].
  rewrite E, New_spec. cbv zeta. rewrite resolved_idem.
  apply Nat.eqb_eq in H5. rewrite H5.
  change (locOr (Some (loc s))) with (loc s). rewrite Hl, <- Es, <- Ee.
  reflexivity.
Qed.

Lemma new_of_string_witness :
  let s := mustNew " @weekly " (Some berlin) in
  Schedule_String s = resolved " @weekly "
  /\ New (Schedule_String s) (Some (loc s)) = (Some s, None).
Proof.
  apply (new_of_string " @weekly " (Some berlin)). vm_compute. reflexivity.
Defined.


(* --------------------------------------------------------------------- *)
(** ** Matching in a location without transitions                        *)
(* --------------------------------------------------------------------- *)

(** The wall clock of a time truncated to the minute, in a location
    whose offset is a number of whole minutes. *)
Lemma wall_Truncate t :
  time.tx (time.loc t) = [] -> time.zone (time.loc t) mod 60 = 0 ->
  Time.wall (Time.Truncate t time.Minute) = 60 * (Time.wall t / 60).
Proof.
  intros Hl Hz.
  pose proof (Truncate_minute t) as H. cbv zeta in H. destruct H as [Hb Hloc].
  pose proof (Truncate_aligned t) as Ha. unfold aligned in Ha.
  rewrite !wall_fixed by (rewrite ?Hloc; exact Hl). rewrite Hloc.
  unfold Time.Unix.
  set (x0 := time.unixNano (Time.Truncate t time.Minute)) in *.
  set (x := time.unixNano t) in *.
  set (z := time.zone (time.loc t)) in *.
  unfold time.Minute, time.Second in *.
  Z.div_mod_to_equations. lia.
Qed.

Lemma fields_Truncate t :
  time.tx (time.loc t) = [] -> time.zone (time.loc t) mod 60 = 0 ->
  let t0 := Time.Truncate t time.Minute in
  Time.date t0 = Time.date t /\ Time.Hour t0 = Time.Hour t
  /\ Time.Minute t0 = Time.Minute t /\ Time.Weekday t0 = Time.Weekday t
  /\ Time.Location t0 = Time.Location t.
Proof.
  intros Hl Hz t0. subst t0.
  pose proof (wall_Truncate t Hl Hz) as Hw.
  assert (Hd : Time.wall (Time.Truncate t time.Minute) / 86400
               = Time.wall t / 86400)
    by (rewrite Hw; Z.div_mod_to_equations; lia).
  unfold Time.date, Time.Hour, Time.Minute, Time.Weekday, Time.Location.
  rewrite Hd. split; [reflexivity |].
  split; [rewrite Hw; Z.div_mod_to_equations; lia |].
  split; [rewrite Hw; Z.div_mod_to_equations; lia |].
  split; [reflexivity |].
  apply Truncate_minute.
Qed.

Lemma Matches_fields s t u :
  Time.date t = Time.date u -> Time.Hour t = Time.Hour u ->
  Time.Minute t = Time.Minute u -> Time.Weekday t = Time.Weekday u ->
  Time.Location t = Time.Location u ->
  Matches s t = Matches s u.
Proof.
  intros Hd Hh Hm Hw Hl.
  unfold Matches, isWeekday, isMonth, isDay, isHour, isMinute,
    Time.Year, Time.Month, Time.Day.
  rewrite Hd, Hh, Hm, Hw, Hl. reflexivity.
Qed.

(* --------------------------------------------------------------------- *)
(** ** The start of a year                                               *)
(* --------------------------------------------------------------------- *)

Lemma era_days_back : allFrom (Z.to_nat 146097) (-719468) civilBack = true.
Proof. vm_cast_no_check (eq_refl true). Qed.

(** From the date back to the day. *)
Lemma civil_back z y m d :
  time.civil z = (y, m, d) -> time.dateToDays y m d = z.
Proof.
  intros H. destruct (era_split z) as (k & z0 & -> & Hz0).
  rewrite civil_shift in H.
  pose proof (allFrom_spec _ _ _ era_days_back (z0 + 719468) ltac:(lia)) as Hok.
  replace (-719468 + (z0 + 719468)) with z0 in Hok by lia.
  unfold civilBack in Hok.
  destruct (time.civil z0) as [[y0 m0] d0].
  change ((y0 + 400 * k, m0, d0) = (y, m, d)) in H.
  assert (y = y0 + 400 * k /\ m = m0 /\ d = d0) as (-> & -> & ->)
    by (repeat split; congruence).
  apply Z.eqb_eq in Hok. rewrite dateToDays_shift. lia.
Qed.

Lemma yearStart y : time.dateToDays y 1 1 = time.daysSinceEpoch y.
Proof.
  unfold time.dateToDays. change (time.daysBefore (1 - 1)) with 0.
  change (3 <=? 1) with false. rewrite andb_false_r. lia.
Qed.

(** A year has 365 or 366 days. *)
Lemma year_length y :
  365 <= time.dateToDays (y + 1) 1 1 - time.dateToDays y 1 1 <= 366.
Proof.
  rewrite !yearStart. unfold time.daysSinceEpoch. cbv zeta.
  replace (y + 1 - 1) with y by lia.
  Z.div_mod_to_equations. lia.
Qed.

Lemma yearStart_mono y1 y2 :
  y1 <= y2 -> time.dateToDays y1 1 1 <= time.dateToDays y2 1 1.
Proof.
  intros H. replace y2 with (y1 + Z.of_nat (Z.to_nat (y2 - y1))) by lia.
  induction (Z.to_nat (y2 - y1)) as [| n IH]; [rewrite Z.add_0_r; lia |].
  pose proof (year_length (y1 + Z.of_nat n)).
  replace (y1 + Z.of_nat (S n)) with (y1 + Z.of_nat n + 1) by lia. lia.
Qed.

(** The day of a date is not before the first day of its year. *)
Lemma date_from t :
  time.dateToDays (Time.Year t) 1 1 <= Time.wall t / 86400.
Proof.
  pose proof (date_valid t) as (Hm & Hd & _).
  unfold Time.Year, Time.Month, Time.Day, Time.date in *.
  destruct (time.civil (Time.wall t / 86400)) as [[y m] d] eqn:E.
  cbn [fst snd] in *. rewrite <- (civil_back _ _ _ _ E).
  unfold time.dateToDays. change (time.daysBefore (1 - 1)) with 0.
  change (3 <=? 1) with false. rewrite andb_false_r.
  assert (0 <= time.daysBefore (m - 1)).
  { assert (Em : m = 1 \/ m = 2 \/ m = 3 \/ m = 4 \/ m = 5 \/ m = 6 \/ m = 7
                 \/ m = 8 \/ m = 9 \/ m = 10 \/ m = 11 \/ m = 12) by lia.
    repeat (destruct Em as [-> | Em]; [vm_compute; discriminate |]).
    subst m. vm_compute. discriminate. }
  destruct (time.isLeap y && (3 <=? m)); lia.
Qed.

(** A time on the first of January has the day that starts its year. *)
Lemma newYear_day t :
  Time.Month t = 1 -> Time.Day t = 1 ->
  Time.wall t / 86400 = time.dateToDays (Time.Year t) 1 1.
Proof.
  unfold Time.Year, Time.Month, Time.Day, Time.date.
  destruct (time.civil (Time.wall t / 86400)) as [[y m] d] eqn:E.
  cbn [fst snd]. intros -> ->. symmetry. exact (civil_back _ _ _ _ E).
Qed.

(** The year of a day between the starts of two consecutive years. *)
Lemma year_between t y :
  time.dateToDays y 1 1 <= Time.wall t / 86400 < time.dateToDays (y + 1) 1 1 ->
  Time.Year t = y.
Proof.
  intros [Hlo Hhi].
  pose proof (date_from t) as Hfrom.
  pose proof (date_valid t) as (_ & _ & Hto).
  destruct (Z.lt_trichotomy (Time.Year t) y) as [Hlt | [E | Hgt]]; [| exact E |].
  - pose proof (yearStart_mono (Time.Year t + 1) y ltac:(lia)). lia.
  - pose proof (yearStart_mono (y + 1) (Time.Year t) ltac:(lia)). lia.
Qed.

(* --------------------------------------------------------------------- *)
(** ** The yearly schedule                                               *)
(* --------------------------------------------------------------------- *)

Lemma yearly_Matches cron l s err t :
  New cron l = (Some s, err) -> Schedule_String s = "0 0 1 1 *" ->
  Matches s t =
  (Time.Month t =? 1) && (Time.Day t =? 1) && (Time.Hour t =? 0)
  && (Time.Minute t =? 0).
Proof.
  intros HN Hs. destruct (yearly_schedule cron l s err HN Hs) as [_ ->].
  unfold Matches, isWeekday, isMonth, isDay, isHour, isMinute.
  cbn [allowAnyWeekday allowAnyMonth allowAnyDay allowAnyHour allowAnyMinute
       months days hours minutes elems included Day value values].
  change (nth (Z.to_nat dayInd) ["0"; "0"; "1"; "1"; "*"] "" =? str Last)%string
    with false.
  cbv iota. cbn [andb].
  destruct (Time.Month t =? 1), (Time.Day t =? 1), (Time.Hour t =? 0),
    (Time.Minute t =? 0); reflexivity.
Qed.

Lemma wall_minutesAfter t i :
  time.tx (time.loc t) = [] ->
  (time.unixNano t) mod 1000000000 = 0 ->
  Time.wall (minutesAfter t i) = Time.wall t + 60 * Z.of_nat i.
Proof.
  intros Hl Hn. rewrite !wall_fixed by exact Hl.
  unfold Time.Unix, minutesAfter, Time.Add. cbn [time.unixNano time.loc].
  unfold time.Minute, time.Second.
  set (x := time.unixNano t) in *. Z.div_mod_to_equations. lia.
Qed.

Lemma aligned_second t : aligned t -> (time.unixNano t) mod 1000000000 = 0.
Proof.
  unfold aligned, time.Minute, time.Second. intros H.
  set (x := time.unixNano t) in *. Z.div_mod_to_equations. lia.
Qed.

Lemma aligned_wall t :
  aligned t -> time.tx (time.loc t) = [] -> time.zone (time.loc t) mod 60 = 0 ->
  Time.wall t mod 60 = 0.
Proof.
  intros Ha Hl Hz. rewrite wall_fixed by exact Hl. unfold Time.Unix.
  unfold aligned, time.Minute, time.Second in Ha.
  set (x := time.unixNano t) in *. set (z := time.zone (time.loc t)) in *.
  Z.div_mod_to_equations. lia.
Qed.

(** From a minute boundary [t0] in a location without transitions and
    with an offset of whole minutes, the first of January of the next
    year is some minutes ahead, a leap year's minutes at most, and no
    minute before it is at 00:00 of a first of January. *)
Lemma newYear_ahead t0 :
  aligned t0 -> time.tx (time.loc t0) = [] ->
  time.zone (time.loc t0) mod 60 = 0 ->
  let r := time.Date (Time.Year t0 + 1) 1 1 0 0 0 0 (time.loc t0) in
  exists k, (1 <= k <= Z.to_nat 527040)%nat /\ r = minutesAfter t0 k
    /\ forall i, (1 <= i < k)%nat ->
         (Time.Month (minutesAfter t0 i) =? 1)
         && (Time.Day (minutesAfter t0 i) =? 1)
         && (Time.Hour (minutesAfter t0 i) =? 0)
         && (Time.Minute (minutesAfter t0 i) =? 0) = false.
Proof.
  intros Ha Hl Hz r. subst r.
  rewrite Date_first_fixed by exact Hl.
  change ((1 - 1) / 12) with 0. change ((1 - 1) mod 12 + 1) with 1.
  rewrite Z.add_0_r.
  pose proof (date_from t0) as Hfrom.
  destruct (date_valid t0) as (_ & _ & Hto).
  pose proof (year_length (Time.Year t0)) as Hlen.
  pose proof (aligned_second t0 Ha) as Hsec.
  pose proof (aligned_wall t0 Ha Hl Hz) as Hw60.
  pose proof (wall_fixed t0 Hl) as Hw. unfold Time.Unix in Hw.
  set (DY := time.dateToDays (Time.Year t0) 1 1) in *.
  set (DY1 := time.dateToDays (Time.Year t0 + 1) 1 1) in *.
  set (w0 := Time.wall t0) in *.
  set (z := time.zone (time.loc t0)) in *.
  set (U := time.unixNano t0) in *.
  assert (Hk : exists q, DY1 * 86400 - w0 = 60 * q /\ 1 <= q <= 527040).
  { exists ((DY1 * 86400 - w0) / 60).
    clear Hw. Z.div_mod_to_equations. lia. }
  destruct Hk as (q & Eq & Hq).
  exists (Z.to_nat q). split; [lia |]. split.
  - unfold minutesAfter, Time.Add. fold U. f_equal.
    rewrite Z2Nat.id by lia. unfold time.Minute, time.Second.
    Z.div_mod_to_equations. lia.
  - intros i Hi.
    set (u := minutesAfter t0 i).
    assert (Hwu : Time.wall u = w0 + 60 * Z.of_nat i)
      by (apply wall_minutesAfter; assumption).
    destruct ((Time.Month u =? 1) && (Time.Day u =? 1) && (Time.Hour u =? 0)
              && (Time.Minute u =? 0)) eqn:E; [exfalso | reflexivity].
    rewrite !andb_true_iff in E. destruct E as (((Em & Ed) & Eh) & Emin).
    apply Z.eqb_eq in Em, Ed, Eh, Emin.
    assert (Hy : Time.Year u = Time.Year t0).
    { apply year_between. fold DY DY1. rewrite Hwu.
      clear Hw Eh Emin. Z.div_mod_to_equations. lia. }
    pose proof (newYear_day u Em Ed) as Hday. rewrite Hy in Hday. fold DY in Hday.
    unfold Time.Hour, Time.Minute in Eh, Emin. rewrite Hwu in *.
    clear Hw. Z.div_mod_to_equations. lia.
Qed.

(** X15.  The short cut of [nextNoTruncate] for the yearly expression
    gives what its loop would give: in a location without transitions
    whose offset is a number of whole minutes, the first of January of
    the next year is the first minute after the truncated time that
    matches, and the loop finds it within the minutes of a leap year. *)
Theorem yearly_fast_path (cron : string) (l : option time.Location)
    (s : Schedule) (err : option error) (t : time.Time) (fuel fuel' : nat) :
  New cron l = (Some s, err) -> Schedule_String s = "0 0 1 1 *" ->
  time.tx (loc s) = [] -> time.zone (loc s) mod 60 = 0 ->
  (Z.to_nat 527040 <= fuel')%nat ->
  Next fuel s t
  = nextLoop fuel' s (Time.Truncate (Time.In t (loc s)) time.Minute).
Proof.
  intros HN Hs Hl Hz Hfuel.
  set (t0 := Time.Truncate (Time.In t (loc s)) time.Minute).
  assert (Hloc : time.loc t0 = loc s) by (apply Truncate_minute).
  rewrite Next_eq. fold t0. unfold nextNoTruncate. cbv zeta. rewrite Hs.
  change ("0 0 1 1 *" =? "0 0 1 1 *")%string with true. cbv iota.
  destruct (newYear_ahead t0 (Truncate_aligned _)
              ltac:(rewrite Hloc; exact Hl) ltac:(rewrite Hloc; exact Hz))
    as (k & Hk & Er & Hq).
  unfold Time.Location. change januaryInd with 1. rewrite Er. symmetry.
  apply nextLoop_first; [lia | |].
  - intros i Hi. rewrite (yearly_Matches cron l s err _ HN Hs). apply Hq. exact Hi.
  - rewrite <- Er.
    destruct (newYear_fields (Time.Year t0 + 1) (time.loc t0)
                ltac:(rewrite Hloc; exact Hl)) as (_ & Hm & Hd & Hh & Hmin).
    rewrite (yearly_Matches cron l s err _ HN Hs), Hm, Hd, Hh, Hmin. reflexivity.
Qed.

Lemma yearly_fast_path_witness :
  Next 0 (mustNew "@yearly" None) (time.Date 2024 12 31 23 58 30 0 time.UTC)
  = nextLoop (Z.to_nat 527040) (mustNew "@yearly" None)
      (Time.Truncate
         (Time.In (time.Date 2024 12 31 23 58 30 0 time.UTC)
            (loc (mustNew "@yearly" None)))
         time.Minute).
Proof.
  apply (yearly_fast_path "@yearly" None (mustNew "@yearly" None) None).
  - vm_compute. reflexivity.
  - vm_compute. reflexivity.
  - reflexivity.
  - reflexivity.
  - lia.
Defined.

(** X16.  [Matches] does not look below the minute: in a location
    without transitions whose offset is a number of whole minutes, a
    time matches exactly when the time truncated to the minute does. *)
Theorem matches_ignores_seconds (s : Schedule) (t : time.Time) :
  time.tx (time.loc t) = [] -> time.zone (time.loc t) mod 60 = 0 ->
  Matches s (Time.Truncate t time.Minute) = Matches s t.
Proof.
  intros Hl Hz.
  destruct (fields_Truncate t Hl Hz) as (Hd & Hh & Hm & Hw & Hloc).
  apply Matches_fields; assumption.
Qed.

Lemma matches_ignores_seconds_witness :
  let s := mustNew "30 12 L * *" None in
  let t := time.Date 2024 2 29 12 30 59 999 (time.FixedZone 19800) in
  Matches s (Time.Truncate t time.Minute) = Matches s t.
Proof.
  intros s t. apply (matches_ignores_seconds s t); reflexivity.
Defined.

(** X17.  The day field [L].  In a schedule that [New] returns, in a
    location without transitions: when the text of the day field is the
    upper-case [L], [isDay] holds of a time exactly when its day is the
    last of its month; when the text is the lower-case [l], which [New]
    takes as well, no time matches. *)
Theorem last_day_rule (cron : string) (l : option time.Location)
    (s : Schedule) (err : option error) :
  New cron l = (Some s, err) ->
  (Day s = "L" ->
     forall t, time.tx (time.loc t) = [] ->
       isDay s t = (Time.Day t =? time.daysIn (Time.Month t) (Time.Year t)))
  /\ (Day s = "l" -> forall t, Matches s t = false).
Proof.
  intros HN. destruct (New_some _ _ _ _ HN) as (_ & Es & _ & Hv & _).
  cbv zeta in Es, Hv.
  set (b := blankSchedule (strings.Split (resolved cron) " ") (locOr l)) in *.
  assert (Hb : Day b = Day s) by (unfold Day, value; rewrite Hv; reflexivity).
  rewrite validate_spec in Es. cbn [fst] in Es.
  assert (Hdays : forall text, Day s = text ->
            isWildcard dayOpts text = false ->
            days s = fst (parse dayOpts text) /\ allowAnyDay s = false).
  { intros text Ht Hw. rewrite Es. cbn [days allowAnyDay].
    rewrite Hb, Ht, Hw. split; reflexivity. }
  split.
  - intros Ht t Hl. destruct (Hdays "L" Ht eq_refl) as [Hd Ha].
    unfold isDay. rewrite Ha, Hd, Ht.
    change (elems (fst (parse dayOpts "L"))) with (@nil Z).
    cbn [included]. change ("L" =? str Last)%string with true. cbv iota zeta.
    rewrite (lastOfThisMonth_fixed t Hl). apply Z.eqb_sym.
  - intros Ht t. destruct (Hdays "l" Ht eq_refl) as [Hd Ha].
    unfold Matches.
    assert (E : isDay s t = false).
    { unfold isDay. rewrite Ha, Hd, Ht.
      change (elems (fst (parse dayOpts "l"))) with (@nil Z). reflexivity. }
    rewrite E. rewrite andb_false_r. reflexivity.
Qed.

Lemma last_day_rule_witness :
  Matches (mustNew "0 0 l * *" None) (time.Date 2024 2 29 0 0 0 0 time.UTC)
  = false.
Proof.
  destruct (last_day_rule "0 0 l * *" None (mustNew "0 0 l * *" None) None)
    as [_ H].
  - vm_compute. reflexivity.
  - apply H. reflexivity.
Defined.

(* --------------------------------------------------------------------- *)
(** ** The counters of a job                                             *)
(* --------------------------------------------------------------------- *)

Lemma trySend_bounds n : (n <= trySend n <= Nat.max 1 n)%nat.
Proof. unfold trySend. destruct (n <? 1)%nat eqn:E; [apply Nat.ltb_lt in E | apply Nat.ltb_ge in E]; lia. Qed.

Lemma trySend_full n : (n <= 1)%nat -> trySend n = 1%nat.
Proof. unfold trySend. destruct (n <? 1)%nat eqn:E; [apply Nat.ltb_lt in E | apply Nat.ltb_ge in E]; lia. Qed.

(** One run, the counters far from the ends of their range. *)
Lemma execute_counts rt now j :
  0 <= Runs j < 2 ^ 63 - 1 ->
  0 <= ConsecutiveFailures j <= Failures j -> Failures j <= Runs j ->
  Running j = 0 ->
  let j' := execute rt now j in
  runtimes j' = runtimes j ++ [runtimeOf (f j) (rt, now)]
  /\ Runs j' = Runs j + 1
  /\ Failures j' = Failures j + (if failedRun (f j) (rt, now) then 1 else 0)
  /\ ConsecutiveFailures j' =
       (if failedRun (f j) (rt, now) then ConsecutiveFailures j + 1 else 0)
  /\ Running j' = 0
  /\ state j' = state j /\ f j' = f j /\ options j' = options j
  /\ watching j' = watching j
  /\ previouslyStarted j' = previouslyStarted j
  /\ stopCh j' =
       (if failedRun (f j) (rt, now)
           && (((MaxFailures (options j) >? 0)
                && (Failures j + 1 >=? MaxFailures (options j)))
               || ((MaxConsecutiveFailures (options j) >? 0)
                   && (ConsecutiveFailures j + 1
                       >=? MaxConsecutiveFailures (options j))))
        then trySend (stopCh j) else stopCh j).
Proof.
  intros HR HC HF Hrun j'. subst j'. unfold execute, failedRun, runtimeOf.
  cbn [fst snd]. rewrite Hrun.
  rewrite (add64_small (Runs j) 1) by lia.
  change (add64 (add64 0 1) (-1)) with 0.
  destruct (f j rt) as [e |] eqn:Ef.
  - rewrite (add64_small (Failures j) 1) by lia.
    rewrite (add64_small (ConsecutiveFailures j) 1) by lia.
    cbn [andb].
    destruct ((MaxFailures (options j) >? 0)
              && (Failures j + 1 >=? MaxFailures (options j))).
    + cbn [orb]. repeat split.
    + cbn [orb].
      destruct ((MaxConsecutiveFailures (options j) >? 0)
                && (ConsecutiveFailures j + 1
                    >=? MaxConsecutiveFailures (options j)));
        repeat split.
  - cbn [andb]. cbv iota. repeat split. cbn [Failures]. lia.
Qed.

Lemma failedRuns_cons cb tick ticks :
  failedRuns cb (tick :: ticks)
  = (if failedRun cb tick then 1 else 0) + failedRuns cb ticks.
Proof.
  unfold failedRuns. cbn [filter]. destruct (failedRun cb tick); [| lia].
  cbn [List.length]. lia.
Qed.

Lemma failedRuns_bounds cb ticks :
  0 <= failedRuns cb ticks <= Z.of_nat (List.length ticks).
Proof.
  unfold failedRuns. pose proof (filter_length_le (failedRun cb) ticks). lia.
Qed.

(** The ticks of a job that is not suspended, run one after the other. *)
Lemma dispatchAll_counts ticks : forall j,
  state j <> ScheduleSuspended ->
  0 <= Runs j -> Runs j + Z.of_nat (List.length ticks) < 2 ^ 63 ->
  0 <= ConsecutiveFailures j <= Failures j -> Failures j <= Runs j ->
  Running j = 0 ->
  let j' := dispatchAll ticks j in
  runtimes j' = runtimes j ++ map (runtimeOf (f j)) ticks
  /\ Runs j' = Runs j + Z.of_nat (List.length ticks)
  /\ Failures j' = Failures j + failedRuns (f j) ticks
  /\ 0 <= ConsecutiveFailures j' <= Failures j'
  /\ Running j' = 0
  /\ state j' = state j /\ f j' = f j /\ options j' = options j
  /\ watching j' = watching j
  /\ previouslyStarted j' = previouslyStarted j
  /\ (stopCh j <= stopCh j' <= Nat.max 1 (stopCh j))%nat.
Proof.
  induction ticks as [| [rt now] ticks IH]; intros j Hst HR Hlen HC HF Hrun j'.
  - subst j'. unfold failedRuns. cbn [dispatchAll map List.length filter].
    rewrite app_nil_r. repeat split; lia.
  - subst j'. cbn [dispatchAll]. rewrite dispatch_running by exact Hst.
    cbn [List.length] in Hlen.
    destruct (execute_counts rt now j ltac:(lia) HC HF Hrun)
      as (E1 & E2 & E3 & E4 & E5 & E6 & E7 & E8 & E9 & E10 & E11).
    assert (Hf01 : 0 <= (if failedRun (f j) (rt, now) then 1 else 0) <= 1)
      by (destruct (failedRun (f j) (rt, now)); lia).
    destruct (IH (execute rt now j)) as
      (I1 & I2 & I3 & I4 & I5 & I6 & I7 & I8 & I9 & I10 & I11).
    + rewrite E6. exact Hst.
    + lia.
    + lia.
    + rewrite E3, E4. destruct (failedRun (f j) (rt, now)); lia.
    + lia.
    + exact E5.
    + rewrite I1, I2, I3, I6, I7, I8, I9, I10, E1, E2, E3, E6, E7, E8, E9, E10.
      rewrite failedRuns_cons. cbn [map List.length].
      rewrite <- app_assoc. cbn [app].
      pose proof (trySend_bounds (stopCh j)) as Hts.
      assert (Hch : (stopCh j <= stopCh (execute rt now j)
                     <= Nat.max 1 (stopCh j))%nat)
        by (rewrite E11; destruct (_ && _); lia).
      rewrite I3, E3, E7 in I4.
      repeat split; try lia; exact I5.
Qed.

Lemma setState_back j st : setState (setState j st) (state j) = j.
Proof. destruct j. reflexivity. Qed.

Lemma dispatchAll_suspended ticks j :
  state j = ScheduleSuspended -> dispatchAll ticks j = j.
Proof.
  intros H. induction ticks as [| [rt now] ticks IH]; [reflexivity |].
  cbn [dispatchAll]. unfold dispatch. rewrite H.
  change (ScheduleSuspended =? ScheduleSuspended) with true. cbv iota. exact IH.
Qed.

(** The stop signal, when only the threshold of all failures is set. *)
Lemma dispatchAll_total n ticks : forall j,
  state j <> ScheduleSuspended ->
  0 <= Runs j -> Runs j + Z.of_nat (List.length ticks) < 2 ^ 63 ->
  0 <= ConsecutiveFailures j <= Failures j -> Failures j <= Runs j ->
  Running j = 0 ->
  MaxFailures (options j) = n -> 0 < n ->
  MaxConsecutiveFailures (options j) <= 0 ->
  stopCh j = (if Failures j >=? n then 1 else 0)%nat ->
  stopCh (dispatchAll ticks j)
  = (if Failures j + failedRuns (f j) ticks >=? n then 1 else 0)%nat.
Proof.
  induction ticks as [| [rt now] ticks IH];
    intros j Hst HR Hlen HC HF Hrun Hn Hpos Hm Hch.
  - unfold failedRuns. cbn [dispatchAll filter List.length].
    rewrite Z.add_0_r. exact Hch.
  - cbn [dispatchAll]. rewrite dispatch_running by exact Hst.
    cbn [List.length] in Hlen.
    destruct (execute_counts rt now j ltac:(lia) HC HF Hrun)
      as (E1 & E2 & E3 & E4 & E5 & E6 & E7 & E8 & E9 & E10 & E11).
    rewrite failedRuns_cons.
    rewrite (IH (execute rt now j)).
    + rewrite E3, E7, Z.add_assoc. reflexivity.
    + rewrite E6. exact Hst.
    + lia.
    + lia.
    + rewrite E3, E4. destruct (failedRun (f j) (rt, now)); lia.
    + rewrite E3, E2. destruct (failedRun (f j) (rt, now)); lia.
    + exact E5.
    + rewrite E8. exact Hn.
    + exact Hpos.
    + rewrite E8. exact Hm.
    + rewrite E11, E3, Hn.
      assert (Em : (MaxConsecutiveFailures (options j) >? 0) = false)
        by (rewrite Z.gtb_ltb; apply Z.ltb_ge; exact Hm).
      assert (En : (n >? 0) = true) by (rewrite Z.gtb_ltb; apply Z.ltb_lt; exact Hpos).
      rewrite Em, En. cbn [andb orb]. rewrite orb_false_r.
      destruct (failedRun (f j) (rt, now)); cbn [andb].
      * destruct (Failures j + 1 >=? n) eqn:E.
        -- apply trySend_full. rewrite Hch. destruct (Failures j >=? n); lia.
        -- rewrite Hch. rewrite Z.geb_leb in E. apply Z.leb_gt in E.
           assert (E' : (Failures j >=? n) = false)
             by (rewrite Z.geb_leb; apply Z.leb_gt; lia).
           rewrite E'. reflexivity.
      * rewrite Z.add_0_r. exact Hch.
Qed.

(** No threshold set: no signal. *)
Lemma dispatchAll_unlimited ticks : forall j,
  state j <> ScheduleSuspended ->
  0 <= Runs j -> Runs j + Z.of_nat (List.length ticks) < 2 ^ 63 ->
  0 <= ConsecutiveFailures j <= Failures j -> Failures j <= Runs j ->
  Running j = 0 ->
  MaxFailures (options j) <= 0 -> MaxConsecutiveFailures (options j) <= 0 ->
  stopCh (dispatchAll ticks j) = stopCh j.
Proof.
  induction ticks as [| [rt now] ticks IH];
    intros j Hst HR Hlen HC HF Hrun Hn Hm; [reflexivity |].
  cbn [dispatchAll]. rewrite dispatch_running by exact Hst.
  cbn [List.length] in Hlen.
  destruct (execute_counts rt now j ltac:(lia) HC HF Hrun)
    as (E1 & E2 & E3 & E4 & E5 & E6 & E7 & E8 & E9 & E10 & E11).
  rewrite (IH (execute rt now j)).
  - rewrite E11.
    assert (Em : (MaxConsecutiveFailures (options j) >? 0) = false)
      by (rewrite Z.gtb_ltb; apply Z.ltb_ge; exact Hm).
    assert (En : (MaxFailures (options j) >? 0) = false)
      by (rewrite Z.gtb_ltb; apply Z.ltb_ge; exact Hn).
    rewrite Em, En. cbn [andb orb]. rewrite andb_false_r. reflexivity.
  - rewrite E6. exact Hst.
  - lia.
  - lia.
  - rewrite E3, E4. destruct (failedRun (f j) (rt, now)); lia.
  - rewrite E3, E2. destruct (failedRun (f j) (rt, now)); lia.
  - exact E5.
  - rewrite E8. exact Hn.
  - rewrite E8. exact Hm.
Qed.

(* --------------------------------------------------------------------- *)
(** ** ScheduledJob, beyond the claims                                   *)
(* --------------------------------------------------------------------- *)



(** X19.  Suspend and Resume: the ticks that arrive while a job is
    suspended are dropped - no run, no record, no counter moves - and
    [Resume] gives back the job as it was before [Suspend]. *)
Theorem suspended_ticks_dropped (j : ScheduledJob)
    (ticks : list (time.Time * time.Time)) :
  state j = ScheduleStarted ->
  let suspended := snd (Suspend j) in
  fst (Suspend j) = true
  /\ dispatchAll ticks suspended = suspended
  /\ Resume (dispatchAll ticks suspended) = (true, j).
Proof.
  intros H suspended. subst suspended. rewrite Suspend_spec, H.
  change (ScheduleStarted =? ScheduleStarted) with true. cbv iota. cbn [fst snd].
  split; [reflexivity |].
  assert (E : dispatchAll ticks (setState j ScheduleSuspended)
              = setState j ScheduleSuspended)
    by (apply dispatchAll_suspended; apply state_setState).
  split; [exact E |]. rewrite E, Resume_spec, state_setState.
  change (ScheduleSuspended =? ScheduleSuspended) with true. cbv iota.
  rewrite <- H at 1. rewrite setState_back. reflexivity.
Qed.

Lemma suspended_ticks_dropped_witness :
  let j := ScheduleFunc (mustNew "* * * * *" None) threeStrikes failing in
  let t1 := time.Date 2024 2 21 12 0 0 0 time.UTC in
  Resume (dispatchAll [(t1, t1)] (snd (Suspend j))) = (true, j).
Proof.
  intros j t1.
  destruct (suspended_ticks_dropped j [(t1, t1)]) as (_ & _ & H);
    [reflexivity | exact H].
Defined.

(** X20.  Stop is final: once a call of [Stop] has returned, [Start]
    returns an error, [Suspend] and [Resume] return false and change
    nothing, and a later [Stop] that returns returns false. *)
Theorem stop_is_final (j j' : ScheduledJob) (ctxDone preferSend b : bool) :
  Stop ctxDone preferSend j = Some (b, j') ->
  state j' = ScheduleStopped
  /\ (exists e, Start j' = inl e)
  /\ Suspend j' = (false, j')
  /\ Resume j' = (false, j')
  /\ forall ctxDone' preferSend' b' j'',
       Stop ctxDone' preferSend' j' = Some (b', j'') ->
       b' = false /\ state j'' = ScheduleStopped.
Proof.
  intros H.
  assert (Hst : forall c p x b0 y, Stop c p x = Some (b0, y) ->
                  state y = ScheduleStopped
                  /\ b0 = negb (state x =? ScheduleStopped)).
  { intros c p x b0 y. unfold Stop. cbv zeta.
    destruct ((stopCh x <? 1)%nat && (p || negb c)).
    - cbn [state setStopCh]. destruct (state x =? ScheduleStopped);
        intros [= <- <-]; split; reflexivity.
    - destruct c; [| discriminate].
      destruct (state x =? ScheduleStopped);
        intros [= <- <-]; split; reflexivity. }
  destruct (Hst _ _ _ _ _ H) as [Hs _].
  split; [exact Hs |].
  split; [apply Start_refused; left; exact Hs |].
  split; [rewrite Suspend_spec, Hs; reflexivity |].
  split; [rewrite Resume_spec, Hs; reflexivity |].
  intros c p b' j'' H'. destruct (Hst _ _ _ _ _ H') as [Hs' ->].
  rewrite Hs. split; [reflexivity | exact Hs'].
Qed.

Lemma stop_is_final_witness :
  let j := ScheduleFunc (mustNew "* * * * *" None) threeStrikes failing in
  exists j',
    Stop false true j = Some (true, j')
    /\ (exists e, Start j' = inl e) /\ Resume j' = (false, j').
Proof.
  intros j. eexists. split; [reflexivity |].
  destruct (stop_is_final j _ false true true eq_refl) as (_ & H1 & _ & H2 & _).
  split; [exact H1 | exact H2].
Defined.



(* --------------------------------------------------------------------- *)
(** ** The texts of the random generators                                *)
(* --------------------------------------------------------------------- *)

Lemma cronChar_facts c :
  cronChar c = true ->
  isUpper c = false /\ isLower c = false /\ strings.isSpace c = false
  /\ Ascii.eqb c "@" = false /\ Ascii.eqb c Blank = false
  /\ Ascii.eqb c " " = false /\ Ascii.eqb c Last = false.
Proof.
  destruct c as [[] [] [] [] [] [] [] []]; vm_compute; intros H;
    first [discriminate H | repeat split].
Qed.

Lemma cronText_app a b : cronText (a ++ b)%string = cronText a && cronText b.
Proof.
  induction a as [| c a IH]; simpl; [reflexivity |].
  rewrite IH, andb_assoc. reflexivity.
Qed.

Lemma numeric_cronText s : numeric s = true -> cronText s = true.
Proof.
  induction s as [| c s IH]; simpl; [reflexivity |].
  unfold cronChar. destruct (strconv.digit c); [exact IH | discriminate].
Qed.

Lemma cronText_noLetter s : cronText s = true -> noLetter s = true.
Proof.
  induction s as [| c s IH]; simpl; [reflexivity |].
  intros H. apply andb_prop in H. destruct H as [Hc Hs].
  destruct (cronChar_facts c Hc) as (-> & -> & _). exact (IH Hs).
Qed.

Lemma cronText_contains s r :
  cronText s = true -> cronChar r = false -> strings.ContainsRune s r = false.
Proof.
  intros Hs Hr. induction s as [| c s IH]; simpl; [reflexivity |].
  simpl in Hs. apply andb_prop in Hs. destruct Hs as [Hc Hs].
  destruct (Ascii.eqb c r) eqn:E; [| exact (IH Hs)].
  apply Ascii.eqb_eq in E. subst r. congruence.
Qed.

Lemma cronText_head s :
  cronText s = true -> s <> "" ->
  exists c s', s = String c s' /\ cronChar c = true.
Proof.
  destruct s as [| c s']; [congruence |]. simpl. intros H _.
  apply andb_prop in H. destruct H as [Hc _]. eauto.
Qed.

(** [Atoi] takes no text with a list separator. *)
Lemma digits_numeric s a x : strconv.digits s a = Some x -> numeric s = true.
Proof.
  revert a. induction s as [| c s IH]; intros a; simpl; [reflexivity |].
  destruct (strconv.digit c); [apply IH | discriminate].
Qed.

Lemma Atoi_list s :
  strings.ContainsRune s ListSeparator = true ->
  exists e, strconv.Atoi s = inr e.
Proof.
  intros Hc. destruct (strconv.Atoi s) as [m | e] eqn:E; [| eauto].
  exfalso. unfold strconv.Atoi in E.
  destruct s as [| c rest]; [discriminate |].
  cbv zeta in E.
  assert (Hbody : forall body, strings.ContainsRune body ListSeparator = true ->
            match body with
            | "" => inr strconv.ErrSyntax
            | String _ _ =>
                match strconv.digits body 0 with
                | Some n =>
                    let v := if Ascii.eqb c "-" then - n else n in
                    if (strconv.minInt <=? v) && (v <=? strconv.maxInt)
                    then inl v else inr strconv.ErrRange
                | None => inr strconv.ErrSyntax
                end
            end = inl m -> False).
  { intros body Hb Hm. destruct body as [| x body]; [discriminate |].
    destruct (strconv.digits (String x body) 0) as [n |] eqn:Ed; [| discriminate].
    apply digits_numeric in Ed.
    rewrite (numeric_contains _ ListSeparator Ed eq_refl) in Hb. discriminate. }
  destruct (Ascii.eqb c "-" || Ascii.eqb c "+") eqn:Es.
  - apply (Hbody rest); [| exact E].
    simpl in Hc. destruct (Ascii.eqb c ListSeparator) eqn:Ec; [| exact Hc].
    apply Ascii.eqb_eq in Ec. subst c. discriminate.
  - apply (Hbody (String c rest)); [exact Hc | exact E].
Qed.

Lemma Split_Join items sep :
  items <> [] ->
  Forall (fun item => strings.ContainsRune item sep = false) items ->
  strings.Split (strings.Join items (String sep "")) sep = items.
Proof.
  induction items as [| item items IH]; [congruence |].
  intros _ H. inversion_clear H as [| ? ? Hi Hrest].
  destruct items as [| item2 items].
  - cbn [strings.Join]. clear IH Hrest.
    induction item as [| c item IH]; [reflexivity |].
    simpl in Hi. cbn [strings.Split].
    destruct (Ascii.eqb c sep); [discriminate |].
    rewrite (IH Hi). reflexivity.
  - change (strings.Join (item :: item2 :: items) (String sep ""))
      with (item ++ String sep (strings.Join (item2 :: items) (String sep "")))%string.
    specialize (IH ltac:(discriminate) Hrest).
    induction item as [| c item IHc].
    + cbn [append strings.Split]. rewrite Ascii.eqb_refl, IH. reflexivity.
    + simpl in Hi. cbn [append strings.Split].
      destruct (Ascii.eqb c sep); [discriminate |].
      rewrite (IHc Hi). reflexivity.
Qed.

Lemma Join_contains item item2 items sep :
  strings.ContainsRune (strings.Join (item :: item2 :: items) (String sep "")) sep
  = true.
Proof.
  change (strings.Join (item :: item2 :: items) (String sep ""))
    with (item ++ String sep (strings.Join (item2 :: items) (String sep "")))%string.
  rewrite ContainsRune_app. cbn [strings.ContainsRune].
  rewrite Ascii.eqb_refl. apply orb_true_r.
Qed.

Lemma cronText_Join items :
  Forall (fun item => cronText item = true) items ->
  cronText (strings.Join items (str ListSeparator)) = true.
Proof.
  induction 1 as [| item items Hi _ IH]; [reflexivity |].
  destruct items as [| item2 items]; [exact Hi |].
  change (strings.Join (item :: item2 :: items) (str ListSeparator))
    with (item ++ String ListSeparator
                    (strings.Join (item2 :: items) (str ListSeparator)))%string.
  rewrite cronText_app, Hi. cbn [cronText andb]. exact IH.
Qed.

(** A list of good entries, two at least, is a good field. *)
Lemma parseListItems_good f rec items : forall acc,
  (forall item, In item items -> exists l, rec item = Ret (Some l) None) ->
  exists vs, parseListItems f rec items acc = Ret (Some vs) None.
Proof.
  induction items as [| item items IH]; intros acc H; cbn [parseListItems].
  - eauto.
  - destruct (H item (or_introl eq_refl)) as [l ->].
    apply IH. intros i Hi. apply H. right. exact Hi.
Qed.

Lemma list_good f item item2 items :
  In f fields ->
  Forall (goodItem f) (item :: item2 :: items) ->
  goodField f (strings.Join (item :: item2 :: items) (str ListSeparator)).
Proof.
  intros Hf Hall.
  set (text := strings.Join (item :: item2 :: items) (str ListSeparator)).
  assert (Hct : cronText text = true).
  { apply cronText_Join. eapply Forall_impl; [| exact Hall].
    intros i (H & _). exact H. }
  assert (Hc : strings.ContainsRune text ListSeparator = true)
    by apply Join_contains.
  assert (Hne : text <> "") by (intros E; rewrite E in Hc; discriminate).
  split; [exact Hct |]. split; [exact Hne |].
  assert (Hany : String.eqb text (str Any) = false).
  { destruct (String.eqb text (str Any)) eqn:E; [| reflexivity].
    apply String.eqb_eq in E. rewrite E in Hc. discriminate. }
  assert (Hblank : String.eqb text (str Blank) = false).
  { destruct (String.eqb text (str Blank)) eqn:E; [| reflexivity].
    apply String.eqb_eq in E. rewrite E in Hc. discriminate. }
  unfold fieldCheck, isWildcard. rewrite Hany, Hblank. cbn [andb orb].
  unfold parse, parseRun. cbn [parseFuel].
  rewrite (parseBody_noLetter f _ text Hf (cronText_noLetter _ Hct) Hne Hany Hblank).
  destruct (Atoi_list text Hc) as [e ->]. rewrite Hc. cbn [orb]. cbv iota.
  unfold parseList.
  assert (Hs : strings.Split text ListSeparator = item :: item2 :: items).
  { apply Split_Join; [discriminate |].
    eapply Forall_impl; [| exact Hall]. intros i (_ & _ & H & _). exact H. }
  destruct (parseListItems_good f (parseFuel (String.length text) f)
              (strings.Split text ListSeparator) []) as [vs ->]; [| reflexivity].
  intros i Hi.
  rewrite (parse_enough_fuel f i _ (Split_shorter text ListSeparator i Hc Hi)).
  rewrite Hs in Hi. rewrite Forall_forall in Hall.
  destruct (Hall i Hi) as (_ & _ & _ & H). exact H.
Qed.

Lemma item_good f text :
  goodItem f text -> goodField f text.
Proof.
  intros (Hct & Hne & _ & l & Hp). split; [exact Hct |]. split; [exact Hne |].
  unfold fieldCheck. destruct (isWildcard f text); [reflexivity |].
  unfold parse. rewrite Hp. reflexivity.
Qed.

Lemma any_good f : goodField f (str Any).
Proof. split; [reflexivity |]. split; [discriminate | reflexivity]. Qed.

(* --------------------------------------------------------------------- *)
(** ** An expression of five good fields                                 *)
(* --------------------------------------------------------------------- *)

Lemma TrimLeft_cron s : cronText s = true -> strings.TrimLeft s = s.
Proof.
  destruct s as [| c s]; [reflexivity |]. simpl. intros H.
  apply andb_prop in H. destruct H as [Hc _].
  destruct (cronChar_facts c Hc) as (_ & _ & -> & _). reflexivity.
Qed.

Lemma TrimRight_clean s : endsClean s = true -> strings.TrimRight s = s.
Proof.
  induction s as [| c s IH]; [discriminate |].
  destruct s as [| c' s].
  - simpl. intros H. apply negb_true_iff in H. rewrite H. reflexivity.
  - intros H. change (endsClean (String c (String c' s)))
      with (endsClean (String c' s)) in H.
    cbn [strings.TrimRight] in *. rewrite (IH H). reflexivity.
Qed.

Lemma endsClean_app a b : endsClean b = true -> endsClean (a ++ b)%string = true.
Proof.
  intros H. induction a as [| c a IH]; [exact H |].
  cbn [append]. destruct (a ++ b)%string eqn:E; [discriminate | exact IH].
Qed.

Lemma cronText_endsClean s : cronText s = true -> s <> "" -> endsClean s = true.
Proof.
  induction s as [| c s IH]; [congruence |]. intros H _.
  simpl in H. apply andb_prop in H. destruct H as [Hc Hs].
  destruct s as [| c' s].
  - simpl. destruct (cronChar_facts c Hc) as (_ & _ & -> & _). reflexivity.
  - apply IH; [exact Hs | discriminate].
Qed.

Lemma cronShortcut_cron c s :
  Ascii.eqb c "@" = false -> cronShortcut (String c s) = None.
Proof.
  intros H. unfold cronShortcut, Yearly, Annually, Monthly, Weekly, Daily,
    Midnight, Hourly.
  rewrite !(eqb_head c "@" s _ H). reflexivity.
Qed.

Lemma space_free s : cronText s = true -> strings.ContainsRune s " " = false.
Proof. intros H. apply cronText_contains; [exact H | reflexivity]. Qed.

(** [New] takes five good fields, joined by single spaces. *)
Lemma New_good minute hour day month weekday l :
  goodField minuteOpts minute -> goodField hourOpts hour ->
  goodField dayOpts day -> goodField monthOpts month ->
  goodField weekdayOpts weekday ->
  exists s,
    New (strings.Join [minute; hour; day; month; weekday] " ") l = (Some s, None)
    /\ values s = [minute; hour; day; month; weekday].
Proof.
  intros (C1 & N1 & F1) (C2 & N2 & F2) (C3 & N3 & F3) (C4 & N4 & F4)
         (C5 & N5 & F5).
  set (vs := [minute; hour; day; month; weekday]).
  set (cron := strings.Join vs " ").
  assert (Hsplit : strings.Split cron " " = vs).
  { apply (Split_Join vs " "); [discriminate |].
    repeat constructor; apply space_free; assumption. }
  assert (Hcron : cron = (minute ++ String " " (strings.Join [hour; day; month; weekday] " "))%string)
    by reflexivity.
  assert (Htrim : strings.TrimSpace cron = cron).
  { unfold strings.TrimSpace.
    destruct (cronText_head minute C1 N1) as (c & m' & Em & Hc).
    assert (Hl : strings.TrimLeft cron = cron).
    { rewrite Hcron, Em. cbn [append strings.TrimLeft].
      destruct (cronChar_facts c Hc) as (_ & _ & -> & _). reflexivity. }
    rewrite Hl. apply TrimRight_clean.
    unfold cron, vs.
    change (strings.Join [minute; hour; day; month; weekday] " ")
      with (minute ++ " " ++ hour ++ " " ++ day ++ " " ++ month ++ " " ++ weekday)%string.
    repeat apply endsClean_app. apply cronText_endsClean; assumption. }
  assert (Hres : resolved cron = cron).
  { unfold resolved. cbv zeta. rewrite Htrim.
    destruct (cronText_head minute C1 N1) as (c & m' & Em & Hc).
    rewrite Hcron, Em. cbn [append].
    destruct (cronChar_facts c Hc) as (_ & _ & _ & H & _).
    rewrite (cronShortcut_cron c _ H). reflexivity. }
  rewrite New_spec. cbv zeta. rewrite Hres, Hsplit.
  change (List.length vs =? 5)%nat with true. cbv iota.
  exists (fst (validate (blankSchedule vs (locOr l)))). split.
  - f_equal. rewrite validate_spec. cbn [snd].
    apply errorsJoin_nil.
    repeat constructor; assumption.
  - rewrite (proj1 (validate_values _)). reflexivity.
Qed.

(* --------------------------------------------------------------------- *)
(** ** The random generators                                             *)
(* --------------------------------------------------------------------- *)

Lemma yields_ret {A} (a : A) (P : A -> Prop) : P a -> yields (ret a) P.
Proof. intros H r. exact H. Qed.

Lemma yields_bind {A B} (m : gen A) (k : A -> gen B) (Q : A -> Prop)
    (P : B -> Prop) :
  yields m Q -> (forall a, Q a -> yields (k a) P) -> yields (bind m k) P.
Proof.
  intros Hm Hk r. unfold bind. specialize (Hm r).
  destruct (m r) as [a r' | |]; [| contradiction | exact I].
  exact (Hk a Hm r').
Qed.

Lemma yields_weaken {A} (m : gen A) (Q P : A -> Prop) :
  yields m Q -> (forall a, Q a -> P a) -> yields m P.
Proof.
  intros Hm H r. specialize (Hm r). destruct (m r); auto.
Qed.

Lemma yields_Intn n : 0 < n -> yields (Intn n) (fun x => 0 <= x < n).
Proof.
  intros H r. unfold Intn.
  assert (E : (n <=? 0) = false) by (apply Z.leb_gt; exact H). rewrite E.
  destruct r as [| x r]; [exact I |]. apply Z.mod_pos_bound. exact H.
Qed.

Lemma yields_index {A} (l : list A) i :
  0 <= i < Z.of_nat (List.length l) ->
  yields (index l i) (fun a => nth_error l (Z.to_nat i) = Some a).
Proof.
  intros H r. unfold index.
  assert (E : (i <? 0) = false) by (apply Z.ltb_ge; lia). rewrite E.
  destruct (nth_error l (Z.to_nat i)) as [a |] eqn:En; [reflexivity |].
  apply nth_error_None in En. lia.
Qed.

Lemma nth_error_upto lo hi i :
  0 <= i < hi - lo + 1 -> nth_error (upto lo hi) (Z.to_nat i) = Some (lo + i).
Proof.
  intros H. unfold upto.
  rewrite nth_error_map, nth_error_seq.
  assert (E : (Z.to_nat i <? Z.to_nat (hi - lo + 1))%nat = true)
    by (apply Nat.ltb_lt; lia).
  rewrite E. cbn [option_map]. f_equal. lia.
Qed.

Lemma skipn_upto lo hi k :
  0 <= k -> skipn (Z.to_nat k) (upto lo hi) = upto (lo + k) hi.
Proof.
  intros H.
  remember (Z.to_nat k) as n eqn:En. revert lo k H En.
  induction n as [| n IH]; intros lo k H En.
  - assert (k = 0) by lia. subst k. rewrite Z.add_0_r. reflexivity.
  - destruct (Z_le_gt_dec lo hi) as [Hle | Hgt].
    + rewrite (upto_cons lo hi Hle). cbn [skipn].
      rewrite (IH (lo + 1) (k - 1)) by lia. f_equal. lia.
    + rewrite !upto_nil by lia. reflexivity.
Qed.

Lemma fields_range f :
  In f fields ->
  Allowed f = upto (Min f) (Max f) /\ 0 <= Min f <= 1 /\ 6 <= Max f <= 59.
Proof.
  intros H. simpl in H.
  destruct H as [<- | [<- | [<- | [<- | [<- | []]]]]]; vm_compute;
    (split; [reflexivity |]); repeat split; discriminate.
Qed.

Lemma value_text f n :
  In f fields -> within f n ->
  cronText (Itoa n) = true /\ Itoa n <> ""
  /\ strings.ContainsRune (Itoa n) ListSeparator = false.
Proof.
  intros Hf Hn. destruct (Itoa_value f n Hf Hn) as (Hne & Hnum & _).
  split; [exact (numeric_cronText _ Hnum) |]. split; [exact Hne |].
  exact (numeric_contains _ ListSeparator Hnum eq_refl).
Qed.

Lemma value_good f n : In f fields -> within f n -> goodItem f (Itoa n).
Proof.
  intros Hf Hn. destruct (value_text f n Hf Hn) as (H1 & H2 & H3).
  split; [exact H1 |]. split; [exact H2 |]. split; [exact H3 |].
  exists [n]. apply parseRun_value; assumption.
Qed.

Lemma range_good f a b :
  In f fields -> within f a -> within f b -> a < b ->
  goodItem f (Itoa a ++ str Range ++ Itoa b).
Proof.
  intros Hf Ha Hb Hlt.
  destruct (Itoa_value f a Hf Ha) as (Hnea & Hna & _).
  destruct (Itoa_value f b Hf Hb) as (Hneb & Hnb & _).
  change (Itoa a ++ str Range ++ Itoa b)%string
    with (Itoa a ++ String Range (Itoa b))%string.
  split; [| split; [| split]].
  - rewrite cronText_app, (numeric_cronText _ Hna). cbn [cronText andb].
    change (cronChar Range) with true. exact (numeric_cronText _ Hnb).
  - destruct (Itoa a); [congruence | discriminate].
  - rewrite contains_sep by (assumption || reflexivity). reflexivity.
  - exists (upto a b). rewrite (parseRun_range f a b Hf Ha Hb).
    assert (E : (a <? b) = true) by (apply Z.ltb_lt; exact Hlt).
    rewrite E. reflexivity.
Qed.

Lemma step_good f a b n :
  In f fields -> within f a -> within f b -> a < b -> 1 <= n <= b - a ->
  goodItem f (Itoa a ++ "-" ++ Itoa b ++ "/" ++ Itoa n).
Proof.
  intros Hf Ha Hb Hlt Hn.
  destruct (Itoa_value f a Hf Ha) as (Hnea & Hna & _).
  destruct (Itoa_value f b Hf Hb) as (Hneb & Hnb & _).
  destruct (fields_bounds f Hf) as [H0 H59].
  assert (Hn' : 1 <= n <= strconv.maxInt)
    by (destruct Ha, Hb; unfold strconv.maxInt; lia).
  destruct (Itoa_spec n ltac:(lia)) as (Hnen & Hnn & _).
  change (Itoa a ++ "-" ++ Itoa b ++ "/" ++ Itoa n)%string
    with (Itoa a ++ (String Range (Itoa b) ++ String Step (Itoa n)))%string.
  rewrite <- append_assoc.
  change (Itoa a ++ String Range (Itoa b) ++ String Step (Itoa n))%string
    with ((Itoa a ++ String Range (Itoa b)) ++ String Step (Itoa n))%string.
  split; [| split; [| split]].
  - rewrite !cronText_app, (numeric_cronText _ Hna). cbn [cronText andb].
    change (cronChar Range) with true. change (cronChar Step) with true.
    rewrite (numeric_cronText _ Hnb), (numeric_cronText _ Hnn). reflexivity.
  - destruct (Itoa a); [congruence | discriminate].
  - rewrite ContainsRune_app.
    rewrite contains_sep by (assumption || reflexivity).
    cbn [strings.ContainsRune].
    change (Ascii.eqb Range ListSeparator) with false.
    change (Ascii.eqb Step ListSeparator) with false. cbn [orb]. cbv iota.
    exact (numeric_contains _ ListSeparator Hnn eq_refl).
  - exists (stepValues (upto a b) n).
    rewrite (parseRun_step_range f a b n Hf Ha Hb Hlt Hn').
    assert (E : (n <=? b - a) = true) by (apply Z.leb_le; lia).
    rewrite E. reflexivity.
Qed.

Lemma randomStep_good f : In f fields -> yields (randomStep f) (goodItem f).
Proof.
  intros Hf. destruct (fields_range f Hf) as (_ & Hmin & Hmax).
  unfold randomStep.
  apply (yields_bind _ _ (fun e => 0 <= e < Max f - 2));
    [apply yields_Intn; lia |].
  intros e He. cbv zeta.
  apply (yields_bind _ _ (fun s => 0 <= s < e + 2 - 1));
    [apply yields_Intn; lia |].
  intros s Hs.
  apply (yields_bind _ _ (fun p => 0 <= p < e + 2 - (s + Min f)));
    [apply yields_Intn; lia |].
  intros p Hp. apply yields_ret.
  apply step_good; [exact Hf | | | |]; unfold within; lia.
Qed.

Lemma randomAllowed_good f : In f fields -> yields (randomAllowed f) (within f).
Proof.
  intros Hf. destruct (fields_range f Hf) as (Ea & Hmin & Hmax).
  unfold randomAllowed.
  assert (Hlen : Z.of_nat (List.length (Allowed f)) = Max f - Min f + 1)
    by (rewrite Ea at 1; rewrite upto_length; lia).
  apply (yields_bind _ _ (fun i => 0 <= i < Max f - Min f + 1)).
  - rewrite Hlen. apply yields_Intn. lia.
  - intros i Hi. eapply yields_weaken; [apply yields_index; lia |].
    cbv beta. intros a Hn. apply within_allowed; [apply fields_wellFormed; exact Hf |].
    eapply nth_error_In. exact Hn.
Qed.

Lemma randomRange_good f : In f fields -> yields (randomRange f) (goodItem f).
Proof.
  intros Hf. destruct (fields_range f Hf) as (Ea & Hmin & Hmax).
  unfold randomRange.
  assert (Hlen : Z.of_nat (List.length (Allowed f)) = Max f - Min f + 1)
    by (rewrite Ea at 1; rewrite upto_length; lia).
  apply (yields_bind _ _ (fun i => 0 <= i < Max f - Min f)).
  { rewrite Hlen. replace (Max f - Min f + 1 - 1) with (Max f - Min f) by lia.
    apply yields_Intn. lia. }
  intros i Hi.
  apply (yields_bind _ _ (fun a => a = Min f + i)).
  { eapply yields_weaken; [apply yields_index; lia |]. cbv beta.
    intros a Hn. rewrite Ea, nth_error_upto in Hn by lia. congruence. }
  intros start ->. cbv zeta.
  assert (Et : skipn (Z.to_nat (i + 1)) (Allowed f) = upto (Min f + (i + 1)) (Max f))
    by (rewrite Ea at 1; apply skipn_upto; lia).
  rewrite Et.
  assert (Hlt : Z.of_nat (List.length (upto (Min f + (i + 1)) (Max f)))
                = Max f - (Min f + (i + 1)) + 1)
    by (rewrite upto_length; lia).
  apply (yields_bind _ _ (fun e => 0 <= e < Max f - (Min f + (i + 1)) + 1)).
  { rewrite Hlt. apply yields_Intn. lia. }
  intros e He.
  apply (yields_bind _ _ (fun b => b = Min f + (i + 1) + e)).
  { eapply yields_weaken; [apply yields_index; lia |]. cbv beta.
    intros b Hn. rewrite nth_error_upto in Hn by lia. congruence. }
  intros end_ ->. apply yields_ret.
  apply range_good; [exact Hf | | |]; unfold within; lia.
Qed.

Lemma randomNoList_good f : In f fields -> yields (randomNoList f) (goodItem f).
Proof.
  intros Hf. unfold randomNoList.
  apply (yields_bind _ _ (fun i => 0 <= i < 10)); [apply yields_Intn; lia |].
  intros i Hi.
  destruct ((6 <=? i) && (i <=? 8)); [apply randomRange_good; exact Hf |].
  destruct (i =? 9); [apply randomStep_good; exact Hf |].
  apply (yields_bind _ _ (within f)); [apply randomAllowed_good; exact Hf |].
  intros v Hv. apply yields_ret. apply value_good; assumption.
Qed.

Lemma randomEntries_good f subct fuel : forall vals entriesSeen,
  In f fields -> Forall (goodItem f) vals ->
  yields (randomEntries fuel f subct vals entriesSeen)
    (fun vs => Forall (goodItem f) vs /\ subct <= Z.of_nat (List.length vs)).
Proof.
  induction fuel as [| fuel IH]; intros vals seen Hf Hv; cbn [randomEntries].
  - intros r. exact I.
  - destruct (Z.of_nat (List.length vals) <? subct) eqn:E.
    + apply (yields_bind _ _ (goodItem f)); [apply randomNoList_good; exact Hf |].
      intros v Hgood.
      destruct (existsb (String.eqb v) seen); apply IH; try assumption.
      apply Forall_app. split; [exact Hv | constructor; [exact Hgood | constructor]].
    + apply yields_ret. apply Z.ltb_ge in E. split; assumption.
Qed.

Lemma random_good f :
  In f fields ->
  yields (random f) (fun te => snd te = None /\ goodField f (fst te)).
Proof.
  intros Hf. unfold random.
  apply (yields_bind _ _ (fun i => 0 <= i < 10)); [apply yields_Intn; lia |].
  intros isAny _.
  destruct (_ || _);
    [apply yields_ret; split; [reflexivity | apply any_good] |].
  apply (yields_bind _ _ (fun i => 0 <= i < 5)); [apply yields_Intn; lia |].
  intros i _.
  destruct (i =? 1);
    [apply yields_ret; split; [reflexivity | apply any_good] |].
  destruct (i =? 3).
  { apply (yields_bind _ _ (goodItem f)); [apply randomRange_good; exact Hf |].
    intros v Hv. apply yields_ret. split; [reflexivity | apply item_good; exact Hv]. }
  destruct (i =? 4).
  { apply (yields_bind _ _ (goodItem f)); [apply randomStep_good; exact Hf |].
    intros v Hv. apply yields_ret. split; [reflexivity | apply item_good; exact Hv]. }
  destruct (i =? 2).
  { apply (yields_bind _ _ (fun n => 0 <= n < 5)); [apply yields_Intn; lia |].
    intros n Hn. cbv zeta. intros r.
    set (subct := if n + 1 <? 2 then 2 else n + 1).
    assert (Hsub : 2 <= subct)
      by (unfold subct; destruct (n + 1 <? 2) eqn:E;
          [lia | apply Z.ltb_ge in E; lia]).
    revert r.
    change (yields
      (fun r => (vals <- randomEntries (S (List.length r)) f subct [] [] ;;
                 ret (strings.Join vals (str ListSeparator), None)) r)
      (fun te : string * option error => snd te = None /\ goodField f (fst te))).
    intros r.
    pose proof (randomEntries_good f subct (S (List.length r)) [] [] Hf
                  (Forall_nil _) r) as H.
    unfold bind. destruct (randomEntries _ f subct [] [] r) as [vals r' | |];
      [| contradiction | exact I].
    destruct H as [Hall Hlen]. cbn [ret fst snd]. split; [reflexivity |].
    destruct vals as [| v1 [| v2 vals]]; cbn [List.length] in Hlen; try lia.
    apply list_good; assumption. }
  apply (yields_bind _ _ (within f)); [apply randomAllowed_good; exact Hf |].
  intros v Hv. apply yields_ret. split; [reflexivity |].
  apply item_good, value_good; assumption.
Qed.





Lemma macros_good macro l :
  In macro macros -> exists s, New macro l = (Some s, None).
Proof.
  intros H. simpl in H.
  destruct H as [<- | [<- | [<- | [<- | [<- | [<- | [<- | []]]]]]]];
    rewrite New_spec; cbv zeta; eexists; vm_compute; reflexivity.
Qed.

